(** * teddy_crawler: a shallow embedding of the crawler core

The Python sources are embedded module by module:
- [Py]        the built-in string operations the code relies on;
- [Schema]    core/schema.py;
the theorems about them follow the definitions. *)

From stdpp Require Import gmap strings list fin_maps pretty.
From Stdlib Require Import Ascii String ZArith Lia.

Local Open Scope string_scope.
Local Open Scope nat_scope.
Local Open Scope list_scope.
#[local] Set Warnings "-clear-no-such-hyp".

(* ===================================================================== *)
(** ** Python built-ins on [str]

    A Python [str] is modelled as a [string] whose characters are the code
    points 0..255. *)
(* ===================================================================== *)

Module Py.

(** [c.isspace()] on code points below 256. *)
Definition isspace (c : ascii) : bool :=
  let n := nat_of_ascii c in
  ((9 <=? n) && (n <=? 13)) || ((28 <=? n) && (n <=? 32))
  || (n =? 133) || (n =? 160).

(** [s.lstrip()], [s.rstrip()] and [s.strip()] without argument. *)
Fixpoint lstrip (s : string) : string :=
  match s with
  | String c s' => if isspace c then lstrip s' else s
  | EmptyString => EmptyString
  end.

Fixpoint rstrip (s : string) : string :=
  match s with
  | String c s' =>
      match rstrip s' with
      | EmptyString => if isspace c then EmptyString else String c EmptyString
      | r => String c r
      end
  | EmptyString => EmptyString
  end.

Definition strip (s : string) : string := rstrip (lstrip s).

(** [s.startswith(p)]. *)
Fixpoint startswith (s p : string) : bool :=
  match p, s with
  | EmptyString, _ => true
  | String a p', String b s' => if Ascii.eqb a b then startswith s' p' else false
  | String _ _, EmptyString => false
  end.

(** [s[n:]]. *)
Fixpoint drop (n : nat) (s : string) : string :=
  match n, s with
  | S n', String _ s' => drop n' s'
  | _, _ => s
  end.

(** [s[:n]]. *)
Fixpoint take (n : nat) (s : string) : string :=
  match n, s with
  | S n', String c s' => String c (take n' s')
  | _, _ => EmptyString
  end.

(** [s.endswith(p)]. *)
Definition endswith (s p : string) : bool :=
  (String.length p <=? String.length s)
  && String.eqb (drop (String.length s - String.length p) s) p.

(** [s.replace(old, new)] for a non-empty [old]: occurrences are replaced
    from the left and do not overlap; [skip] counts the characters of the
    occurrence just replaced that are still to be passed over. *)
Fixpoint replace_from (old new : string) (skip : nat) (s : string) : string :=
  match s with
  | EmptyString => EmptyString
  | String c s' =>
      match skip with
      | S k => replace_from old new k s'
      | O =>
          if startswith s old
          then (new ++ replace_from old new (String.length old - 1) s')%string
          else String c (replace_from old new 0 s')
      end
  end.

Definition replace (s old new : string) : string :=
  match old with
  | EmptyString => s   (* not used by the crawler: every [old] is a literal placeholder *)
  | _ => replace_from old new 0 s
  end.

(** [c.lower()] on code points below 256. *)
Definition lower_char (c : ascii) : ascii :=
  let n := nat_of_ascii c in
  if ((65 <=? n) && (n <=? 90))
     || ((192 <=? n) && (n <=? 222) && negb (n =? 215))
  then ascii_of_nat (n + 32) else c.

Fixpoint lower (s : string) : string :=
  match s with
  | String c s' => String (lower_char c) (lower s')
  | EmptyString => EmptyString
  end.

(** [str(n)] for an [int]. *)
Definition str_of_int (n : Z) : string := pretty n.

(** [c in s] for a one-character [c]. *)
Fixpoint contains_char (c : ascii) (s : string) : bool :=
  match s with
  | String a s' => Ascii.eqb a c || contains_char c s'
  | EmptyString => false
  end.

End Py.

(* ===================================================================== *)
(** ** core/schema.py *)
(* ===================================================================== *)

Module Schema.

(** The value stored under a key of a normalized record: a string for the
    schema fields, a nested dict for the overflow bucket. *)
Inductive value : Type :=
| VStr (s : string)
| VDict (d : gmap string string).

#[export] Instance value_eq_dec : EqDecision value.
Proof. solve_decision. Defined.

Definition FIELDS : list string :=
  [ "original_id"; "access"; "access_label"; "access_minutes"; "address";
    "area"; "bonus"; "caractoristic"; "city"; "contract"; "dept"; "detail";
    "facility_name"; "facility_type"; "holiday"; "license"; "line"; "name";
    "occupation"; "position"; "prefecture"; "price"; "price_rule";
    "required_skill"; "staff_comment"; "staff_comment_title"; "station";
    "test_period"; "title_original"; "welfare_program"; "working_hours";
    "working_style" ].

(** [{f: "" for f in FIELDS}] *)
Definition empty_record : gmap string value :=
  list_to_map ((λ f, (f, VStr "")) <$> FIELDS).

(** One iteration of [for schema_key, source_key in mapping.items()]. *)
Definition apply_pair (raw : gmap string string)
    (schema_key source_key : string) (record : gmap string value)
  : gmap string value :=
  match record !! schema_key, raw !! source_key with
  | Some _, Some v => <[schema_key := VStr v]> record
  | _, _ => record
  end.

(** [set(mapping.values())] *)
Definition mapped_sources (mapping : gmap string string) : gset string :=
  list_to_set (snd <$> map_to_list mapping).

(** [{k: v for k, v in raw.items() if k not in mapped_sources}] *)
Definition extra_of (raw mapping : gmap string string) : gmap string string :=
  filter (λ kv, kv.1 ∉ mapped_sources mapping) raw.

Definition normalize (raw mapping : gmap string string) : gmap string value :=
  let record := map_fold (apply_pair raw) empty_record mapping in
  let extra := extra_of raw mapping in
  if decide (extra = ∅) then record
  else <["_extra" := VDict extra]> record.

End Schema.


(* ===================================================================== *)
(** ** The [re] module

    A compiled pattern is a syntax tree; matching is the backtracking search
    of Python's engine: alternatives are tried left to right, a greedy
    repetition tries one more iteration before it tries to stop, a lazy one
    the other way round, and the first success is the match. *)
(* ===================================================================== *)

Module Re.

Inductive regex : Type :=
| Eps                                   (* the empty pattern *)
| Chr (f : ascii → bool)                (* one character of a class *)
| Cat (r1 r2 : regex)                   (* r1 r2 *)
| Alt (r1 r2 : regex)                   (* r1|r2 *)
| Star (greedy : bool) (r : regex)      (* r* and r*? *)
| Group (n : nat) (r : regex)           (* the n-th capturing group (r) *)
| Eol.                                  (* $ *)

(** Captured groups, most recent binding first. *)
Definition caps : Type := list (nat * string).

Definition group (c : caps) (n : nat) : option string :=
  snd <$> List.find (λ p, Nat.eqb (fst p) n) c.

(** A successful match: the text left after it and the groups. *)
Definition outcome : Type := option (string * caps).

Definition orelse (a b : outcome) : outcome :=
  match a with Some _ => a | None => b end.

(** The iterations of a repetition.  [body] matches the repeated pattern
    once, [k] is what follows the repetition.  An iteration that consumes
    nothing is carried out, with its groups, and is the last one: the
    repetition is not entered again where its last iteration began.  So
    every iteration but the last consumes input, and [fuel], the length of
    the input, bounds their number. *)
Section repetition.
Variable body : string → caps → (string → caps → outcome) → outcome.
Variable greedy : bool.
Variable k : string → caps → outcome.

Fixpoint star_loop (fuel : nat) (s : string) (c : caps) : outcome :=
  let again :=
    body s c (λ s' c',
      match fuel with
      | S fuel' =>
          if String.length s' <? String.length s
          then star_loop fuel' s' c' else k s' c'
      | O => k s' c'
      end) in
  if greedy then orelse again (k s c) else orelse (k s c) again.
End repetition.

(** [m r s c k]: match [r] at the front of [s], then continue with [k] on
    what is left. *)
Fixpoint m (r : regex) (s : string) (c : caps)
    (k : string → caps → outcome) {struct r} : outcome :=
  match r with
  | Eps => k s c
  | Chr f =>
      match s with
      | String a s' => if f a then k s' c else None
      | EmptyString => None
      end
  | Cat r1 r2 => m r1 s c (λ s' c', m r2 s' c' k)
  | Alt r1 r2 => orelse (m r1 s c k) (m r2 s c k)
  | Star greedy r' => star_loop (m r') greedy k (String.length s) s c
  | Group n r' =>
      m r' s c (λ s' c',
        k s' ((n, Py.take (String.length s - String.length s') s) :: c'))
  | Eol =>
      match s with
      | EmptyString => k s c
      | String a EmptyString => if Ascii.eqb a "010" then k s c else None
      | _ => None
      end
  end.

(** A match anchored at the front of [s]; with [nonempty] an empty match
    is refused. *)
Definition match_at (r : regex) (nonempty : bool) (s : string) : outcome :=
  m r s [] (λ s' c,
    if nonempty && (String.length s' =? String.length s) then None
    else Some (s', c)).

(** [re.search(r, s)]: the leftmost match, as (start, text, groups). *)
Fixpoint search_from (r : regex) (start : nat) (s : string)
  : option (nat * string * caps) :=
  match match_at r false s with
  | Some (rest, c) =>
      Some (start, Py.take (String.length s - String.length rest) s, c)
  | None =>
      match s with
      | String _ s' => search_from r (S start) s'
      | EmptyString => None
      end
  end.

Definition search (r : regex) (s : string) : option (nat * string * caps) :=
  search_from r 0 s.

(** The pieces of a left-to-right scan for non-overlapping matches. *)
Inductive piece : Type :=
| Skipped (a : ascii)                 (* a character outside every match *)
| Matched (text : string) (c : caps).

(** [scan r skip s]: [skip] characters of [s] still belong to the match
    found last.  After an empty match the scan looks for a non-empty one
    at the same place before it moves on. *)
Fixpoint scan (r : regex) (skip : nat) (s : string) : list piece :=
  match skip, s with
  | S k, String _ s' => scan r k s'
  | S _, EmptyString => []
  | O, EmptyString =>
      match match_at r false s with
      | Some (_, c) => [Matched EmptyString c]
      | None => []
      end
  | O, String a s' =>
      let consume (rest : string) (c : caps) : list piece :=
        Matched (Py.take (String.length s - String.length rest) s) c
        :: scan r (String.length s - String.length rest - 1) s' in
      match match_at r false s with
      | Some (rest, c) =>
          if String.length rest <? String.length s then consume rest c
          else
            Matched EmptyString c ::
            match match_at r true s with
            | Some (rest', c') => consume rest' c'
            | None => Skipped a :: scan r 0 s'
            end
      | None => Skipped a :: scan r 0 s'
      end
  end.

Definition matches (r : regex) (s : string) : list (string * caps) :=
  omap (λ p, match p with Matched t c => Some (t, c) | Skipped _ => None end)
       (scan r 0 s).

(** [re.findall(r, s)] for a pattern with at most one group: the text of
    the group when the pattern has one, of the whole match otherwise. *)
Fixpoint has_group (r : regex) : bool :=
  match r with
  | Group _ _ => true
  | Cat r1 r2 | Alt r1 r2 => has_group r1 || has_group r2
  | Star _ r' => has_group r'
  | _ => false
  end.

Definition findall (r : regex) (s : string) : list string :=
  (λ tc, if has_group r then default EmptyString (group tc.2 1) else tc.1)
    <$> matches r s.

(** [re.findall(r, s)] for a pattern with two groups: a list of pairs. *)
Definition findall2 (r : regex) (s : string) : list (string * string) :=
  (λ tc, (default EmptyString (group tc.2 1),
          default EmptyString (group tc.2 2))) <$> matches r s.

(** [re.sub(r, repl, s)] for a replacement without group references. *)
Definition sub (r : regex) (repl : string) (s : string) : string :=
  fold_right
    (λ p acc, match p with
              | Skipped a => String a acc
              | Matched _ _ => repl ++ acc
              end)%string
    EmptyString (scan r 0 s).

(** *** Pattern syntax *)

Definition lit (a : ascii) : regex := Chr (Ascii.eqb a).
(** a literal under [re.IGNORECASE] *)
Definition ilit (a : ascii) : regex :=
  Chr (λ b, Ascii.eqb (Py.lower_char a) (Py.lower_char b)).
Definition any : regex := Chr (λ _, true).            (* . under re.DOTALL *)
Definition notc (a : ascii) : regex := Chr (λ b, negb (Ascii.eqb a b)).
Definition space : regex := Chr Py.isspace.            (* \s *)
Definition digit : regex :=                            (* \d *)
  Chr (λ b, (48 <=? nat_of_ascii b) && (nat_of_ascii b <=? 57)).
Definition plus (r : regex) : regex := Cat r (Star true r).   (* r+ *)
Definition opt (r : regex) : regex := Alt r Eps.               (* r? *)

Fixpoint str (s : string) : regex :=
  match s with
  | EmptyString => Eps
  | String a s' => Cat (lit a) (str s')
  end.

Fixpoint istr (s : string) : regex :=
  match s with
  | EmptyString => Eps
  | String a s' => Cat (ilit a) (istr s')
  end.

Fixpoint seq (rs : list regex) : regex :=
  match rs with
  | [] => Eps
  | r :: rs' => Cat r (seq rs')
  end.

End Re.

(* ===================================================================== *)
(** ** parsers/dt_dd.py *)
(* ===================================================================== *)

Module DtDd.
  Import Re.

Definition nl : ascii := "010".

(** [<dt[^>]*>(.*?)</dt>\s*<dd[^>]*>(.*?)</dd>] with [re.DOTALL] *)
Definition dt_dd_pattern : regex :=
  seq [ str "<dt"; Star true (notc ">"); lit ">";
        Group 1 (Star false any); str "</dt>";
        Star true space;
        str "<dd"; Star true (notc ">"); lit ">";
        Group 2 (Star false any); str "</dd>" ].

(** [<[^>]+>] *)
Definition tag_pattern : regex := seq [ lit "<"; plus (notc ">"); lit ">" ].

(** [<br\s*/?>] *)
Definition br_pattern : regex :=
  seq [ str "<br"; Star true space; opt (lit "/"); lit ">" ].

(** [\n{2,}] *)
Definition blank_lines_pattern : regex :=
  seq [ lit nl; lit nl; Star true (lit nl) ].

(** [<title[^>]*>(.*?)</title>] with [re.DOTALL] *)
Definition title_pattern : regex :=
  seq [ str "<title"; Star true (notc ">"); lit ">";
        Group 1 (Star false any); str "</title>" ].

(** The loop of [extract_ids]: [seen] and [unique] are its two
    accumulators. *)
Fixpoint unique_loop (ids : list string) (seen : gset string)
    (unique : list string) : list string :=
  match ids with
  | [] => unique
  | i :: ids' =>
      if decide (i ∉ seen)
      then unique_loop ids' ({[ i ]} ∪ seen) (unique ++ [i])
      else unique_loop ids' seen unique
  end.

Definition extract_ids (html : string) (pattern : regex) : list string :=
  let ids := findall pattern html in
  unique_loop ids ∅ [].

(** The three rewrites of a value and the one of a key in [parse_dt_dd]. *)
Definition clean_key (key : string) : string :=
  Py.strip (sub tag_pattern "" key).

Definition clean_val (val : string) : string :=
  let val := sub br_pattern (String nl "") val in
  let val := sub tag_pattern "" val in
  Py.strip (sub blank_lines_pattern (String nl "") val).

(** The body of [for key, val in pairs]. *)
Definition dt_dd_step (data : gmap string string) (kv : string * string)
  : gmap string string :=
  let key := clean_key kv.1 in
  let val := clean_val kv.2 in
  if negb (String.eqb key "") && bool_decide (data !! key = None)
  then <[key := val]> data
  else data.

Definition parse_dt_dd (html : string) : gmap string string :=
  let pairs := findall2 dt_dd_pattern html in
  foldl dt_dd_step ∅ pairs.

(** What one pattern of [parse_meta] contributes: nothing when it does not
    match, the cleaned first group of the leftmost match, or the exception
    of [m.group(1)] / [re.sub] when the match has no first group. *)
Inductive meta_hit : Type :=
| NoMatch
| Hit (val : string)
| Raises.

#[export] Instance meta_hit_eq_dec : EqDecision meta_hit.
Proof. solve_decision. Defined.

Definition meta_of (html : string) (pat : regex) : meta_hit :=
  match search pat html with
  | None => NoMatch
  | Some (_, _, c) =>
      match group c 1 with
      | Some g => Hit (Py.strip (sub tag_pattern "" g))
      | None => Raises
      end
  end.

Definition hit_value (h : meta_hit) : option string :=
  match h with Hit v => Some v | _ => None end.

Definition defaults : gmap string regex := {[ "title" := title_pattern ]}.

(** [{**defaults, **(meta_patterns or {})}] *)
Definition patterns_of (meta_patterns : option (gmap string regex))
  : gmap string regex :=
  default ∅ meta_patterns ∪ defaults.

(** [None] stands for a raised exception. *)
Definition parse_meta (html : string)
    (meta_patterns : option (gmap string regex))
  : option (gmap string string) :=
  let hits := meta_of html <$> patterns_of meta_patterns in
  if bool_decide (map_Forall (λ _ h, h ≠ Raises) hits)
  then Some (omap hit_value hits)
  else None.

End DtDd.

(* ===================================================================== *)
(** ** engines/http_engine.py *)
(* ===================================================================== *)

Module HttpEngine.
  Import Re.

(** A value under [delay]: the number [num/den] of seconds, an int or a
    finite float, or anything else (a string, null, nan). *)
Inductive delay_value : Type :=
| Seconds (num : Z) (den : positive)
| NotSeconds.

(** The site configuration, a dict loaded from YAML: a field is [None] when
    the key is absent. *)
Record config : Type := Config {
  list_url : option string;
  id_pattern : option regex;
  base_url : option string;
  start_page : option Z;
  end_page : option Z;
  delay : option delay_value;
  detail_url : option string;
  id_field : option string;
  meta_patterns : option (gmap string regex);
  mapping : option (gmap string string);
}.

(** What the crawl does to the outside world, in order. *)
Inductive event : Type :=
| EvFetch (page : Z) (url : string)
| EvSleep.

#[export] Instance event_eq_dec : EqDecision event.
Proof. solve_decision. Defined.

(** The loop state of [crawl_list_pages]. *)
Record crawl_state : Type := CrawlState {
  all_ids : list string;
  seen : gset string;
  events : list event;
}.

Section with_network.
  (** [fetch_html]: the page behind a URL, [None] when the request raises. *)
  Variable fetch_html : string → option string.
  (** [time.sleep]: [true] when the call returns, [false] when it raises,
      as it does for a negative number and for a value that is no number. *)
  Variable time_sleep : delay_value → bool.

Definition page_url (base_url list_url : string) (page : Z) : string :=
  Py.replace (base_url ++ list_url)%string "{page}" (Py.str_of_int page).

(** The [try] block of one iteration: the new state and whether [break]
    was reached. *)
Definition try_page (pattern : regex) (start_page page : Z) (url : string)
    (st : crawl_state) : crawl_state * bool :=
  let st := CrawlState (all_ids st) (seen st)
                       (events st ++ [EvFetch page url]) in
  match fetch_html url with
  | None => (st, false)                       (* except Exception *)
  | Some html =>
      let ids := DtDd.extract_ids html pattern in
      let new_ids := filter (λ i, i ∉ seen st) ids in
      let st := CrawlState (all_ids st ++ new_ids)
                           (list_to_set new_ids ∪ seen st)
                           (events st) in
      (st, bool_decide (new_ids = []) && bool_decide (start_page < page)%Z)
  end.

(** [for page in pages]: the body, then the politeness delay, which is
    outside the [try]: [None] is the exception of [time.sleep]. *)
Fixpoint page_loop (pattern : regex) (base_url list_url : string)
    (start_page end_page : Z) (delay : delay_value) (pages : list Z)
    (st : crawl_state) : option crawl_state :=
  match pages with
  | [] => Some st
  | page :: pages' =>
      let url := page_url base_url list_url page in
      let '(st, stop) := try_page pattern start_page page url st in
      if stop then Some st
      else if bool_decide (page < end_page)%Z
      then
        if time_sleep delay
        then page_loop pattern base_url list_url start_page end_page delay
               pages'
               (CrawlState (all_ids st) (seen st) (events st ++ [EvSleep]))
        else None
      else page_loop pattern base_url list_url start_page end_page delay
             pages' st
  end.

(** [range(a, b)] *)
Definition range (a b : Z) : list Z := seqZ a (b - a).

(** [end_page] after the [if max_pages:] adjustment. *)
Definition last_page (start_page end_page : Z) (max_pages : option Z) : Z :=
  match max_pages with
  | Some n => if bool_decide (n = 0)%Z then end_page
              else Z.min end_page (start_page + n - 1)
  | None => end_page
  end.

(** The whole run; [None] is an exception: the [KeyError] of a missing
    required key, or what [time.sleep] raises. *)
Definition run_list_pages (cfg : config) (max_pages : option Z)
  : option crawl_state :=
  match list_url cfg, id_pattern cfg with
  | Some lurl, Some pattern =>
      let burl := default "" (base_url cfg) in
      let start := default 1%Z (start_page cfg) in
      let stop := last_page start (default 1%Z (end_page cfg)) max_pages in
      page_loop pattern burl lurl start stop
        (default (Seconds 1 1) (delay cfg))
        (range start (stop + 1)) (CrawlState [] ∅ [])
  | _, _ => None
  end.

(** The pages fetched by a run, in order. *)
Definition fetched (evs : list event) : list Z :=
  omap (λ e, match e with EvFetch p _ => Some p | EvSleep => None end) evs.

(** The identifiers a list page yields: those of its markup, none when
    the fetch fails. *)
Definition ids_of_page (pattern : regex) (base_url list_url : string)
    (page : Z) : list string :=
  match fetch_html (page_url base_url list_url page) with
  | Some html => DtDd.extract_ids html pattern
  | None => []
  end.

(** The identifiers of several pages, page after page. *)
Definition ids_of_pages (pattern : regex) (base_url list_url : string)
    (pages : list Z) : list string :=
  mjoin (ids_of_page pattern base_url list_url <$> pages).

(** The loop invariant: after the pages [done], [all_ids] holds their
    identifiers, each once and in first-seen order, and [seen] is the
    set of them. *)
Definition crawl_inv (pattern : regex) (base_url list_url : string)
    (st : crawl_state) (done : list Z) : Prop :=
  all_ids st
    = DtDd.unique_loop (ids_of_pages pattern base_url list_url done) ∅ []
  ∧ seen st = list_to_set (all_ids st)
  ∧ fetched (events st) = done.

Definition crawl_list_pages (cfg : config) (max_pages : option Z)
  : option (list string) :=
  all_ids <$> run_list_pages cfg max_pages.

(** [crawl_detail]; [None] is an exception (missing [detail_url], a failed
    fetch, a meta pattern without first group). *)
Definition crawl_detail (cfg : config) (item_id : string)
  : option (gmap string string) :=
  match detail_url cfg with
  | None => None
  | Some durl =>
      let url := (default "" (base_url cfg)
                  ++ Py.replace durl "{id}" item_id)%string in
      match fetch_html url with
      | None => None
      | Some html =>
          match DtDd.parse_meta html
                  (Some (default ∅ (meta_patterns cfg))) with
          | None => None
          | Some meta =>
              let data := DtDd.parse_dt_dd html in
              let data := meta ∪ data in           (* data.update(meta) *)
              Some (<[default "original_id" (id_field cfg) := item_id]> data)
          end
      end
  end.

Definition crawl_and_normalize (cfg : config) (item_id : string)
  : option (gmap string Schema.value) :=
  raw ← crawl_detail cfg item_id;
  Some (Schema.normalize raw (default ∅ (mapping cfg))).

End with_network.

End HttpEngine.

(* ===================================================================== *)
(** ** crawler.py: [TeddyCrawler._handle_scrolling] *)
(* ===================================================================== *)

Module Crawler.

Definition max_attempts : nat := 50.

(** What [_handle_scrolling] did: the final value of [scroll_attempts], the
    number of scrolls sent to the page, and whether the loop ended by
    itself ([false]: a browser call raised and the [except] took over). *)
Record scroll_result : Type := ScrollResult {
  scroll_attempts : nat;
  scrolls : nat;
  completed : bool;
}.

(** The [while scroll_attempts < max_attempts] loop.  [heights n] is what
    the [n]-th evaluation of [document.body.scrollHeight] returns, [None]
    when it raises; [budget] is [max_attempts - scroll_attempts]. *)
Fixpoint scroll_loop (heights : nat → option Z) (budget : nat)
    (previous_height : Z) (attempts : nat) : scroll_result :=
  match budget with
  | O => ScrollResult attempts attempts true
  | S budget' =>
      match heights attempts with
      | None => ScrollResult attempts (S attempts) false
      | Some current_height =>
          if bool_decide (current_height = previous_height)
          then ScrollResult attempts (S attempts) true
          else scroll_loop heights budget' current_height (S attempts)
      end
  end.

(** [for i in range(scroll_count)]: one viewport per step. *)
Definition fixed_count (scroll_count : Z) : scroll_result :=
  ScrollResult 0 (Z.to_nat scroll_count) true.

(** [scroll_count] is [config.get('scroll_count')]. *)
Definition _handle_scrolling (scroll_count : option Z)
    (heights : nat → option Z) : scroll_result :=
  match scroll_count with
  | Some n =>
      if bool_decide (n = 0)%Z then scroll_loop heights max_attempts 0 0
      else fixed_count n
  | None => scroll_loop heights max_attempts 0 0
  end.

(** What [previous_height] holds when the [n]-th sample is compared: the
    sample before it, and 0 at the start. *)
Definition previous_sample (heights : nat → option Z) (n : nat) : option Z :=
  match n with
  | O => Some 0%Z
  | S n' => heights n'
  end.

(** The heights of a page that answers with the samples of [l], then keeps
    its last height. *)
Definition heights_of (l : list Z) (n : nat) : option Z :=
  Some (nth n l (List.last l 0%Z)).

End Crawler.

(* ===================================================================== *)
(** ** [urllib.parse]

    [urlparse] on URLs of code points below 256.  The validation of a host
    in brackets, which depends on the release of the library, is a
    parameter. *)
(* ===================================================================== *)

Module Urllib.

Record parse_result : Type := ParseResult {
  scheme : string;
  netloc : string;
  path : string;
  params : string;
  query : string;
  fragment : string;
}.

(** [s.find(c)] *)
Fixpoint find_char (c : ascii) (s : string) : option nat :=
  match s with
  | EmptyString => None
  | String a s' => if Ascii.eqb a c then Some 0 else S <$> find_char c s'
  end.

(** [s.rfind(c)] *)
Fixpoint rfind_char (c : ascii) (s : string) : option nat :=
  match s with
  | EmptyString => None
  | String a s' =>
      match rfind_char c s' with
      | Some i => Some (S i)
      | None => if Ascii.eqb a c then Some 0 else None
      end
  end.

(** [head, tail = s.split(c, 1)] when [c in s] *)
Definition split_once (c : ascii) (s : string) : option (string * string) :=
  (λ i, (Py.take i s, Py.drop (S i) s)) <$> find_char c s.

Fixpoint remove_chars (f : ascii → bool) (s : string) : string :=
  match s with
  | EmptyString => EmptyString
  | String a s' => if f a then remove_chars f s' else String a (remove_chars f s')
  end.

Fixpoint lstrip_chars (f : ascii → bool) (s : string) : string :=
  match s with
  | String a s' => if f a then lstrip_chars f s' else s
  | EmptyString => EmptyString
  end.

Fixpoint forallb_string (f : ascii → bool) (s : string) : bool :=
  match s with
  | EmptyString => true
  | String a s' => f a && forallb_string f s'
  end.

Definition is_ascii_alpha (c : ascii) : bool :=
  let n := nat_of_ascii c in
  ((65 <=? n) && (n <=? 90)) || ((97 <=? n) && (n <=? 122)).

Definition is_scheme_char (c : ascii) : bool :=
  let n := nat_of_ascii c in
  is_ascii_alpha c || ((48 <=? n) && (n <=? 57))
  || (n =? 43) || (n =? 45) || (n =? 46).

Definition uses_params : list string :=
  [ ""; "ftp"; "hdl"; "prospero"; "http"; "imap"; "https"; "shttp"; "rtsp";
    "rtspu"; "sip"; "sips"; "mms"; "sftp"; "tel" ].

(** The first of [/], [?] and [#] ends the network location. *)
Fixpoint splitnetloc (s : string) : string * string :=
  match s with
  | EmptyString => (EmptyString, EmptyString)
  | String a s' =>
      if Ascii.eqb a "/" || Ascii.eqb a "?" || Ascii.eqb a "#"
      then (EmptyString, s)
      else let '(n, rest) := splitnetloc s' in (String a n, rest)
  end.

Definition splitparams (url : string) : string * string :=
  let cut (i : nat) := (Py.take i url, Py.drop (S i) url) in
  match rfind_char "/" url with
  | Some j =>
      match find_char ";" (Py.drop j url) with
      | Some i => cut (j + i)
      | None => (url, EmptyString)
      end
  | None =>
      match find_char ";" url with
      | Some i => cut i
      | None => (url, EmptyString)
      end
  end.

(** [netloc.partition('[')[2].partition(']')[0]] *)
Definition bracketed_host (netloc : string) : string :=
  let tail :=
    match find_char "[" netloc with
    | Some i => Py.drop (S i) netloc
    | None => EmptyString
    end in
  match find_char "]" tail with
  | Some j => Py.take j tail
  | None => tail
  end.

Section with_host_check.
(** [_check_bracketed_host]: whether the text between the brackets of a
    network location is accepted as an IPv6 or IPvFuture literal; the
    releases of the library without this check accept every text. *)
Variable check_bracketed_host : string → bool.

(** [urlparse(url)]; [None] is its [ValueError]. *)
Definition urlparse (url : string) : option parse_result :=
  let url := lstrip_chars (λ c, nat_of_ascii c <=? 32) url in
  let url := remove_chars
               (λ c, Ascii.eqb c "009" || Ascii.eqb c "013" || Ascii.eqb c "010")
               url in
  let '(scheme, url) :=
    match find_char ":" url with
    | Some (S i) =>
        if forallb_string is_ascii_alpha (Py.take 1 url)
           && forallb_string is_scheme_char (Py.take (S i) url)
        then (Py.lower (Py.take (S i) url), Py.drop (S (S i)) url)
        else (EmptyString, url)
    | _ => (EmptyString, url)
    end in
  let '(netloc, url) :=
    if Py.startswith url "//" then splitnetloc (Py.drop 2 url)
    else (EmptyString, url) in
  if xorb (Py.contains_char "[" netloc) (Py.contains_char "]" netloc)
  then None
  else if Py.contains_char "[" netloc && Py.contains_char "]" netloc
          && negb (check_bracketed_host (bracketed_host netloc))
  then None
  else
    let '(url, fragment) := default (url, EmptyString) (split_once "#" url) in
    let '(url, query) := default (url, EmptyString) (split_once "?" url) in
    let '(url, params) :=
      if bool_decide (scheme ∈ uses_params) && Py.contains_char ";" url
      then splitparams url else (url, EmptyString) in
    Some (ParseResult scheme netloc url params query fragment).

End with_host_check.

End Urllib.

(* ===================================================================== *)
(** ** extractors/links.py

    The rendered page is what the browser answers to the queries of the
    extractor; the calls themselves are taken to succeed. *)
(* ===================================================================== *)

Module LinkExtractor.
  Import Re.

(** An element as the landmark selectors see it. *)
Record element : Type := Element {
  tag : string;                 (* lower-case tag name *)
  classes : list string;
}.

(** An [a[href]] element handle. *)
Record anchor : Type := Anchor {
  href : option string;                          (* get_attribute('href') *)
  inner_text : string;
  title_attr : option string;
  self : element;
  ancestors : list element;                      (* parent first *)
  img : option (option string * option string);  (* first img inside: src, alt *)
}.

Record page : Type := Page {
  url : string;
  anchors : list anchor;        (* query_selector_all('a[href]') *)
}.

Record link_data : Type := LinkData {
  link_url : string;
  text : string;
  title : string;
  original_href : string;
  image : option (string * string);
}.

Record link_bundle : Type := LinkBundle {
  internal_links : list link_data;
  external_links : list link_data;
  navigation_links : list link_data;
  content_links : list link_data;
  images_with_links : list link_data;
  total_count : nat;
}.

(** [javascript:], [mailto:], [tel:], [#$], searched with [re.IGNORECASE] *)
Definition exclude_patterns : list regex :=
  [ istr "javascript:"; istr "mailto:"; istr "tel:"; Cat (lit "#") Eol ].

Definition _should_exclude (href : string) : bool :=
  if String.eqb href "" || String.eqb (Py.strip href) "" then true
  else existsb (λ p, bool_decide (is_Some (search p href))) exclude_patterns.

Section with_urllib.
(** [urllib.parse]'s check of a host in brackets. *)
Variable check_bracketed_host : string → bool.

Definition _is_internal_link (url base_domain : string) : bool :=
  match Urllib.urlparse check_bracketed_host url with
  | Some parsed =>
      String.eqb (Urllib.netloc parsed) "" || Py.startswith url base_domain
  | None => false                                   (* except: *)
  end.

Definition nav_selectors : list string :=
  [ "nav"; ".nav"; ".navigation"; ".menu"; "header"; "footer"; ".sidebar" ].

(** The selectors in use are a tag name or a dot and a class name. *)
Definition selector_matches (selector : string) (e : element) : bool :=
  match selector with
  | String "." cls => bool_decide (cls ∈ classes e)
  | _ => String.eqb selector (tag e)
  end.

(** [el.closest(selector)]: the element itself, then its ancestors. *)
Definition closest (selector : string) (a : anchor) : option element :=
  List.find (selector_matches selector) (self a :: ancestors a).

Definition _is_navigation_link (a : anchor) : bool :=
  existsb (λ selector, bool_decide (is_Some (closest selector a)))
          nav_selectors.

Section with_urljoin.
  (** [urllib.parse.urljoin(base, url)] *)
  Variable urljoin : string → string → string.

Definition add_if {A} (b : bool) (x : A) (l : list A) : list A :=
  if b then l ++ [x] else l.

(** The body of [for link in links]. *)
Definition link_step (current_url base_domain : string)
    (result : link_bundle) (a : anchor) : link_bundle :=
  match href a with
  | None => result
  | Some h =>
      if _should_exclude h then result
      else
        let absolute_url := urljoin current_url h in
        let link :=
          LinkData absolute_url (Py.strip (inner_text a))
            (default "" (title_attr a)) h
            ((λ sa, (match sa.1 with
                     | Some s => if String.eqb s "" then "" else urljoin current_url s
                     | None => ""
                     end, default "" sa.2)) <$> img a) in
        let internal := _is_internal_link absolute_url base_domain in
        let navigation := _is_navigation_link a in
        LinkBundle
          (add_if internal link (internal_links result))
          (add_if (negb internal) link (external_links result))
          (add_if navigation link (navigation_links result))
          (add_if (negb navigation) link (content_links result))
          (add_if (bool_decide (is_Some (img a))) link (images_with_links result))
          (total_count result)
  end.

(** [None] is the empty dict returned by the outer [except]. *)
Definition extract_all_links (p : page) : option link_bundle :=
  parsed_current ← Urllib.urlparse check_bracketed_host (url p);
  let base_domain :=
    (Urllib.scheme parsed_current ++ "://" ++ Urllib.netloc parsed_current)%string in
  let result :=
    foldl (link_step (url p) base_domain) (LinkBundle [] [] [] [] [] 0)
          (anchors p) in
  Some (LinkBundle (internal_links result) (external_links result)
          (navigation_links result) (content_links result)
          (images_with_links result)
          (List.length (internal_links result)
           + List.length (external_links result))).

End with_urljoin.

End with_urllib.

End LinkExtractor.

(* ===================================================================== *)
(** ** extractors/images.py *)
(* ===================================================================== *)

Module ImageExtractor.
  Import Re.

Definition image_extensions : list string :=
  [ ".jpg"; ".jpeg"; ".png"; ".gif"; ".webp"; ".svg"; ".bmp" ].

(** [data:image], [\.ico$], [pixel\.gif], [1x1\.], searched with
    [re.IGNORECASE] *)
Definition exclude_patterns : list regex :=
  [ istr "data:image"; Cat (istr ".ico") Eol; istr "pixel.gif"; istr "1x1." ].

Definition _should_exclude (src : string) : bool :=
  if String.eqb src "" || String.eqb (Py.strip src) "" then true
  else existsb (λ p, bool_decide (is_Some (search p src))) exclude_patterns.

(** An [img] element handle: its attributes. *)
Record img_element : Type := ImgElement {
  src : option string;
  alt : option string;
  title_attr : option string;
  width : option string;
  height : option string;
  srcset_attr : option string;
}.

(** An entry of the page script's answer for background images. *)
Record bg_found : Type := BgFound {
  bg_raw_url : string;
  bg_tag : string;
  bg_class : string;
  bg_id : string;
}.

Record page : Type := Page {
  url : string;
  img_elements : list img_element;             (* query_selector_all('img') *)
  bg_images : option (list bg_found);          (* [None]: the script raised *)
}.

Inductive image_kind : Type := KImg | KBackground.

(** An entry of the bundle; the keys an entry of its kind does not have
    are [None]. *)
Record image_data : Type := ImageData {
  image_url : string;
  kind : image_kind;
  image_alt : option string;
  image_title : option string;
  original_src : option string;
  attributes : option (option string * option string);
  srcset : option string;
  element : option (string * string * string);
}.

Record image_bundle : Type := ImageBundle {
  images : list image_data;
  background_images : list image_data;
  total_count : nat;
  by_type : gmap string nat;
}.

(** A Python attribute value used as a condition. *)
Definition truthy (a : option string) : option string :=
  match a with
  | Some s => if String.eqb s "" then None else Some s
  | None => None
  end.

(** [categories[k] = categories.get(k, 0) + 1] *)
Definition bump (k : string) (categories : gmap string nat) : gmap string nat :=
  <[k := default 0 (categories !! k) + 1]> categories.

Section with_urllib.
(** [urllib.parse]'s check of a host in brackets. *)
Variable check_bracketed_host : string → bool.

(** The bucket of one image: the first extension its lower-cased path ends
    with, without the dot, or [unknown]. *)
Definition bucket_of (img : image_data) : string :=
  match Urllib.urlparse check_bracketed_host (image_url img) with
  | Some parsed =>
      let path := Py.lower (Urllib.path parsed) in
      match List.find (Py.endswith path) image_extensions with
      | Some ext => Py.replace ext "." ""
      | None => "unknown"
      end
  | None => "unknown"                               (* except Exception *)
  end.

Definition _categorize_images (images : list image_data) : gmap string nat :=
  foldl (λ categories img, bump (bucket_of img) categories) ∅ images.

(** The number of images a histogram counts. *)
Definition histogram_total (categories : gmap string nat) : nat :=
  map_fold (λ _ n acc, n + acc) 0 categories.

Section with_urljoin.
  Variable urljoin : string → string → string.

Definition _extract_img_data (e : img_element) (current_url : string)
  : option image_data :=
  match truthy (src e) with
  | None => None
  | Some s =>
      if _should_exclude s then None
      else
        Some (ImageData (urljoin current_url s) KImg
                (Some (default "" (truthy (alt e))))
                (Some (default "" (truthy (title_attr e))))
                (Some s)
                (match truthy (width e), truthy (height e) with
                 | None, None => None
                 | w, h => Some (w, h)
                 end)
                (truthy (srcset_attr e))
                None)
  end.

Definition _extract_background_images (p : page) (current_url : string)
  : list image_data :=
  match bg_images p with
  | None => []
  | Some found =>
      omap (λ b,
              if _should_exclude (bg_raw_url b) then None
              else Some (ImageData (urljoin current_url (bg_raw_url b))
                           KBackground None None None None None
                           (Some (bg_tag b, bg_class b, bg_id b))))
           found
  end.

Definition extract_all_images (p : page) : image_bundle :=
  let current_url := url p in
  let images := omap (λ e, _extract_img_data e current_url) (img_elements p) in
  let background_images := _extract_background_images p current_url in
  ImageBundle images background_images
    (List.length images + List.length background_images)
    (_categorize_images images).

End with_urljoin.

End with_urllib.

End ImageExtractor.

(* ===================================================================== *)
(** ** A small site, for the examples *)
(* ===================================================================== *)

Module Examples.

(** [item-(\d+)] *)
Definition item_pattern : Re.regex :=
  Re.seq [ Re.str "item-"; Re.Group 1 (Re.plus Re.digit) ].

(** Three list pages; every other request fails. *)
Definition site (url : string) : option string :=
  if String.eqb url "http://site.test/list?p=1" then Some "item-1, item-2, item-1"
  else if String.eqb url "http://site.test/list?p=2" then Some "item-2"
  else if String.eqb url "http://site.test/list?p=3" then Some "item-3"
  else None.

(** The same site when the request for its second page fails. *)
Definition flaky_site (url : string) : option string :=
  if String.eqb url "http://site.test/list?p=2" then None else site url.

(** Pages 1 to [last] of the site. *)
Definition site_config (last : Z) : HttpEngine.config :=
  HttpEngine.Config (Some "/list?p={page}") (Some item_pattern)
    (Some "http://site.test") (Some 1%Z) (Some last) None None None None None.

(** The same with [delay: -1]. *)
Definition hasty_config (last : Z) : HttpEngine.config :=
  HttpEngine.Config (Some "/list?p={page}") (Some item_pattern)
    (Some "http://site.test") (Some 1%Z) (Some last)
    (Some (HttpEngine.Seconds (-1) 1)) None None None None.

(** [time.sleep] on the delays of the examples: it returns for a number
    that is not negative. *)
Definition time_sleep (d : HttpEngine.delay_value) : bool :=
  match d with
  | HttpEngine.Seconds num _ => (0 <=? num)%Z
  | HttpEngine.NotSeconds => false
  end.

(** A release of [urllib.parse] that accepts every host in brackets. *)
Definition check_bracketed_host (host : string) : bool := true.

End Examples.


(* ===================================================================== *)
(** ** engines/http_engine.py: the detail phase of [run] *)
(* ===================================================================== *)

Module HttpEngineRun.

(** [ids[:max_items]] under [if max_items:]; a negative bound drops items
    from the end, as a Python slice does. *)
Definition limit_items (ids : list string) (max_items : option Z) : list string :=
  match max_items with
  | None => ids
  | Some n =>
      if bool_decide (n = 0)%Z then ids
      else if bool_decide (0 < n)%Z then take (Z.to_nat n) ids
      else take (List.length ids - Z.to_nat (- n)) ids
  end.

(** [record["_crawled_at"] = ...; record["_source"] = site_name] *)
Definition stamp (crawled_at site_name : string)
    (record : gmap string Schema.value) : gmap string Schema.value :=
  <["_source" := Schema.VStr site_name]>
    (<["_crawled_at" := Schema.VStr crawled_at]> record).

(** [config["delay"] = delay] *)
Definition with_delay (cfg : HttpEngine.config) (d : HttpEngine.delay_value)
  : HttpEngine.config :=
  HttpEngine.Config (HttpEngine.list_url cfg) (HttpEngine.id_pattern cfg)
    (HttpEngine.base_url cfg) (HttpEngine.start_page cfg)
    (HttpEngine.end_page cfg) (Some d) (HttpEngine.detail_url cfg)
    (HttpEngine.id_field cfg) (HttpEngine.meta_patterns cfg)
    (HttpEngine.mapping cfg).

Section with_network.
Variable fetch_html : string → option string.
Variable time_sleep : HttpEngine.delay_value → bool.
(** [datetime.utcnow().isoformat()]: the answer of the clock to its [n]-th
    reading. *)
Variable utcnow : nat → string.

(** The [try] block of phase 2: an item whose crawl raises is reported and
    left out. *)
Definition try_item (cfg : HttpEngine.config) (site_name item_id : string)
    (results : list (gmap string Schema.value))
  : list (gmap string Schema.value) :=
  match HttpEngine.crawl_and_normalize fetch_html cfg item_id with
  | Some record =>
      results ++ [stamp (utcnow (List.length results)) site_name record]
  | None => results
  end.

(** Phase 2, [for i, item_id in enumerate(ids, 1)]: the [try] block, then
    the delay, which is outside the [try]; [total] is [len(ids)], and
    [None] is the exception of [time.sleep]. *)
Fixpoint detail_loop (cfg : HttpEngine.config) (site_name : string)
    (total i : nat) (ids : list string)
    (results : list (gmap string Schema.value))
  : option (list (gmap string Schema.value)) :=
  match ids with
  | [] => Some results
  | item_id :: ids' =>
      let results := try_item cfg site_name item_id results in
      if bool_decide (i < total)
      then
        if time_sleep (default (HttpEngine.Seconds 1 1) (HttpEngine.delay cfg))
        then detail_loop cfg site_name total (S i) ids' results
        else None
      else detail_loop cfg site_name total (S i) ids' results
  end.

(** [run] from the loaded configuration to the end of phase 2: the records
    that phase 3 writes.  [site_name] is [config.get("name", "unknown")],
    [delay] the argument of that name; [None] is an exception of phase 1 or
    of the delay of phase 2. *)
Definition run (cfg : HttpEngine.config) (site_name : string)
    (max_pages max_items : option Z) (delay : option HttpEngine.delay_value)
  : option (list (gmap string Schema.value)) :=
  let cfg := from_option (with_delay cfg) cfg delay in
  ids ← HttpEngine.crawl_list_pages fetch_html time_sleep cfg max_pages;
  let ids := limit_items ids max_items in
  detail_loop cfg site_name (List.length ids) 1 ids [].

End with_network.

End HttpEngineRun.

(* ===================================================================== *)
(** ** extractors/text.py *)
(* ===================================================================== *)

Module TextExtractor.

(** [\s+] *)
Definition spaces_pattern : Re.regex := Re.plus Re.space.

Definition _clean_text (text : string) : string :=
  if String.eqb text "" then ""
  else Py.strip (Re.sub spaces_pattern " " text).

(** [_extract_paragraphs]: [texts] are the inner texts of the [p] elements,
    in document order. *)
Definition _extract_paragraphs (texts : list string) : list string :=
  Py.strip
    <$> List.filter
          (λ text, negb (String.eqb text "")
                   && negb (String.eqb (Py.strip text) "")
                   && (20 <? String.length (Py.strip text)))
          texts.

(** What the content candidates of a page answer: the inner text of the
    first element a selector matches, when there is one, and the text of the
    body. *)
Record content_page : Type := ContentPage {
  query_selector : string → option string;
  body_text : string;
}.

Definition content_selectors : list string :=
  [ "main"; "article"; ".content"; ".post"; "#content" ].

(** The loop of [_extract_main_content] over the candidate selectors. *)
Fixpoint first_content (p : content_page) (selectors : list string)
  : option string :=
  match selectors with
  | [] => None
  | selector :: rest =>
      match query_selector p selector with
      | Some text =>
          if negb (String.eqb text "")
             && (100 <? String.length (Py.strip text))
          then Some (_clean_text text)
          else first_content p rest
      | None => first_content p rest
      end
  end.

Definition _extract_main_content (p : content_page) : option string :=
  match first_content p content_selectors with
  | Some content => Some content
  | None =>
      if String.eqb (body_text p) "" then None
      else Some (_clean_text (body_text p))
  end.

End TextExtractor.

(* ===================================================================== *)
(** ** storage/json_store.py: file names *)
(* ===================================================================== *)

Module JSONStore.

Definition _sanitize_url_for_filename (url : string) : string :=
  if String.eqb url "" then "unknown"
  else
    let clean := Py.replace (Py.replace url "http://" "") "https://" "" in
    let clean := Py.replace clean "/" "_" in
    let clean := Py.replace clean "?" "_" in
    let clean := Py.replace clean "&" "_" in
    let clean := Py.replace clean "=" "_" in
    let clean := Py.replace clean "#" "_" in
    let clean := Py.replace clean ":" "_" in
    if 50 <? String.length clean then Py.take 50 clean else clean.

(** [if not filename.endswith(suffix): filename += suffix] *)
Definition with_suffix (filename suffix : string) : string :=
  if Py.endswith filename suffix then filename else (filename ++ suffix)%string.

(** The name under which [save_single_result] writes.  [timestamp] is the
    formatted clock reading, [data_url] is [data.get('url')]. *)
Definition single_result_filename (filename : option string)
    (timestamp : string) (data_url : option string) : string :=
  let generated :=
    ("crawl_" ++ timestamp ++ "_"
     ++ _sanitize_url_for_filename (default "unknown" data_url) ++ ".json")%string in
  let filename :=
    match filename with
    | Some f => if String.eqb f "" then generated else f
    | None => generated
    end in
  with_suffix filename ".json".

(** The name under which [save_screenshot] writes. *)
Definition screenshot_filename (timestamp url suffix : string) : string :=
  if String.eqb suffix ""
  then ("screenshot_" ++ timestamp ++ "_"
        ++ _sanitize_url_for_filename url ++ ".png")%string
  else ("screenshot_" ++ timestamp ++ "_"
        ++ _sanitize_url_for_filename url ++ "_" ++ suffix ++ ".png")%string.

End JSONStore.

(* ===================================================================== *)
(** ** Reference functions

    Plain functions that say what a rewrite of the parsers and extractors
    is meant to do; the code's regular expressions are compared with them. *)
(* ===================================================================== *)

Module Reference.

(** Collapsing the runs of newlines of a text: of every run only the first
    newline is kept.  [after_newline] tells that the character before was a
    newline. *)
Fixpoint collapse_newlines (after_newline : bool) (s : string) : string :=
  match s with
  | EmptyString => EmptyString
  | String a s' =>
      if Ascii.eqb DtDd.nl a
      then if after_newline then collapse_newlines true s'
           else String a (collapse_newlines true s')
      else String a (collapse_newlines false s')
  end.

(** No two newlines in a row. *)
Fixpoint no_double_newline (s : string) : bool :=
  match s with
  | String a s' =>
      match s' with
      | String b _ =>
          negb (Ascii.eqb DtDd.nl a && Ascii.eqb DtDd.nl b)
          && no_double_newline s'
      | EmptyString => true
      end
  | EmptyString => true
  end.

(** The three usual spellings of a line-break tag. *)
Definition is_line_break (t : string) : Prop :=
  t = "<br>" ∨ t = "<br/>" ∨ t = "<br />".

(** Squeezing white space: every run of white-space characters becomes one
    blank.  [after_space] tells that the character before was white space. *)
Fixpoint squeeze_spaces (after_space : bool) (s : string) : string :=
  match s with
  | EmptyString => EmptyString
  | String a s' =>
      if Py.isspace a
      then if after_space then squeeze_spaces true s'
           else String " " (squeeze_spaces true s')
      else String a (squeeze_spaces false s')
  end.

(** Every character of [s] satisfies [f]. *)
Fixpoint all_chars (f : ascii → bool) (s : string) : bool :=
  match s with
  | EmptyString => true
  | String a s' => f a && all_chars f s'
  end.

(** Group 1 is bound among the captured groups. *)
Definition binds1 (c : Re.caps) : Prop := is_Some (Re.group c 1).

(** The pattern passes through its first group on every way to a match: the
    group is a factor of the top-level sequence. *)
Inductive has_group1 : Re.regex → Prop :=
| has_group1_here r : has_group1 (Re.Group 1 r)
| has_group1_left r1 r2 : has_group1 r1 → has_group1 (Re.Cat r1 r2)
| has_group1_right r1 r2 : has_group1 r2 → has_group1 (Re.Cat r1 r2).

(** A sequence of fetches with one delay between every two of them. *)
Fixpoint with_delays (fetches : list HttpEngine.event) : list HttpEngine.event :=
  match fetches with
  | [] => []
  | e :: rest =>
      match rest with
      | [] => [e]
      | _ :: _ => e :: HttpEngine.EvSleep :: with_delays rest
      end
  end.

(** What the loop of [extract_all_links] keeps true of its result: the two
    classifications split the same links; a link is filed by what
    [_is_internal_link] says of its URL; its href is one the extractor does
    not exclude and its URL the href resolved against the page; and the
    links with an image are among them. *)
Definition link_inv (check_bracketed_host : string → bool)
    (urljoin : string → string → string)
    (current_url base_domain : string) (r : LinkExtractor.link_bundle) : Prop :=
  LinkExtractor.internal_links r ++ LinkExtractor.external_links r
    ≡ₚ LinkExtractor.navigation_links r ++ LinkExtractor.content_links r
  ∧ LinkExtractor.images_with_links r
      ⊆+ LinkExtractor.internal_links r ++ LinkExtractor.external_links r
  ∧ Forall (λ l, LinkExtractor._is_internal_link check_bracketed_host
                   (LinkExtractor.link_url l) base_domain = true)
           (LinkExtractor.internal_links r)
  ∧ Forall (λ l, LinkExtractor._is_internal_link check_bracketed_host
                   (LinkExtractor.link_url l) base_domain = false)
           (LinkExtractor.external_links r)
  ∧ Forall (λ l, LinkExtractor._should_exclude (LinkExtractor.original_href l)
                 = false
                 ∧ LinkExtractor.link_url l
                   = urljoin current_url (LinkExtractor.original_href l))
           (LinkExtractor.internal_links r ++ LinkExtractor.external_links r)
  ∧ Forall (λ l, is_Some (LinkExtractor.image l))
           (LinkExtractor.images_with_links r).

(** White space occurs only as single blanks. *)
Fixpoint single_spaced (s : string) : bool :=
  match s with
  | EmptyString => true
  | String a s' =>
      (negb (Py.isspace a) || Ascii.eqb a " ")
      && match s' with
         | String b _ => negb (Py.isspace a && Py.isspace b)
         | EmptyString => true
         end
      && single_spaced s'
  end.

(** A character that may stand in a file name made from a URL. *)
Definition filename_safe (a : ascii) : bool :=
  negb (Ascii.eqb "/" a || Ascii.eqb "?" a || Ascii.eqb "&" a
        || Ascii.eqb "=" a || Ascii.eqb "#" a || Ascii.eqb ":" a).

(** A character that continues the network location of a URL: none of
    those that end it, no bracket, and none of those [urlparse] removes. *)
Definition netloc_char (c : ascii) : bool :=
  negb (Ascii.eqb c "/" || Ascii.eqb c "?" || Ascii.eqb c "#"
        || Ascii.eqb c "[" || Ascii.eqb c "]"
        || Ascii.eqb c "009" || Ascii.eqb c "010" || Ascii.eqb c "013").

(** A candidate element of [_extract_main_content] is taken when its text
    has more than 100 characters once stripped. *)
Definition candidate_of (p : TextExtractor.content_page)
    (selector text : string) : Prop :=
  TextExtractor.query_selector p selector = Some text
  ∧ 100 < String.length (Py.strip text).

End Reference.

(* ===================================================================== *)
(** ** More of the example site *)
(* ===================================================================== *)

Module DetailExample.

(** A detail page whose label/value list has a [title] and an [original_id]
    label of its own. *)
Definition detail_html : string :=
  "<html><title>Job <b>7</b></title><dl><dt>title</dt><dd>from the list</dd><dt>Pay</dt><dd>100</dd><dt>original_id</dt><dd>x</dd></dl></html>".

Definition detail_site (url : string) : option string :=
  if String.eqb url "http://site.test/detail/7" then Some detail_html else None.

Definition detail_config : HttpEngine.config :=
  HttpEngine.Config None None (Some "http://site.test") None None None
    (Some "/detail/{id}") None None None.

End DetailExample.

Module PageExample.

(** A rendered page with three [img] elements and one background image. *)
Definition image_page : ImageExtractor.page :=
  ImageExtractor.Page "http://site.test/"
    [ ImageExtractor.ImgElement (Some "http://site.test/a.PNG")
        (Some "logo") None None None None;
      ImageExtractor.ImgElement (Some "http://site.test/favicon.ico")
        None None None None None;
      ImageExtractor.ImgElement (Some "http://site.test/img?id=7")
        None None None None None ]
    (Some [ ImageExtractor.BgFound "http://site.test/bg.jpg" "div" "" "" ]).

(** The entry of its first element, for a resolver that leaves absolute
    URLs as they are. *)
Definition first_image : ImageExtractor.image_data :=
  ImageExtractor.ImageData "http://site.test/a.PNG" ImageExtractor.KImg
    (Some "logo") (Some "") (Some "http://site.test/a.PNG") None None None.

End PageExample.

Module RunExample.

(** One list page with two items; the detail page of the second is
    missing. *)
Definition run_site (url : string) : option string :=
  if String.eqb url "http://site.test/list?p=1" then Some "item-7, item-8"
  else DetailExample.detail_site url.

Definition run_config : HttpEngine.config :=
  HttpEngine.Config (Some "/list?p={page}") (Some Examples.item_pattern)
    (Some "http://site.test") (Some 1%Z) (Some 1%Z) None
    (Some "/detail/{id}") None None None.

Definition clock (n : nat) : string :=
  ("2026-01-01T00:00:0" ++ Py.str_of_int (Z.of_nat n))%string.

End RunExample.

Module TextExample.

Definition article_text : string :=
  "  Nurses   wanted.  The ward has twelve beds, two shifts and a night duty once a week; the hospital is five minutes from the station. ".

(** A page whose [main] element is too short and whose [article] element
    is long enough. *)
Definition article_page : TextExtractor.content_page :=
  TextExtractor.ContentPage
    (λ selector,
       if String.eqb selector "main" then Some "Menu"
       else if String.eqb selector "article" then Some article_text
       else None)
    "Menu Nurses wanted.".

End TextExample.

(* ===================================================================== *)
(** ** crawler.py: [TeddyCrawler.fetch_batch] *)
(* ===================================================================== *)

Module CrawlerBatch.

(** What a batch does, in order: the jobs it hands to [fetch_single_url]
    and the pauses between them. *)
Inductive event : Type :=
| EvJob (url : Schema.value) (job_config : gmap string Schema.value)
| EvWait (delay : Z).

Section with_browser.
(** [fetch_single_url], which catches its own exceptions: the result of the
    [n]-th job for a URL and a job configuration. *)
Variable fetch_single_url :
  nat → Schema.value → gmap string Schema.value → gmap string Schema.value.
(** [self.config.get('settings', {})] and its [.get('delay', 2000)]. *)
Variable settings : gmap string Schema.value.
Variable delay : Z.

(** [{**settings, **job}] *)
Definition job_config (job : gmap string Schema.value)
  : gmap string Schema.value := job ∪ settings.

(** [job.get('name', f'job_{i}')] *)
Definition job_name (i : nat) (job : gmap string Schema.value)
  : Schema.value :=
  default (Schema.VStr ("job_" ++ Py.str_of_int (Z.of_nat i))) (job !! "name").

(** [for i, job in enumerate(jobs, 1)]; [total] is [len(jobs)]; [None] is
    the [KeyError] of a job without [url], which ends the batch. *)
Fixpoint batch_loop (total i : nat) (jobs : list (gmap string Schema.value))
    (results : list (gmap string Schema.value)) (events : list event)
  : option (list (gmap string Schema.value) * list event) :=
  match jobs with
  | [] => Some (results, events)
  | job :: jobs' =>
      match job !! "url" with
      | None => None
      | Some url =>
          let result := fetch_single_url i url (job_config job) in
          let result := <["job_name" := job_name i job]> result in
          let events := events ++ [EvJob url (job_config job)] in
          let events :=
            if bool_decide (0 < delay)%Z && bool_decide (i < total)
            then events ++ [EvWait delay] else events in
          batch_loop total (S i) jobs' (results ++ [result]) events
      end
  end.

Definition fetch_batch (jobs : list (gmap string Schema.value))
  : option (list (gmap string Schema.value) * list event) :=
  batch_loop (List.length jobs) 1 jobs [] [].

End with_browser.

(** The event of a job that has a [url]. *)
Definition job_event (settings job : gmap string Schema.value)
  : option event :=
  url ← job !! "url"; Some (EvJob url (job_config settings job)).

(** A sequence of jobs with one pause between every two of them. *)
Fixpoint with_waits (delay : Z) (jobs : list event) : list event :=
  match jobs with
  | [] => []
  | e :: rest =>
      match rest with
      | [] => [e]
      | _ :: _ => e :: EvWait delay :: with_waits delay rest
      end
  end.

End CrawlerBatch.

Module BatchExample.

Definition jobs : list (gmap string Schema.value) :=
  [ {[ "url" := Schema.VStr "http://site.test/a";
       "name" := Schema.VStr "first" ]};
    {[ "url" := Schema.VStr "http://site.test/b" ]} ].

Definition browser (n : nat) (url : Schema.value)
    (job_config : gmap string Schema.value) : gmap string Schema.value :=
  {[ "url" := url ]}.

End BatchExample.
(* ===================================================================== *)
(** * Properties *)
(* ===================================================================== *)

(** ** The schema normalizer *)

Section schema_facts.
  Import Schema.
  Implicit Types raw mapping : gmap string string.

Lemma FIELDS_NoDup : NoDup FIELDS.
Proof. apply (bool_decide_unpack _). vm_compute. exact I. Qed.

Lemma empty_record_lookup f :
  empty_record !! f = if decide (f ∈ FIELDS) then Some (VStr "") else None.
Proof.
  assert (((λ f, (f, VStr "")) <$> FIELDS).*1 = FIELDS) as Hkeys
    by reflexivity.
  unfold empty_record. case_decide as Hf.
  - apply elem_of_list_to_map_1.
    + rewrite Hkeys. apply FIELDS_NoDup.
    + apply list_elem_of_fmap. by exists f.
  - apply not_elem_of_list_to_map_1. by rewrite Hkeys.
Qed.

(** What the mapping loop leaves under a key. *)
Lemma mapping_loop_lookup raw mapping f :
  map_fold (apply_pair raw) empty_record mapping !! f =
  if decide (f ∈ FIELDS)
  then Some (VStr (from_option (λ src, default "" (raw !! src)) ""
                               (mapping !! f)))
  else None.
Proof.
  revert f.
  apply (map_fold_weak_ind
           (λ r m, ∀ f, r !! f =
              if decide (f ∈ FIELDS)
              then Some (VStr (from_option (λ src, default "" (raw !! src)) ""
                                           (m !! f)))
              else None)).
  - intros f. rewrite empty_record_lookup, lookup_empty. done.
  - intros i x m r Hi IH f. unfold apply_pair.
    destruct (decide (i = f)) as [->|Hne].
    + rewrite lookup_insert_eq. simpl. rewrite (IH f), Hi. simpl.
      case_decide as Hf.
      * destruct (raw !! x) as [v|] eqn:Hx; simpl.
        -- by rewrite lookup_insert_eq.
        -- rewrite (IH f), Hi. rewrite decide_True by done. done.
      * rewrite (IH f). by rewrite decide_False.
    + rewrite (lookup_insert_ne m) by done.
      destruct (r !! i); [destruct (raw !! x)|]; try apply IH.
      rewrite lookup_insert_ne by done. apply IH.
Qed.

Lemma mapped_sources_spec mapping r :
  r ∈ mapped_sources mapping ↔ ∃ f, mapping !! f = Some r.
Proof.
  unfold mapped_sources. rewrite elem_of_list_to_set, list_elem_of_fmap.
  split.
  - intros [[f r'] [-> Hin]]. exists f. by apply elem_of_map_to_list.
  - intros [f Hf]. exists (f, r). split; [done|]. by apply elem_of_map_to_list.
Qed.

Lemma extra_of_lookup raw mapping k v :
  extra_of raw mapping !! k = Some v ↔
  raw !! k = Some v ∧ ∀ f, mapping !! f ≠ Some k.
Proof.
  unfold extra_of. rewrite map_lookup_filter_Some. simpl.
  rewrite mapped_sources_spec. split; intros [Hraw Hno]; (split; [done|]).
  - intros f Hf. apply Hno. by exists f.
  - intros [f Hf]. by apply (Hno f).
Qed.

Lemma extra_of_nonempty raw mapping :
  extra_of raw mapping ≠ ∅ ↔
  ∃ k v, raw !! k = Some v ∧ ∀ f, mapping !! f ≠ Some k.
Proof.
  split.
  - intros Hne. destruct (map_choose _ Hne) as (k & v & Hkv).
    exists k, v. by apply extra_of_lookup.
  - intros (k & v & Hkv) Hempty.
    apply extra_of_lookup in Hkv. rewrite Hempty in Hkv.
    by rewrite lookup_empty in Hkv.
Qed.

Lemma extra_not_a_field : "_extra" ∉ FIELDS.
Proof. apply (bool_decide_unpack _). vm_compute. exact I. Qed.

Lemma normalize_lookup_field raw mapping f :
  f ∈ FIELDS →
  normalize raw mapping !! f =
  Some (VStr (from_option (λ src, default "" (raw !! src)) "" (mapping !! f))).
Proof.
  intros Hf. unfold normalize.
  assert (f ≠ "_extra") by (intros ->; by apply extra_not_a_field).
  case_decide; [|rewrite lookup_insert_ne by done];
    rewrite mapping_loop_lookup; by rewrite decide_True.
Qed.

Lemma normalize_lookup_extra raw mapping :
  normalize raw mapping !! "_extra" =
  if decide (extra_of raw mapping = ∅) then None
  else Some (VDict (extra_of raw mapping)).
Proof.
  unfold normalize. case_decide.
  - rewrite mapping_loop_lookup. rewrite decide_False; [done|].
    apply extra_not_a_field.
  - by rewrite lookup_insert_eq.
Qed.

Lemma normalize_lookup_other raw mapping k :
  k ∉ FIELDS → k ≠ "_extra" → normalize raw mapping !! k = None.
Proof.
  intros Hk Hne. unfold normalize.
  case_decide; [|rewrite lookup_insert_ne by done];
    rewrite mapping_loop_lookup; by rewrite decide_False.
Qed.

End schema_facts.

(** C1, as the code has it: the record returned by [normalize] has the
    fields of [FIELDS] as keys, 32 of them and each set to the empty string
    by [empty_record], and besides them the key [_extra] exactly when some
    raw key is not a source of the mapping. *)
Theorem normalize_key_set (raw mapping : gmap string string) :
  List.length Schema.FIELDS = 32 ∧
  (∀ f, f ∈ Schema.FIELDS → Schema.empty_record !! f = Some (Schema.VStr "")) ∧
  (∀ k, k ∈ dom (Schema.normalize raw mapping) ↔
        k ∈ Schema.FIELDS ∨
        (k = "_extra" ∧
         ∃ r v, raw !! r = Some v ∧ ∀ f, mapping !! f ≠ Some r)).
Proof.
  split; [reflexivity|]. split.
  - intros f Hf. rewrite empty_record_lookup. by rewrite decide_True.
  - intros k. rewrite elem_of_dom.
    destruct (decide (k ∈ Schema.FIELDS)) as [Hf|Hf].
    + rewrite normalize_lookup_field by done. split; [by left|eauto].
    + destruct (decide (k = "_extra")) as [->|Hne].
      * rewrite normalize_lookup_extra, <- extra_of_nonempty.
        case_decide as He; split.
        -- by intros [? ?].
        -- intros [?|[_ ?]]; done.
        -- intros _. by right.
        -- eauto.
      * rewrite normalize_lookup_other by done. split.
        -- by intros [? ?].
        -- intros [?|[? _]]; done.
Qed.

(** C1 as stated fails: for the empty raw record and the empty mapping no
    overflow key is due, and the record has 32 keys, not 31. *)
Lemma normalize_31_keys_counterexample :
  ¬ (∃ canonical : gset string,
        size canonical = 31 ∧ dom (Schema.normalize ∅ ∅) = canonical).
Proof.
  intros (canonical & Hsize & Hdom). subst canonical.
  vm_compute in Hsize. discriminate.
Qed.

(** C2, as the code has it: a pair of the raw record is kept, in a schema
    field that the mapping fills from its key or unchanged in the overflow
    mapping, exactly when its key is no source of the mapping or is the
    source of a pair whose target is a schema field; and the overflow, a
    mapping of its own under [_extra], holds exactly the pairs of the raw
    record whose key is no source of the mapping. *)
Theorem normalize_retains (raw mapping : gmap string string) (k v : string) :
  raw !! k = Some v →
  (((∃ f, f ∈ Schema.FIELDS ∧ mapping !! f = Some k ∧
          Schema.normalize raw mapping !! f = Some (Schema.VStr v))
    ∨ (∃ extra, Schema.normalize raw mapping !! "_extra"
                  = Some (Schema.VDict extra) ∧ extra !! k = Some v))
   ↔ ((∀ f, mapping !! f ≠ Some k)
      ∨ (∃ f, f ∈ Schema.FIELDS ∧ mapping !! f = Some k))) ∧
  (∀ overflow,
      Schema.normalize raw mapping !! "_extra" = Some overflow →
      ∃ extra,
        overflow = Schema.VDict extra ∧
        ∀ k' v', extra !! k' = Some v' ↔
                 raw !! k' = Some v' ∧ ∀ f, mapping !! f ≠ Some k') ∧
  (Schema.normalize raw mapping !! "_extra" = None ↔
   ∀ k' v', raw !! k' = Some v' → ∃ f, mapping !! f = Some k').
Proof.
  intros Hraw. split; [split|split].
  - intros [(f & Hf & Hm & _)|(extra & Hex & Hk)].
    + right. eauto.
    + left. rewrite normalize_lookup_extra in Hex.
      case_decide; [done|]. injection Hex as <-.
      by apply extra_of_lookup in Hk as [_ ?].
  - intros [Hno|(f & Hf & Hm)].
    + right. exists (Schema.extra_of raw mapping).
      assert (Schema.extra_of raw mapping !! k = Some v) as Hk
        by by apply extra_of_lookup.
      split; [|done]. rewrite normalize_lookup_extra.
      rewrite decide_False; [done|]. intros He. rewrite He in Hk.
      by rewrite lookup_empty in Hk.
    + left. exists f. split; [done|]. split; [done|].
      rewrite normalize_lookup_field by done. rewrite Hm. simpl.
      by rewrite Hraw.
  - intros overflow. rewrite normalize_lookup_extra.
    case_decide; [done|]. intros [= <-].
    exists (Schema.extra_of raw mapping). split; [done|].
    intros k' v'. apply extra_of_lookup.
  - rewrite normalize_lookup_extra. case_decide as He; split; try done.
    + intros _ k' v' Hk'.
      destruct (decide (k' ∈ Schema.mapped_sources mapping)) as [Hin|Hout].
      * by apply mapped_sources_spec.
      * exfalso. assert (Schema.extra_of raw mapping !! k' = Some v') as Hx.
        { apply extra_of_lookup. split; [done|]. intros f Hf.
          apply Hout, mapped_sources_spec. by exists f. }
        rewrite He in Hx. by rewrite lookup_empty in Hx.
    + intros Hall. exfalso. apply extra_of_nonempty in He
        as (k' & v' & Hk' & Hno).
      destruct (Hall k' v' Hk') as [f Hf]. by apply (Hno f).
Qed.

Lemma normalize_retains_witness :
  ((∃ f, f ∈ Schema.FIELDS ∧
         ({[ "price" := "Salary" ]} : gmap string string) !! f = Some "Salary" ∧
         Schema.normalize {[ "Salary" := "100"; "Memo" := "x" ]}
                          {[ "price" := "Salary" ]} !! f
           = Some (Schema.VStr "100"))
   ∨ (∃ extra, Schema.normalize {[ "Salary" := "100"; "Memo" := "x" ]}
                                {[ "price" := "Salary" ]} !! "_extra"
                 = Some (Schema.VDict extra) ∧ extra !! "Salary" = Some "100"))
  ↔ ((∀ f, ({[ "price" := "Salary" ]} : gmap string string) !! f ≠ Some "Salary")
     ∨ (∃ f, f ∈ Schema.FIELDS ∧
             ({[ "price" := "Salary" ]} : gmap string string) !! f = Some "Salary")).
Proof.
  apply (normalize_retains {[ "Salary" := "100"; "Memo" := "x" ]}
                           {[ "price" := "Salary" ]} "Salary" "100").
  vm_compute. reflexivity.
Defined.

(** C2 as stated fails: a raw value whose key the mapping names as the source
    of an unrecognized target is in no schema field and in no overflow
    mapping. *)
Lemma normalize_lossless_counterexample :
  ({[ "salary" := "100" ]} : gmap string string) !! "salary" = Some "100" ∧
  ¬ ((∃ f, Schema.normalize {[ "salary" := "100" ]} {[ "wage" := "salary" ]} !! f
             = Some (Schema.VStr "100"))
     ∨ (∃ extra, Schema.normalize {[ "salary" := "100" ]} {[ "wage" := "salary" ]}
                   !! "_extra" = Some (Schema.VDict extra)
                 ∧ extra !! "salary" = Some "100")).
Proof.
  split; [vm_compute; reflexivity|].
  assert (Schema.normalize {[ "salary" := "100" ]} {[ "wage" := "salary" ]}
          = Schema.empty_record) as -> by (vm_compute; reflexivity).
  intros [(f & Hf)|(extra & Hex & _)].
  - rewrite empty_record_lookup in Hf. by case_decide.
  - rewrite empty_record_lookup in Hex. by case_decide.
Qed.

(** ** Identifier extraction *)

Section unique_loop_facts.
  Import DtDd.
  Implicit Types ids unique : list string.
  Implicit Types seen : gset string.

Lemma unique_loop_acc ids seen unique :
  unique_loop ids seen unique = unique ++ unique_loop ids seen [].
Proof.
  revert seen unique. induction ids as [|i ids IH]; intros seen unique; simpl.
  - by rewrite app_nil_r.
  - case_decide.
    + rewrite (IH _ (unique ++ [i])), (IH _ [i]). by rewrite <- app_assoc.
    + apply IH.
Qed.

(** Starting with identifiers already seen filters them out. *)
Lemma unique_loop_seen ids seen :
  unique_loop ids seen [] = filter (λ x, x ∉ seen) (unique_loop ids ∅ []).
Proof.
  revert seen. induction ids as [|i ids IH]; intros seen; simpl; [done|].
  rewrite (decide_True (P := i ∉ (∅ : gset string))) by set_solver.
  rewrite !(unique_loop_acc ids _ [i]), (IH ({[i]} ∪ ∅)), (IH ({[i]} ∪ seen)).
  simpl. rewrite filter_cons, list_filter_filter.
  case_decide as Hi.
  - f_equal. apply list_filter_iff. intros x. set_solver.
  - rewrite (IH seen). apply list_filter_iff. intros x. set_solver.
Qed.

Lemma unique_loop_cons i ids :
  unique_loop (i :: ids) ∅ [] =
  i :: filter (λ x, x ≠ i) (unique_loop ids ∅ []).
Proof.
  simpl. rewrite (decide_True (P := i ∉ (∅ : gset string))) by set_solver.
  rewrite (unique_loop_acc ids _ [i]), unique_loop_seen. simpl. f_equal.
  apply list_filter_iff. intros x. set_solver.
Qed.

Lemma unique_loop_elem ids x :
  x ∈ unique_loop ids ∅ [] ↔ x ∈ ids.
Proof.
  induction ids as [|i ids IH]; [done|].
  rewrite unique_loop_cons, !elem_of_cons, list_elem_of_filter, IH.
  destruct (decide (x = i)); naive_solver.
Qed.

Lemma unique_loop_NoDup ids : NoDup (unique_loop ids ∅ []).
Proof.
  induction ids as [|i ids IH]; [constructor|].
  rewrite unique_loop_cons. constructor.
  - rewrite list_elem_of_filter. naive_solver.
  - by apply NoDup_filter.
Qed.

(** Two token streams one after the other: the second contributes what the
    first did not have. *)
Lemma unique_loop_app ids1 ids2 :
  unique_loop (ids1 ++ ids2) ∅ [] =
  unique_loop ids1 ∅ []
    ++ filter (λ x, x ∉ ids1) (unique_loop ids2 ∅ []).
Proof.
  assert (∀ seen unique,
    unique_loop (ids1 ++ ids2) seen unique =
    unique_loop ids2 (list_to_set ids1 ∪ seen) (unique_loop ids1 seen unique))
    as Hsplit.
  { induction ids1 as [|i ids1 IH]; intros seen unique; simpl.
    - f_equal. set_solver.
    - case_decide as Hi.
      + rewrite IH. f_equal. set_solver.
      + rewrite IH. f_equal. set_solver. }
  rewrite Hsplit, unique_loop_acc. f_equal.
  rewrite unique_loop_seen. apply list_filter_iff. intros x. set_solver.
Qed.

Lemma filter_all (P : string → Prop) `{!∀ x, Decision (P x)} ids :
  (∀ x, x ∈ ids → P x) → filter P ids = ids.
Proof.
  induction ids as [|i ids IH]; intros Hall; [done|].
  rewrite filter_cons, decide_True by (apply Hall; left).
  f_equal. apply IH. intros x Hx. apply Hall. by right.
Qed.

Lemma filter_none (P : string → Prop) `{!∀ x, Decision (P x)} ids :
  (∀ x, x ∈ ids → ¬ P x) → filter P ids = [].
Proof.
  induction ids as [|i ids IH]; intros Hnone; [done|].
  rewrite filter_cons, decide_False by (apply Hnone; left).
  apply IH. intros x Hx. apply Hnone. by right.
Qed.

(** A stream without repetition is left as it is. *)
Lemma unique_loop_id ids : NoDup ids → unique_loop ids ∅ [] = ids.
Proof.
  induction 1 as [|i ids Hi Hnd IH]; [done|].
  rewrite unique_loop_cons, IH. f_equal.
  apply filter_all. by intros x Hx ->.
Qed.

End unique_loop_facts.

(** C8: every token the pattern matches is in the result of [extract_ids]
    once; it stands right after the distinct tokens that come before its
    first occurrence; and markup whose tokens are those of the result, each
    once and in that order, gives the same result. *)
Theorem extract_ids_first_occurrence (html : string) (pattern : Re.regex) :
  NoDup (DtDd.extract_ids html pattern) ∧
  (∀ x, x ∈ Re.findall pattern html → x ∈ DtDd.extract_ids html pattern) ∧
  (∀ x, x ∈ DtDd.extract_ids html pattern → x ∈ Re.findall pattern html) ∧
  (∀ before x after,
      Re.findall pattern html = before ++ x :: after → x ∉ before →
      ∃ rest, DtDd.extract_ids html pattern
              = DtDd.unique_loop before ∅ [] ++ x :: rest) ∧
  (∀ html' pattern',
      Re.findall pattern' html' = DtDd.extract_ids html pattern →
      DtDd.extract_ids html' pattern' = DtDd.extract_ids html pattern).
Proof.
  unfold DtDd.extract_ids. repeat split.
  - apply unique_loop_NoDup.
  - intros x. apply unique_loop_elem.
  - intros x. apply unique_loop_elem.
  - intros before x after -> Hx. rewrite unique_loop_app, unique_loop_cons.
    rewrite filter_cons, decide_True by done. eauto.
  - intros html' pattern' ->. apply unique_loop_id, unique_loop_NoDup.
Qed.

Lemma extract_ids_first_occurrence_witness :
  DtDd.extract_ids "item-1 item-2" Examples.item_pattern
  = DtDd.extract_ids "item-1, item-2, item-1" Examples.item_pattern.
Proof.
  apply (extract_ids_first_occurrence
           "item-1, item-2, item-1" Examples.item_pattern).
  vm_compute. reflexivity.
Defined.
(** ** Pagination *)

Section crawl_facts.
  Import HttpEngine.
  Variable fetch_html : string → option string.
  Variable time_sleep : delay_value → bool.
  Variables (pattern : Re.regex) (burl lurl : string) (start stop : Z).
  Variable delay : delay_value.

Local Abbreviation ids_of := (ids_of_pages fetch_html pattern burl lurl).
Local Abbreviation inv := (crawl_inv fetch_html pattern burl lurl).
Local Abbreviation url_of := (page_url burl lurl).
Local Abbreviation loop :=
  (page_loop fetch_html time_sleep pattern burl lurl start stop delay).

Lemma ids_of_pages_app ps qs : ids_of (ps ++ qs) = ids_of ps ++ ids_of qs.
Proof. unfold ids_of_pages. by rewrite fmap_app, join_app. Qed.

Lemma ids_of_pages_one p :
  ids_of [p] = ids_of_page fetch_html pattern burl lurl p.
Proof. unfold ids_of_pages. simpl. by rewrite app_nil_r. Qed.

Lemma fetched_app evs evs' : fetched (evs ++ evs') = fetched evs ++ fetched evs'.
Proof. unfold fetched. by rewrite omap_app. Qed.

Lemma extract_ids_unique html :
  DtDd.unique_loop (DtDd.extract_ids html pattern) ∅ []
  = DtDd.extract_ids html pattern.
Proof. apply unique_loop_id, unique_loop_NoDup. Qed.

(** One iteration of the [try] block. *)
Lemma try_page_spec page st done :
  inv st done →
  ∃ st' brk,
    try_page fetch_html pattern start page (url_of page) st = (st', brk) ∧
    inv st' (done ++ [page]) ∧
    events st' = events st ++ [EvFetch page (url_of page)] ∧
    (brk = true ↔
     ∃ html, fetch_html (url_of page) = Some html ∧
             (∀ i, i ∈ DtDd.extract_ids html pattern → i ∈ ids_of done) ∧
             (start < page)%Z) ∧
    (fetch_html (url_of page) = None →
     all_ids st' = all_ids st ∧ seen st' = seen st ∧ brk = false).
Proof.
  intros (Hids & Hseen & Hdone). unfold try_page.
  destruct (fetch_html (url_of page)) as [html|] eqn:Hfetch; simpl.
  - eexists _, _. split; [reflexivity|].
    assert (∀ x, x ∉ seen st ↔ x ∉ ids_of done) as Hin.
    { intros x. rewrite Hseen, Hids, elem_of_list_to_set, unique_loop_elem.
      done. }
    split; [|split; [done|split; [|done]]].
    + repeat split; simpl.
      * rewrite ids_of_pages_app, ids_of_pages_one. unfold ids_of_page.
        rewrite Hfetch, unique_loop_app, extract_ids_unique, <- Hids.
        f_equal. by apply list_filter_iff.
      * rewrite list_to_set_app_L, Hseen. set_solver.
      * by rewrite fetched_app, Hdone.
    + rewrite andb_true_iff, !bool_decide_eq_true. split.
      * intros [Hnil Hlt]. exists html. repeat split; [|done].
        intros i Hi. destruct (decide (i ∈ ids_of done)) as [|Hno]; [done|].
        assert (i ∈ filter (λ i, i ∉ seen st) (DtDd.extract_ids html pattern))
          as Hmem by (apply list_elem_of_filter; split; [by apply Hin|done]).
        rewrite Hnil in Hmem. by apply elem_of_nil in Hmem.
      * intros (html' & [= <-] & Hall & Hlt). split; [|done].
        apply filter_none. intros i Hi Hno.
        apply Hin in Hno. by apply Hno, Hall.
  - eexists _, _. split; [reflexivity|]. repeat split; simpl; try done.
    + rewrite ids_of_pages_app, ids_of_pages_one. unfold ids_of_page.
      by rewrite Hfetch, app_nil_r.
    + by rewrite fetched_app, Hdone.
    + intros (html & ? & _); done.
Qed.

(** The loop returns when the delay between two pages does. *)
Lemma page_loop_returns pages st :
  time_sleep delay = true → is_Some (loop pages st).
Proof.
  intros Hsleep. revert st. induction pages as [|page pages IH]; intros st.
  - by eexists.
  - cbn [page_loop]. destruct (try_page _ _ _ _ _ _) as [st1 [|]];
      [by eexists|].
    rewrite Hsleep. case_bool_decide; apply IH.
Qed.

(** A delay that raises ends the loop after its first page, when that page
    is not the last one and cannot end the loop itself. *)
Lemma page_loop_raises page pages st :
  time_sleep delay = false → (page ≤ start)%Z → (page < stop)%Z →
  loop (page :: pages) st = None.
Proof.
  intros Hsleep Hfirst Hlast. cbn [page_loop]. unfold try_page.
  destruct (fetch_html _); cbn zeta beta iota;
    rewrite ?(bool_decide_eq_false_2 (start < page)%Z), ?andb_false_r by lia;
    by rewrite Hsleep, (bool_decide_eq_true_2 (page < stop)%Z).
Qed.

(** The whole loop, when it returns: it has fetched a prefix of its pages;
    a page after the first that brings nothing new is the last one fetched;
    and only such a page cuts the loop short. *)
Lemma page_loop_spec pages st done st' :
  loop pages st = Some st' →
  inv st done →
  ∃ done',
    inv st' (done ++ done') ∧
    done' `prefix_of` pages ∧
    (∀ pre k post html,
        done' = pre ++ k :: post → (start < k)%Z →
        fetch_html (url_of k) = Some html →
        (∀ i, i ∈ DtDd.extract_ids html pattern → i ∈ ids_of (done ++ pre)) →
        post = [] ∧ last (events st') = Some (EvFetch k (url_of k))) ∧
    (done' = pages ∨
     ∃ pre k html, done' = pre ++ [k] ∧ fetch_html (url_of k) = Some html).
Proof.
  revert st done. induction pages as [|page pages IH]; intros st done Hloop Hinv.
  - injection Hloop as <-. exists []. rewrite app_nil_r.
    split; [done|]. split; [done|]. split; [|by left].
    intros pre k post html Hsplit. by destruct pre.
  - destruct (try_page_spec page st done Hinv)
      as (st1 & brk & Htry & Hinv1 & Hev & Hbrk & Hfail).
    cbn [page_loop] in Hloop. rewrite Htry in Hloop. destruct brk.
    + injection Hloop as <-.
      exists [page]. split; [done|]. split; [by apply prefix_cons, prefix_nil|].
      destruct (proj1 Hbrk eq_refl) as (html & Hfetch & _).
      split; [|right; by exists [], page, html].
      intros pre k post html' Hsplit _ _ _.
      destruct pre as [|? [|? ?]]; simplify_eq/=.
      split; [done|]. rewrite Hev. apply last_snoc.
    + assert (∃ st2, loop pages st2 = Some st' ∧ inv st2 (done ++ [page]))
        as (st2 & Hloop2 & Hinv2).
      { case_bool_decide; [|by exists st1].
        destruct (time_sleep delay); [|done].
        eexists. split; [exact Hloop|].
        destruct Hinv1 as (? & ? & ?). repeat split; simpl; try done.
        rewrite fetched_app. simpl. by rewrite app_nil_r. }
      destruct (IH st2 (done ++ [page]) Hloop2 Hinv2)
        as (done'' & Hinv' & Hpre & Hstop & Hcut).
      exists (page :: done''). rewrite <- app_assoc in Hinv'.
      split; [done|]. split; [by apply prefix_cons|]. split.
      * intros pre k post html Hsplit Hlt Hfetch Hall.
        destruct pre as [|p pre]; simplify_eq/=.
        -- rewrite app_nil_r in Hall.
           assert (false = true) as Habs; [|done].
           apply Hbrk. by exists html.
        -- apply (Hstop pre k post html); try done.
           by rewrite <- app_assoc.
      * destruct Hcut as [->|(pre & k & html & -> & Hfetch)]; [by left|].
        right. by exists (page :: pre), k, html.
Qed.




End crawl_facts.


Lemma range_last a b pre k :
  pre ++ [k] = HttpEngine.range a b → (k = b - 1)%Z.
Proof.
  intros Hrange. unfold HttpEngine.range in Hrange.
  assert (List.length (seqZ a (b - a)) = S (List.length pre)) as Hlen.
  { rewrite <- Hrange, length_app. simpl. lia. }
  rewrite length_seqZ in Hlen.
  assert (seqZ a (b - a) !! List.length pre = Some k) as Hk.
  { rewrite <- Hrange. by apply list_lookup_middle. }
  apply lookup_seqZ in Hk. lia.
Qed.

(** C3: a crawl whose delay between two pages does not raise returns.  A
    crawl that returns has fetched pages of its range in order; a page after
    the start page that is fetched and yields no identifier beyond those of
    the pages before it is the last page fetched, and its fetch is the last
    thing the crawl does; the identifiers returned are distinct and stand in
    the order in which the pages fetched show them first.  On the two-page
    example the result is ["1"; "2"], and a third page is never requested. *)
Theorem crawl_list_pages_stops :
  (∀ (fetch_html : string → option string)
     (time_sleep : HttpEngine.delay_value → bool) (cfg : HttpEngine.config)
     (max_pages : option Z) (lurl : string) (pattern : Re.regex),
      HttpEngine.list_url cfg = Some lurl →
      HttpEngine.id_pattern cfg = Some pattern →
      let burl := default "" (HttpEngine.base_url cfg) in
      let start := default 1%Z (HttpEngine.start_page cfg) in
      let stop := HttpEngine.last_page start
                    (default 1%Z (HttpEngine.end_page cfg)) max_pages in
      (time_sleep (default (HttpEngine.Seconds 1 1) (HttpEngine.delay cfg))
       = true →
       ∃ st, HttpEngine.run_list_pages fetch_html time_sleep cfg max_pages
             = Some st) ∧
      ∀ st,
        HttpEngine.run_list_pages fetch_html time_sleep cfg max_pages
        = Some st →
        HttpEngine.crawl_list_pages fetch_html time_sleep cfg max_pages
          = Some (HttpEngine.all_ids st) ∧
        HttpEngine.fetched (HttpEngine.events st)
          `prefix_of` HttpEngine.range start (stop + 1) ∧
        NoDup (HttpEngine.all_ids st) ∧
        HttpEngine.all_ids st
          = DtDd.unique_loop
              (HttpEngine.ids_of_pages fetch_html pattern burl lurl
                 (HttpEngine.fetched (HttpEngine.events st))) ∅ [] ∧
        ∀ pre k post html,
          HttpEngine.fetched (HttpEngine.events st) = pre ++ k :: post →
          (start < k)%Z →
          fetch_html (HttpEngine.page_url burl lurl k) = Some html →
          (∀ i, i ∈ DtDd.extract_ids html pattern →
                i ∈ HttpEngine.ids_of_pages fetch_html pattern burl lurl pre) →
          post = [] ∧
          last (HttpEngine.events st)
            = Some (HttpEngine.EvFetch k (HttpEngine.page_url burl lurl k)))
  ∧ HttpEngine.crawl_list_pages Examples.site Examples.time_sleep
      (Examples.site_config 2) None
    = Some ["1"; "2"]
  ∧ HttpEngine.crawl_list_pages Examples.site Examples.time_sleep
      (Examples.site_config 3) None
    = Some ["1"; "2"]
  ∧ (HttpEngine.fetched ∘ HttpEngine.events)
      <$> HttpEngine.run_list_pages Examples.site Examples.time_sleep
            (Examples.site_config 3) None
    = Some [1; 2]%Z.
Proof.
  split; [|by vm_compute].
  intros fetch_html time_sleep cfg max_pages lurl pattern Hlurl Hpat
    burl start stop.
  unfold HttpEngine.crawl_list_pages, HttpEngine.run_list_pages.
  rewrite Hlurl, Hpat. fold burl start stop. split.
  { intros Hsleep. by apply page_loop_returns. }
  intros st Hrun.
  destruct (page_loop_spec _ _ _ _ _ _ _ _ _ _ [] _ Hrun)
    as (done & (Hids & Hseen & Hdone) & Hprefix & Hstop & _).
  { repeat split; simpl; set_solver. }
  simpl in Hids, Hdone, Hstop.
  split; [by rewrite Hrun|]. rewrite Hdone.
  split; [done|]. split; [|split; [done|]].
  - rewrite Hids. apply unique_loop_NoDup.
  - intros pre k post html. apply Hstop.
Qed.

Lemma crawl_list_pages_stops_witness :
  ∃ st,
    HttpEngine.run_list_pages Examples.site Examples.time_sleep
      (Examples.site_config 3) None = Some st ∧
    HttpEngine.fetched (HttpEngine.events st) = [1; 2]%Z ∧
    last (HttpEngine.events st)
      = Some (HttpEngine.EvFetch 2 "http://site.test/list?p=2").
Proof.
  destruct (proj1 crawl_list_pages_stops Examples.site Examples.time_sleep
              (Examples.site_config 3) None "/list?p={page}"
              Examples.item_pattern eq_refl eq_refl)
    as (Hreturns & Hstops).
  destruct (Hreturns eq_refl) as (st & Hrun).
  destruct (Hstops st Hrun) as (_ & _ & _ & _ & Hstop).
  exists st. split; [exact Hrun|].
  assert (HttpEngine.fetched (HttpEngine.events st) = [1; 2]%Z) as Hfetched.
  { vm_compute in Hrun. injection Hrun as <-. reflexivity. }
  split; [exact Hfetched|].
  apply (Hstop [1%Z] 2%Z [] "item-2").
  - exact Hfetched.
  - reflexivity.
  - reflexivity.
  - intros i Hi. vm_compute in Hi. apply list_elem_of_In in Hi.
    destruct Hi as [<-|[]]. apply list_elem_of_In. vm_compute. tauto.
Defined.



(** ** Scrolling *)

Section scroll_facts.
  Import Crawler.
  Variable heights : nat → option Z.

Lemma scroll_loop_bound budget prev attempts :
  scroll_attempts (scroll_loop heights budget prev attempts) ≤ attempts + budget ∧
  scrolls (scroll_loop heights budget prev attempts) ≤ attempts + budget.
Proof.
  revert prev attempts. induction budget as [|budget IH]; intros prev attempts;
    simpl; [lia|].
  destruct (heights attempts) as [cur|]; simpl; [|lia].
  case_bool_decide; simpl; [lia|].
  specialize (IH cur (S attempts)). lia.
Qed.

(** The loop ends at the first sample that equals the one before it. *)
Lemma scroll_loop_first_stable budget prev attempts n :
  attempts ≤ n < attempts + budget →
  previous_sample heights attempts = Some prev →
  (∀ j, attempts ≤ j < n →
        ∃ v, heights j = Some v ∧ previous_sample heights j ≠ Some v) →
  (∃ v, heights n = Some v ∧ previous_sample heights n = Some v) →
  scroll_loop heights budget prev attempts = ScrollResult n (S n) true.
Proof.
  revert prev attempts.
  induction budget as [|budget IH]; intros prev attempts Hn Hprev Hgrow Hstable;
    [lia|].
  simpl. destruct (decide (attempts = n)) as [->|Hne].
  - destruct Hstable as (v & -> & Hv). rewrite Hprev in Hv.
    injection Hv as ->. by rewrite bool_decide_eq_true_2.
  - destruct (Hgrow attempts) as (v & Hv & Hdiff); [lia|].
    rewrite Hv. rewrite Hprev in Hdiff.
    rewrite bool_decide_eq_false_2 by congruence.
    apply IH; [lia|done| |done].
    intros j Hj. apply Hgrow. lia.
Qed.

(** Two equal samples in a row end the loop, whatever came before. *)
Lemma scroll_loop_stable budget prev attempts i :
  attempts ≤ S i →
  previous_sample heights attempts = Some prev →
  is_Some (heights i) → heights (S i) = heights i →
  scroll_attempts (scroll_loop heights budget prev attempts) ≤ S i ∧
  scrolls (scroll_loop heights budget prev attempts) ≤ S (S i).
Proof.
  intros Hle Hprev [v Hv] Heq. rewrite Hv in Heq.
  revert prev attempts Hle Hprev.
  induction budget as [|budget IH]; intros prev attempts Hle Hprev; simpl;
    [lia|].
  destruct (heights attempts) as [cur|] eqn:Hcur; simpl; [|lia].
  case_bool_decide as Hstop; simpl; [lia|].
  apply IH; [|done].
  destruct (decide (attempts = S i)) as [->|]; [|lia].
  simpl in Hprev. congruence.
Qed.

(** Heights that keep changing use up the budget. *)
Lemma scroll_loop_exhausts budget prev attempts :
  previous_sample heights attempts = Some prev →
  (∀ j, attempts ≤ j < attempts + budget →
        ∃ v, heights j = Some v ∧ previous_sample heights j ≠ Some v) →
  scroll_loop heights budget prev attempts
  = ScrollResult (attempts + budget) (attempts + budget) true.
Proof.
  revert prev attempts.
  induction budget as [|budget IH]; intros prev attempts Hprev Hgrow; simpl.
  - by rewrite Nat.add_0_r.
  - destruct (Hgrow attempts) as (v & Hv & Hdiff); [lia|].
    rewrite Hv. rewrite Hprev in Hdiff.
    rewrite bool_decide_eq_false_2 by congruence.
    rewrite IH; [f_equal; lia|done|].
    intros j Hj. apply Hgrow. lia.
Qed.

End scroll_facts.

(** C7: without a scroll count the strategy stops at the first height sample
    that equals the sample before it (the start value being 0), with the
    attempt counter at the index of that sample; two equal samples in a row
    stop it at the second of them at the latest; heights that change every
    time stop it after 50 scrolls; and it never scrolls more than 50 times.
    For the samples 100, 200, 200 it stops with the counter at 2, after three
    scrolls. *)
Theorem grow_until_stable_halts :
  (∀ heights,
      Crawler.scroll_attempts (Crawler._handle_scrolling None heights) ≤ 50 ∧
      Crawler.scrolls (Crawler._handle_scrolling None heights) ≤ 50) ∧
  (∀ heights n,
      n < 50 →
      (∀ j, j < n →
            ∃ v, heights j = Some v ∧ Crawler.previous_sample heights j ≠ Some v) →
      (∃ v, heights n = Some v ∧ Crawler.previous_sample heights n = Some v) →
      Crawler._handle_scrolling None heights = Crawler.ScrollResult n (S n) true) ∧
  (∀ heights i,
      is_Some (heights i) → heights (S i) = heights i →
      Crawler.scroll_attempts (Crawler._handle_scrolling None heights) ≤ S i ∧
      Crawler.scrolls (Crawler._handle_scrolling None heights) ≤ S (S i)) ∧
  (∀ heights,
      (∀ j, j < 50 →
            ∃ v, heights j = Some v ∧ Crawler.previous_sample heights j ≠ Some v) →
      Crawler._handle_scrolling None heights = Crawler.ScrollResult 50 50 true) ∧
  Crawler._handle_scrolling None (Crawler.heights_of [100; 200; 200]%Z)
  = Crawler.ScrollResult 2 3 true.
Proof.
  unfold Crawler._handle_scrolling. repeat split.
  - apply (scroll_loop_bound heights Crawler.max_attempts 0 0).
  - apply (scroll_loop_bound heights Crawler.max_attempts 0 0).
  - intros heights n Hn Hgrow Hstable.
    apply scroll_loop_first_stable; [unfold Crawler.max_attempts; lia|done| |done].
    intros j Hj. apply Hgrow. lia.
  - by apply scroll_loop_stable; [lia|..].
  - by apply scroll_loop_stable; [lia|..].
  - intros heights Hgrow.
    apply (scroll_loop_exhausts heights Crawler.max_attempts 0 0); [done|].
    intros j Hj. apply Hgrow. unfold Crawler.max_attempts in Hj. lia.
Qed.

Lemma grow_until_stable_halts_witness :
  Crawler._handle_scrolling None (Crawler.heights_of [100; 200; 200]%Z)
  = Crawler.ScrollResult 2 3 true.
Proof.
  apply (proj1 (proj2 grow_until_stable_halts)
           (Crawler.heights_of [100; 200; 200]%Z) 2).
  - lia.
  - intros j Hj. destruct j as [|[|j]]; [| |lia].
    + exists 100%Z. split; [reflexivity|discriminate].
    + exists 200%Z. split; [reflexivity|discriminate].
  - exists 200%Z. split; reflexivity.
Defined.

(** ** The image bundle *)

Section image_facts.
  Import ImageExtractor.
  Variable check_bracketed_host : string → bool.

Local Abbreviation bucket_of := (bucket_of check_bracketed_host).
Local Abbreviation _categorize_images :=
  (_categorize_images check_bracketed_host).

Lemma histogram_total_insert_fresh k n (categories : gmap string nat) :
  categories !! k = None →
  histogram_total (<[k := n]> categories) = n + histogram_total categories.
Proof.
  intros Hk. unfold histogram_total.
  apply (map_fold_insert_L (λ _ n acc, n + acc)); [|done].
  intros. lia.
Qed.

Lemma histogram_total_bump k (categories : gmap string nat) :
  histogram_total (bump k categories) = S (histogram_total categories).
Proof.
  unfold bump. destruct (categories !! k) as [n|] eqn:Hk; simpl.
  - rewrite <- (insert_delete_eq categories k (n + 1)).
    rewrite <- (insert_delete_id categories k n) at 2 by done.
    rewrite !histogram_total_insert_fresh by apply lookup_delete_eq. lia.
  - by rewrite histogram_total_insert_fresh.
Qed.

Lemma categorize_total_from images (categories : gmap string nat) :
  histogram_total
    (foldl (λ categories img, bump (bucket_of img) categories) categories images)
  = histogram_total categories + List.length images.
Proof.
  revert categories. induction images as [|img images IH]; intros categories;
    simpl; [lia|].
  rewrite IH, histogram_total_bump. lia.
Qed.

Lemma categorize_total images :
  histogram_total (_categorize_images images) = List.length images.
Proof. unfold _categorize_images. by rewrite categorize_total_from. Qed.

Lemma extract_img_data_kind urljoin e current_url d :
  _extract_img_data urljoin e current_url = Some d → kind d = KImg.
Proof.
  unfold _extract_img_data. destruct (truthy (src e)); [|done].
  destruct (_should_exclude _); [done|]. by intros [= <-].
Qed.

Lemma categorize_bucket_from images (categories : gmap string nat) b :
  default 0
    (foldl (λ categories img, bump (bucket_of img) categories) categories images
       !! b)
  = default 0 (categories !! b)
    + List.length (filter (λ img, bucket_of img = b) images).
Proof.
  revert categories. induction images as [|img images IH]; intros categories;
    simpl; [lia|].
  rewrite IH, filter_cons. unfold bump.
  destruct (decide (bucket_of img = b)) as [->|Hne].
  - rewrite lookup_insert_eq. simpl. lia.
  - rewrite lookup_insert_ne by done. lia.
Qed.

Lemma extract_background_kind urljoin p current_url :
  Forall (λ d, kind d = KBackground)
         (_extract_background_images urljoin p current_url).
Proof.
  unfold _extract_background_images. destruct (bg_images p); [|constructor].
  apply Forall_forall. intros d Hd. apply list_elem_of_omap in Hd.
  destruct Hd as (b & _ & Hb).
  destruct (_should_exclude _); [done|]. by injection Hb as <-.
Qed.

End image_facts.

(** C10: in the bundle of [extract_all_images] the histogram is that of the
    inline entries: a bucket holds the number of inline entries whose URL
    falls into it, whatever the page's background images are; its counts add
    up to the number of inline entries; and [total_count] is the number of
    inline entries plus the number of background entries. *)
Theorem image_histogram_counts_inline_only
    (check_bracketed_host : string → bool)
    (urljoin : string → string → string) (p : ImageExtractor.page) :
  let bundle :=
    ImageExtractor.extract_all_images check_bracketed_host urljoin p in
  Forall (λ d, ImageExtractor.kind d = ImageExtractor.KImg)
         (ImageExtractor.images bundle) ∧
  Forall (λ d, ImageExtractor.kind d = ImageExtractor.KBackground)
         (ImageExtractor.background_images bundle) ∧
  ImageExtractor.by_type bundle
    = ImageExtractor._categorize_images check_bracketed_host
        (ImageExtractor.images bundle) ∧
  (∀ b, default 0 (ImageExtractor.by_type bundle !! b)
        = List.length
            (filter (λ d, ImageExtractor.bucket_of check_bracketed_host d = b)
                    (ImageExtractor.images bundle))) ∧
  (∀ bg, ImageExtractor.by_type
           (ImageExtractor.extract_all_images check_bracketed_host urljoin
              (ImageExtractor.Page (ImageExtractor.url p)
                 (ImageExtractor.img_elements p) bg))
         = ImageExtractor.by_type bundle) ∧
  ImageExtractor.histogram_total (ImageExtractor.by_type bundle)
    = List.length (ImageExtractor.images bundle) ∧
  ImageExtractor.total_count bundle
    = List.length (ImageExtractor.images bundle)
      + List.length (ImageExtractor.background_images bundle).
Proof.
  simpl. repeat split.
  - apply Forall_forall. intros d Hd. apply list_elem_of_omap in Hd.
    destruct Hd as (e & _ & He). by apply extract_img_data_kind in He.
  - apply extract_background_kind.
  - intros b. unfold ImageExtractor._categorize_images.
    by rewrite categorize_bucket_from, lookup_empty.
  - apply categorize_total.
Qed.

Example extract_all_images_example :
  let bundle :=
    ImageExtractor.extract_all_images Examples.check_bracketed_host
      (λ _ u, u)
      (ImageExtractor.Page "http://site.test/"
         [ ImageExtractor.ImgElement (Some "http://site.test/a.PNG")
             None None None None None;
           ImageExtractor.ImgElement (Some "http://site.test/favicon.ico")
             None None None None None;
           ImageExtractor.ImgElement (Some "http://site.test/img?id=7")
             None None None None None ]
         (Some [ ImageExtractor.BgFound "http://site.test/bg.jpg" "div" "" "" ])) in
  ImageExtractor.by_type bundle = {[ "png" := 1; "unknown" := 1 ]}
  ∧ ImageExtractor.total_count bundle = 3.
Proof. vm_compute. split; reflexivity. Qed.

(* ===================================================================== *)
(** * Further properties *)
(* ===================================================================== *)

(** ** The label/value pass *)

Section regex_facts.
Import Re.

(** A greedy repetition of a character class in front of a continuation that
    cannot fail takes the whole run. *)
Lemma star_loop_greedy_class f k fuel s c :
  String.length s ≤ fuel →
  (∀ s' c', is_Some (k s' c')) →
  star_loop (m (Chr f)) true k fuel s c = k (Urllib.lstrip_chars f s) c.
Proof.
  intros Hfuel Hk. revert s Hfuel.
  induction fuel as [|fuel IH]; intros s Hfuel.
  - destruct s; [reflexivity|simpl in Hfuel; lia].
  - destruct s as [|a s]; [reflexivity|].
    cbn [star_loop m Urllib.lstrip_chars]. destruct (f a); [|reflexivity].
    rewrite (proj2 (Nat.ltb_lt _ _)) by (simpl; lia).
    rewrite IH by (simpl in Hfuel; lia).
    by destruct (Hk (Urllib.lstrip_chars f s) c) as [x ->].
Qed.

Lemma scan_skip r skip s :
  skip ≤ String.length s → scan r skip s = scan r 0 (Py.drop skip s).
Proof.
  revert s. induction skip as [|skip IH]; intros s Hlen.
  - by destruct s.
  - destruct s as [|a s]; [simpl in Hlen; lia|].
    simpl. apply IH. simpl in Hlen. lia.
Qed.

Lemma lstrip_chars_length f s :
  String.length (Urllib.lstrip_chars f s) ≤ String.length s.
Proof.
  induction s as [|a s IH]; simpl; [done|]. destruct (f a); simpl; lia.
Qed.

Lemma drop_lstrip_chars f s :
  Py.drop (String.length s - String.length (Urllib.lstrip_chars f s)) s
  = Urllib.lstrip_chars f s.
Proof.
  induction s as [|a s IH]; simpl; [done|].
  destruct (f a) eqn:Hf.
  - pose proof (lstrip_chars_length f s).
    replace (S (String.length s) - String.length (Urllib.lstrip_chars f s))
      with (S (String.length s - String.length (Urllib.lstrip_chars f s))) by lia.
    done.
  - simpl. by rewrite Nat.sub_diag.
Qed.

End regex_facts.

Section blank_line_facts.
Import Re DtDd Reference.

Local Abbreviation is_nl := (Ascii.eqb nl).
Local Arguments Ascii.eqb : simpl never.

(** Where [\n{2,}] matches, and what it leaves. *)
Lemma match_at_blank_lines s :
  match_at blank_lines_pattern false s =
  match s with
  | String a (String b s2) =>
      if is_nl a && is_nl b then Some (Urllib.lstrip_chars is_nl s2, []) else None
  | _ => None
  end.
Proof.
  unfold match_at, blank_lines_pattern, lit. simpl.
  destruct s as [|a [|b s2]]; [done|by destruct (is_nl a)|].
  destruct (is_nl a); [|done]. destruct (is_nl b); [|done]. simpl.
  apply (star_loop_greedy_class is_nl (λ s' c', Some (s', c'))
           (String.length s2) s2 []); [lia|by eexists].
Qed.

Lemma collapse_after_newline s :
  collapse_newlines true s = collapse_newlines false (Urllib.lstrip_chars is_nl s).
Proof.
  induction s as [|a s IH]; simpl; [done|].
  destruct (is_nl a) eqn:Ha; [done|]. simpl. by rewrite Ha.
Qed.

(** [re.sub] with [\n{2,}] and a newline collapses every run of newlines. *)
Lemma sub_blank_lines s :
  sub blank_lines_pattern (String nl "") s = collapse_newlines false s.
Proof.
  unfold sub.
  assert (∀ n s, String.length s ≤ n →
            fold_right
              (λ p acc, match p with
                        | Skipped a => String a acc
                        | Matched _ _ => (String nl "" ++ acc)%string
                        end) "" (scan blank_lines_pattern 0 s)
            = collapse_newlines false s) as Hall; [|by apply (Hall (String.length s) s)].
  clear s. induction n as [|n IH]; intros s Hlen.
  - destruct s; [|simpl in Hlen; lia].
    cbn [scan]. by rewrite match_at_blank_lines.
  - destruct s as [|a s']; [cbn [scan]; by rewrite match_at_blank_lines|].
    cbn [scan]. rewrite match_at_blank_lines.
    destruct s' as [|b s2].
    + cbn [fold_right]. rewrite (IH "") by (simpl; lia). simpl.
      by destruct (is_nl a).
    + destruct (is_nl a) eqn:Ha; cbn [andb].
      * destruct (is_nl b) eqn:Hb.
        -- pose proof (lstrip_chars_length is_nl s2) as Hle.
           rewrite (proj2 (Nat.ltb_lt _ _)) by (simpl; lia).
           cbn [fold_right]. rewrite scan_skip by (simpl; lia).
           replace (String.length (String a (String b s2))
                    - String.length (Urllib.lstrip_chars is_nl s2) - 1)
             with (S (String.length s2
                      - String.length (Urllib.lstrip_chars is_nl s2)))
             by (simpl; lia).
           cbn [Py.drop]. rewrite drop_lstrip_chars.
           rewrite IH by (simpl in Hlen; lia).
           cbn [collapse_newlines append]. rewrite Ha, Hb.
           apply Ascii.eqb_eq in Ha as <-.
           by rewrite collapse_after_newline.
        -- cbn [fold_right]. rewrite IH by (simpl in Hlen; simpl; lia).
           simpl. by rewrite Ha, Hb.
      * cbn [fold_right]. rewrite IH by (simpl in Hlen; simpl; lia).
        simpl. by rewrite Ha.
Qed.

Lemma collapse_no_double_newline after s :
  no_double_newline (collapse_newlines after s) = true ∧
  (after = true →
   match collapse_newlines after s with
   | String a _ => is_nl a = false
   | EmptyString => True
   end).
Proof.
  revert after. induction s as [|a s IH]; intros after; simpl; [done|].
  destruct (is_nl a) eqn:Ha.
  - destruct after; [apply IH|].
    destruct (IH true) as [Hno Hhead]. split; [|done]. simpl.
    destruct (collapse_newlines true s) as [|b r]; [done|].
    rewrite Ha, (Hhead eq_refl). done.
  - destruct (IH false) as [Hno _]. split; [|done]. simpl.
    destruct (collapse_newlines false s) as [|b r]; [done|].
    by rewrite Ha.
Qed.

Lemma no_double_newline_cons a b s :
  no_double_newline (String a (String b s))
  = negb (is_nl a && is_nl b) && no_double_newline (String b s).
Proof. reflexivity. Qed.

Lemma no_double_newline_tail a s :
  no_double_newline (String a s) = true → no_double_newline s = true.
Proof.
  simpl. destruct s as [|b s]; [done|]. by intros [_ ?]%andb_true_iff.
Qed.

Lemma lstrip_no_double_newline s :
  no_double_newline s = true → no_double_newline (Py.lstrip s) = true.
Proof.
  induction s as [|a s IH]; [done|]. intros Hno.
  cbn [Py.lstrip]. destruct (Py.isspace a); [|done].
  by apply IH, (no_double_newline_tail a).
Qed.

Lemma rstrip_no_double_newline s :
  no_double_newline s = true → no_double_newline (Py.rstrip s) = true.
Proof.
  induction s as [|a s IH]; [done|]. intros Hno.
  pose proof (IH (no_double_newline_tail _ _ Hno)) as Htail.
  cbn [Py.rstrip].
  destruct (Py.rstrip s) as [|b r] eqn:Hr.
  - by destruct (Py.isspace a).
  - destruct s as [|b' s']; [done|].
    assert (b = b') as <-.
    { cbn [Py.rstrip] in Hr. destruct (Py.rstrip s'); [|by injection Hr].
      destruct (Py.isspace b'); [done|by injection Hr]. }
    rewrite no_double_newline_cons in Hno |- *.
    apply andb_true_iff in Hno as [Hab _]. by rewrite Hab, Htail.
Qed.

(** A cleaned value has no two newlines in a row. *)
Lemma clean_val_no_double_newline val :
  no_double_newline (clean_val val) = true.
Proof.
  unfold clean_val, Py.strip. rewrite sub_blank_lines.
  apply rstrip_no_double_newline, lstrip_no_double_newline,
    collapse_no_double_newline.
Qed.

End blank_line_facts.

Section label_value_facts.
Import Re DtDd Reference.

(** What the loop of [parse_dt_dd] leaves under a key: what was there, else
    the cleaned value of the first pair with that cleaned label. *)
Lemma dt_dd_loop_lookup pairs (data : gmap string string) key :
  foldl dt_dd_step data pairs !! key =
  match data !! key with
  | Some v => Some v
  | None =>
      if decide (key = "") then None
      else (clean_val ∘ snd)
             <$> List.find (λ kv, String.eqb (clean_key kv.1) key) pairs
  end.
Proof.
  revert data. induction pairs as [|[k v] pairs IH]; intros data.
  - simpl. destruct (data !! key); [done|]. by case_decide.
  - cbn [foldl]. rewrite IH. unfold dt_dd_step at 1. cbn [fst snd List.find].
    destruct (String.eqb_spec (clean_key k) "") as [Hempty|Hfull]; cbn [negb andb].
    + destruct (data !! key); [done|]. case_decide as Hkey; [done|].
      destruct (String.eqb_spec (clean_key k) key); [congruence|done].
    + case_bool_decide as Hfree.
      * destruct (decide (clean_key k = key)) as [<-|Hne].
        -- rewrite lookup_insert_eq, Hfree, String.eqb_refl.
           by rewrite decide_False.
        -- rewrite lookup_insert_ne by done.
           destruct (String.eqb_spec (clean_key k) key); [done|]. done.
      * destruct (data !! key) eqn:Hkey; [done|]. case_decide; [done|].
        destruct (String.eqb_spec (clean_key k) key) as [Heq|]; [|done].
        by rewrite Heq in Hfree.
Qed.

End label_value_facts.

Section line_break_facts.
Import Re DtDd Reference.
Local Arguments Ascii.eqb : simpl never.

Lemma append_cons a (s t : string) :
  (String a s ++ t)%string = String a (s ++ t).
Proof. reflexivity. Qed.

Lemma string_length_app (s t : string) :
  String.length (s ++ t)%string = String.length s + String.length t.
Proof.
  induction s as [|a s IH]; [done|]. rewrite append_cons. simpl. by rewrite IH.
Qed.

Lemma drop_app_length (s t : string) :
  Py.drop (String.length s) (s ++ t)%string = t.
Proof.
  induction s as [|a s IH]; [by destruct t|]. rewrite append_cons. apply IH.
Qed.

Lemma string_app_empty (s : string) : (s ++ "")%string = s.
Proof.
  induction s as [|a s IH]; [done|]. rewrite append_cons. by rewrite IH.
Qed.

(** Text without [<] is left alone by a pattern that begins with [<]. *)
Lemma sub_text r repl text rest :
  (∀ a s, Ascii.eqb a "<" = false → match_at r false (String a s) = None) →
  Py.contains_char "<" text = false →
  sub r repl (text ++ rest) = (text ++ sub r repl rest)%string.
Proof.
  intros Hhead. induction text as [|a text IH]; intros Htext; [done|].
  cbn [Py.contains_char] in Htext. apply orb_false_iff in Htext as [Ha Htext].
  unfold sub in *. rewrite append_cons. cbn [scan]. rewrite (Hhead a _ Ha).
  cbn [fold_right]. by rewrite IH.
Qed.

(** A match at the front is replaced, and the scan goes on behind it. *)
Lemma sub_match r repl t rest c :
  t ≠ "" →
  match_at r false (t ++ rest) = Some (rest, c) →
  sub r repl (t ++ rest) = (repl ++ sub r repl rest)%string.
Proof.
  intros Ht Hm. destruct t as [|x t]; [done|].
  unfold sub. rewrite append_cons in *. cbn [scan]. rewrite Hm.
  rewrite (proj2 (Nat.ltb_lt _ _)) by (simpl; rewrite string_length_app; lia).
  cbn [fold_right]. f_equal.
  replace (String.length (String x (t ++ rest)) - String.length rest - 1)
    with (String.length t) by (simpl; rewrite string_length_app; lia).
  rewrite scan_skip by (rewrite string_length_app; lia).
  by rewrite drop_app_length.
Qed.

Lemma tag_pattern_needs_open a s :
  Ascii.eqb a "<" = false → match_at tag_pattern false (String a s) = None.
Proof.
  intros Ha. unfold match_at, tag_pattern, lit. simpl.
  by rewrite Ascii.eqb_sym, Ha.
Qed.

Lemma br_pattern_needs_open a s :
  Ascii.eqb a "<" = false → match_at br_pattern false (String a s) = None.
Proof.
  intros Ha. unfold match_at, br_pattern, lit. simpl.
  by rewrite Ascii.eqb_sym, Ha.
Qed.

End line_break_facts.

Lemma br_pattern_matches t rest :
  Reference.is_line_break t →
  Re.match_at DtDd.br_pattern false (t ++ rest) = Some (rest, []).
Proof.
  intros [-> | [-> | ->]]; [reflexivity..|].
  rewrite !append_cons. change ("" ++ rest)%string with rest.
  unfold Re.match_at, DtDd.br_pattern. cbn.
  rewrite Nat.leb_refl. reflexivity.
Qed.

Section strip_facts.

Lemma rstrip_cons a s :
  Py.rstrip (String a s) =
  match Py.rstrip s with
  | "" => if Py.isspace a then "" else String a ""
  | r => String a r
  end.
Proof. reflexivity. Qed.

Lemma rstrip_idempotent s : Py.rstrip (Py.rstrip s) = Py.rstrip s.
Proof.
  induction s as [|a s IH]; [done|]. rewrite rstrip_cons.
  destruct (Py.rstrip s) as [|b r] eqn:Hr.
  - destruct (Py.isspace a) eqn:Ha; [done|]. rewrite rstrip_cons. simpl.
    by rewrite Ha.
  - rewrite rstrip_cons, IH. done.
Qed.

Lemma rstrip_head a s :
  Py.isspace a = false → ∃ r, Py.rstrip (String a s) = String a r.
Proof.
  intros Ha. rewrite rstrip_cons. destruct (Py.rstrip s); rewrite ?Ha; by eexists.
Qed.

Lemma lstrip_head s :
  Py.lstrip s = "" ∨ ∃ a r, Py.lstrip s = String a r ∧ Py.isspace a = false.
Proof.
  induction s as [|a s IH]; [by left|]. cbn [Py.lstrip].
  destruct (Py.isspace a) eqn:Ha; [done|]. right. by exists a, s.
Qed.

(** Stripping twice is stripping once. *)
Lemma strip_idempotent s : Py.strip (Py.strip s) = Py.strip s.
Proof.
  unfold Py.strip.
  destruct (lstrip_head s) as [->|(a & r & -> & Ha)]; [done|].
  destruct (rstrip_head a r Ha) as [r' Hr]. rewrite Hr.
  cbn [Py.lstrip]. rewrite Ha, <- Hr. apply rstrip_idempotent.
Qed.

End strip_facts.

(** X1: in the result of [parse_dt_dd] the empty label is never a key, and a
    label holds the cleaned value of the first dt/dd pair whose cleaned label
    it is; so of several pairs with one label the first wins. *)
Theorem parse_dt_dd_first_label_wins (html : string) :
  (∀ key,
      DtDd.parse_dt_dd html !! key =
      if decide (key = "") then None
      else (DtDd.clean_val ∘ snd)
             <$> List.find (λ kv, String.eqb (DtDd.clean_key kv.1) key)
                           (Re.findall2 DtDd.dt_dd_pattern html)) ∧
  (∀ before k v after,
      Re.findall2 DtDd.dt_dd_pattern html = before ++ (k, v) :: after →
      DtDd.clean_key k ≠ "" →
      (∀ kv, kv ∈ before → DtDd.clean_key kv.1 ≠ DtDd.clean_key k) →
      DtDd.parse_dt_dd html !! DtDd.clean_key k = Some (DtDd.clean_val v)).
Proof.
  assert (∀ key,
      DtDd.parse_dt_dd html !! key =
      if decide (key = "") then None
      else (DtDd.clean_val ∘ snd)
             <$> List.find (λ kv, String.eqb (DtDd.clean_key kv.1) key)
                           (Re.findall2 DtDd.dt_dd_pattern html)) as Hlookup.
  { intros key. unfold DtDd.parse_dt_dd.
    by rewrite dt_dd_loop_lookup, lookup_empty. }
  split; [done|].
  intros before k v after Hpairs Hkey Hfirst.
  rewrite Hlookup, decide_False, Hpairs by done.
  clear Hpairs. induction before as [|[k' v'] before IH]; simpl.
  - by rewrite String.eqb_refl.
  - destruct (String.eqb_spec (DtDd.clean_key k') (DtDd.clean_key k)) as [Heq|_].
    + by destruct (Hfirst (k', v')); [left|].
    + apply IH. intros kv Hkv. apply Hfirst. by right.
Qed.

Lemma parse_dt_dd_first_label_wins_witness :
  DtDd.parse_dt_dd "<dt>Pay</dt><dd>100</dd><dt><b>Pay</b></dt><dd>200</dd>"
    !! "Pay" = Some "100".
Proof.
  apply (proj2 (parse_dt_dd_first_label_wins
                  "<dt>Pay</dt><dd>100</dd><dt><b>Pay</b></dt><dd>200</dd>")
           [] "Pay" "100" [("<b>Pay</b>", "200")]).
  - reflexivity.
  - discriminate.
  - intros kv Hkv. by apply elem_of_nil in Hkv.
Defined.

(** X2: every entry of the result of [parse_dt_dd] comes from a dt/dd pair
    of the markup; its label is not empty, label and value are stripped of
    surrounding white space, and the value has no two newlines in a row (a
    line of white space only may remain between two newlines). *)
Theorem parse_dt_dd_entries_clean (html key val : string) :
  DtDd.parse_dt_dd html !! key = Some val →
  key ≠ "" ∧
  (∃ k v, (k, v) ∈ Re.findall2 DtDd.dt_dd_pattern html ∧
          key = DtDd.clean_key k ∧ val = DtDd.clean_val v) ∧
  Py.strip key = key ∧ Py.strip val = val ∧
  Reference.no_double_newline val = true.
Proof.
  intros Hkey. unfold DtDd.parse_dt_dd in Hkey.
  rewrite dt_dd_loop_lookup, lookup_empty in Hkey.
  case_decide as Hne; [done|].
  destruct (List.find _ _) as [[k v]|] eqn:Hfind; [|done].
  injection Hkey as <-.
  apply find_some in Hfind as [Hin Heq]. apply String.eqb_eq in Heq.
  simpl in Heq. subst key.
  split; [done|]. split; [|split; [|split]].
  - exists k, v. by apply list_elem_of_In in Hin.
  - apply strip_idempotent.
  - apply strip_idempotent.
  - apply clean_val_no_double_newline.
Qed.

Lemma parse_dt_dd_entries_clean_witness :
  "Pay" ≠ "" ∧
  (∃ k v, (k, v) ∈ Re.findall2 DtDd.dt_dd_pattern
                     "<dt> <b>Pay</b></dt> <dd>100<br><br>per hour </dd>" ∧
          "Pay" = DtDd.clean_key k ∧
          String "1" (String "0" (String "0" (String DtDd.nl "per hour")))
          = DtDd.clean_val v) ∧
  Py.strip "Pay" = "Pay" ∧
  Py.strip (String "1" (String "0" (String "0" (String DtDd.nl "per hour"))))
  = String "1" (String "0" (String "0" (String DtDd.nl "per hour"))) ∧
  Reference.no_double_newline
    (String "1" (String "0" (String "0" (String DtDd.nl "per hour")))) = true.
Proof.
  apply (parse_dt_dd_entries_clean
           "<dt> <b>Pay</b></dt> <dd>100<br><br>per hour </dd>").
  vm_compute. reflexivity.
Defined.

Section line_break_theorem_facts.
Import Re DtDd Reference.

Lemma contains_char_app c (s t : string) :
  Py.contains_char c (s ++ t) = Py.contains_char c s || Py.contains_char c t.
Proof.
  induction s as [|a s IH]; [done|]. rewrite append_cons. simpl.
  by rewrite IH, orb_assoc.
Qed.

(** Text without [<] has no tag to strip. *)
Lemma sub_tag_text text :
  Py.contains_char "<" text = false → sub tag_pattern "" text = text.
Proof.
  intros Htext. rewrite <- (string_app_empty text) at 1.
  rewrite sub_text; [|apply tag_pattern_needs_open|done].
  apply string_app_empty.
Qed.

Lemma sub_br_text text :
  Py.contains_char "<" text = false →
  sub br_pattern (String nl "") text = text.
Proof.
  intros Htext. rewrite <- (string_app_empty text) at 1.
  rewrite sub_text; [|apply br_pattern_needs_open|done].
  apply string_app_empty.
Qed.

End line_break_theorem_facts.

(** X3: a line-break tag between two texts without markup becomes a
    newline of the value: the cleaned value is the two texts with a newline
    between them, every run of newlines collapsed to one newline and the
    ends stripped. *)
Theorem clean_val_line_break (before t after : string) :
  Py.contains_char "<" before = false →
  Py.contains_char "<" after = false →
  Reference.is_line_break t →
  DtDd.clean_val (before ++ t ++ after)
  = Py.strip (Reference.collapse_newlines false
                (before ++ String DtDd.nl after)).
Proof.
  intros Hbefore Hafter Ht. unfold DtDd.clean_val.
  assert (Re.sub DtDd.br_pattern (String DtDd.nl "") (before ++ t ++ after)
          = (before ++ String DtDd.nl after)%string) as ->.
  { rewrite sub_text; [|apply br_pattern_needs_open|done].
    rewrite (sub_match _ _ t after []);
      [|by destruct Ht as [-> | [-> | ->]]|by apply br_pattern_matches].
    by rewrite sub_br_text. }
  rewrite sub_tag_text, sub_blank_lines; [done|].
  rewrite contains_char_app. simpl. rewrite Hbefore, Hafter. done.
Qed.

Lemma clean_val_line_break_witness :
  DtDd.clean_val ("09:00-12:00" ++ "<br />" ++ "13:00-18:00")
  = Py.strip (Reference.collapse_newlines false
                ("09:00-12:00" ++ String DtDd.nl "13:00-18:00")).
Proof.
  apply clean_val_line_break; [reflexivity|reflexivity|].
  right. right. reflexivity.
Defined.

(** ** Detail pages *)

Section detail_facts.
Import DtDd.

(** [re.search] returns the leftmost match. *)
Lemma search_from_leftmost r s start start' text c :
  Re.search_from r start s = Some (start', text, c) →
  start ≤ start' ∧
  is_Some (Re.match_at r false (Py.drop (start' - start) s)) ∧
  ∀ j, j < start' - start → Re.match_at r false (Py.drop j s) = None.
Proof.
  revert start. induction s as [|a s IH]; intros start; simpl.
  - destruct (Re.match_at r false "") as [[rest c']|] eqn:Hm; [|done].
    intros [= <- _ _]. rewrite Nat.sub_diag. simpl. rewrite Hm.
    split; [done|]. split; [by eexists|]. intros j Hj. lia.
  - destruct (Re.match_at r false (String a s)) as [[rest c']|] eqn:Hm.
    + intros [= <- _ _]. rewrite Nat.sub_diag. simpl. rewrite Hm.
      split; [done|]. split; [by eexists|]. intros j Hj. lia.
    + intros Hs. destruct (IH _ Hs) as (Hle & Hhere & Hbefore).
      split; [lia|].
      replace (start' - start) with (S (start' - S start)) by lia. simpl.
      split; [done|]. intros [|j] Hj; [done|]. simpl. apply Hbefore. lia.
Qed.

Lemma parse_meta_lookup html meta_patterns meta key :
  parse_meta html meta_patterns = Some meta →
  meta !! key
  = patterns_of meta_patterns !! key ≫= λ pat, hit_value (meta_of html pat).
Proof.
  unfold parse_meta. case_bool_decide; [|done]. intros [= <-].
  rewrite lookup_omap, lookup_fmap.
  by destruct (patterns_of meta_patterns !! key).
Qed.

Lemma patterns_of_title meta_patterns :
  patterns_of meta_patterns !! "title"
  = Some (default title_pattern (default ∅ meta_patterns !! "title")).
Proof.
  unfold patterns_of, defaults.
  destruct (default ∅ meta_patterns !! "title") as [pat|] eqn:Hpat; simpl.
  - by apply lookup_union_Some_l.
  - rewrite lookup_union_r by done. apply lookup_singleton_eq.
Qed.

End detail_facts.

(** X4: the meta pass always has a pattern named [title], the configured one
    or else the default; a pattern contributes the cleaned first group of its
    leftmost match; in the record of [crawl_detail] a key of the meta result
    holds the meta value, also when the label/value pass has the key, any
    other key holds what the label/value pass gave it, and in the end the key
    of the id field (by default [original_id]) holds the item identifier in
    place of whatever it held. *)
Theorem crawl_detail_merge_precedence
    (fetch_html : string → option string) (cfg : HttpEngine.config)
    (item_id durl html : string) (meta : gmap string string) :
  HttpEngine.detail_url cfg = Some durl →
  fetch_html (default "" (HttpEngine.base_url cfg)
              ++ Py.replace durl "{id}" item_id)%string = Some html →
  DtDd.parse_meta html (Some (default ∅ (HttpEngine.meta_patterns cfg)))
    = Some meta →
  let patterns :=
    DtDd.patterns_of (Some (default ∅ (HttpEngine.meta_patterns cfg))) in
  let id_field := default "original_id" (HttpEngine.id_field cfg) in
  patterns !! "title"
    = Some (default DtDd.title_pattern
              (default ∅ (HttpEngine.meta_patterns cfg) !! "title")) ∧
  (∀ key val,
      meta !! key = Some val ↔
      ∃ pat start text c g,
        patterns !! key = Some pat ∧
        Re.search pat html = Some (start, text, c) ∧
        (∀ j, j < start → Re.match_at pat false (Py.drop j html) = None) ∧
        Re.group c 1 = Some g ∧
        val = Py.strip (Re.sub DtDd.tag_pattern "" g)) ∧
  ∃ data,
    HttpEngine.crawl_detail fetch_html cfg item_id = Some data ∧
    (∀ key val, key ≠ id_field → meta !! key = Some val → data !! key = Some val) ∧
    (∀ key, key ≠ id_field → meta !! key = None →
            data !! key = DtDd.parse_dt_dd html !! key) ∧
    data !! id_field = Some item_id.
Proof.
  intros Hdurl Hfetch Hmeta patterns id_field.
  split.
  { apply (patterns_of_title (Some (default ∅ (HttpEngine.meta_patterns cfg)))). }
  split.
  - intros key val. rewrite (parse_meta_lookup _ _ _ key Hmeta).
    fold patterns. unfold DtDd.meta_of. split.
    + destruct (patterns !! key) as [pat|]; [simpl|done].
      destruct (Re.search pat html) as [[[start text] c]|] eqn:Hs; [|done].
      destruct (Re.group c 1) as [g|] eqn:Hg; [|done].
      intros [= <-]. exists pat, start, text, c, g.
      repeat split; try done.
      intros j Hj. apply search_from_leftmost in Hs as (_ & _ & Hbefore).
      apply Hbefore. lia.
    + intros (pat & start & text & c & g & Hpat & Hs & _ & Hg & ->).
      rewrite Hpat. simpl. by rewrite Hs, Hg.
  - unfold HttpEngine.crawl_detail. rewrite Hdurl, Hfetch, Hmeta.
    eexists. split; [reflexivity|]. fold id_field. repeat split.
    + intros key val Hne Hval. rewrite lookup_insert_ne by done.
      by apply lookup_union_Some_l.
    + intros key Hne Hnone. rewrite lookup_insert_ne by done.
      by apply lookup_union_r.
    + apply lookup_insert_eq.
Qed.

Lemma crawl_detail_merge_precedence_witness :
  ∃ data,
    HttpEngine.crawl_detail DetailExample.detail_site DetailExample.detail_config "7"
      = Some data ∧
    data !! "title" = Some "Job 7" ∧
    data !! "Pay" = Some "100" ∧
    data !! "original_id" = Some "7".
Proof.
  destruct (crawl_detail_merge_precedence DetailExample.detail_site
              DetailExample.detail_config "7" "/detail/{id}" DetailExample.detail_html
              {[ "title" := "Job 7" ]} eq_refl eq_refl eq_refl)
    as (_ & _ & data & Hrun & Hmeta & Hother & Hid).
  exists data. split; [exact Hrun|]. split; [|split].
  - apply Hmeta; [discriminate|reflexivity].
  - rewrite (Hother "Pay"); [reflexivity|discriminate|reflexivity].
  - exact Hid.
Defined.

Section capture_facts.
Import Re Reference.

Lemma binds1_cons n t c : binds1 c → binds1 ((n, t) :: c).
Proof.
  unfold binds1, group. simpl. destruct (Nat.eqb n 1); [by eexists|done].
Qed.

Lemma binds1_here t c : binds1 ((1, t) :: c).
Proof. unfold binds1, group. simpl. by eexists. Qed.

(** A match keeps the groups that are bound when it starts, provided what
    follows it does. *)
Lemma m_keeps_binding r :
  ∀ s c k,
    (∀ s' c' x, binds1 c' → k s' c' = Some x → binds1 x.2) →
    binds1 c → ∀ x, m r s c k = Some x → binds1 x.2.
Proof.
  induction r as [|f|r1 IH1 r2 IH2|r1 IH1 r2 IH2|greedy r IH|n r IH|];
    intros s c k Hk Hc x; cbn [m].
  - by apply Hk.
  - destruct s as [|a s]; [done|]. destruct (f a); [by apply Hk|done].
  - apply IH1; [|done]. intros s' c' y Hc'. by apply IH2.
  - unfold orelse. destruct (m r1 s c k) eqn:H1.
    + intros [= <-]. by apply (IH1 s c k).
    + by apply IH2.
  - generalize (String.length s). intros fuel. revert s c Hc x.
    induction fuel as [|fuel IHf]; intros s c Hc x; cbn [star_loop];
      set (again := m r s c _);
      (assert (∀ y, again = Some y → binds1 y.2) as Hagain;
       [intros y; apply IH; [|done]; intros s' c' z Hc';
        try destruct (_ <? _); by (apply IHf || apply Hk)|]);
      unfold orelse; destruct greedy.
    + destruct again; [intros [= <-]; by apply Hagain|by apply Hk].
    + destruct (k s c) eqn:Hks; [intros [= <-]; by apply (Hk s c)|].
      apply Hagain.
    + destruct again; [intros [= <-]; by apply Hagain|by apply Hk].
    + destruct (k s c) eqn:Hks; [intros [= <-]; by apply (Hk s c)|].
      apply Hagain.
  - apply IH; [|done]. intros s' c' y Hc'. apply Hk. by apply binds1_cons.
  - destruct s as [|a [|b s]]; [by apply Hk| |done].
    destruct (Ascii.eqb a "010"); [by apply Hk|done].
Qed.

(** A match succeeds only through what follows it. *)
Lemma m_through_continuation r :
  ∀ s c k,
    (∀ s' c' x, k s' c' = Some x → binds1 x.2) →
    ∀ x, m r s c k = Some x → binds1 x.2.
Proof.
  induction r as [|f|r1 IH1 r2 IH2|r1 IH1 r2 IH2|greedy r IH|n r IH|];
    intros s c k Hk x; cbn [m].
  - by apply Hk.
  - destruct s as [|a s]; [done|]. destruct (f a); [by apply Hk|done].
  - apply IH1. intros s' c' y. by apply IH2.
  - unfold orelse. destruct (m r1 s c k) eqn:H1.
    + intros [= <-]. by apply (IH1 s c k).
    + by apply IH2.
  - generalize (String.length s). intros fuel. revert s c x.
    induction fuel as [|fuel IHf]; intros s c x; cbn [star_loop];
      set (again := m r s c _);
      (assert (∀ y, again = Some y → binds1 y.2) as Hagain;
       [intros y; apply IH; intros s' c' z;
        try destruct (_ <? _); by (apply IHf || apply Hk)|]);
      unfold orelse; destruct greedy.
    + destruct again; [intros [= <-]; by apply Hagain|by apply Hk].
    + destruct (k s c) eqn:Hks; [intros [= <-]; by apply (Hk s c)|].
      apply Hagain.
    + destruct again; [intros [= <-]; by apply Hagain|by apply Hk].
    + destruct (k s c) eqn:Hks; [intros [= <-]; by apply (Hk s c)|].
      apply Hagain.
  - apply IH. intros s' c' y. by apply Hk.
  - destruct s as [|a [|b s]]; [by apply Hk| |done].
    destruct (Ascii.eqb a "010"); [by apply Hk|done].
Qed.

Lemma m_binds_group1 r :
  has_group1 r →
  ∀ s c k,
    (∀ s' c' x, binds1 c' → k s' c' = Some x → binds1 x.2) →
    ∀ x, m r s c k = Some x → binds1 x.2.
Proof.
  induction 1 as [r|r1 r2 _ IH|r1 r2 _ IH]; intros s c k Hk x; cbn [m].
  - apply m_through_continuation. intros s' c' y. apply Hk, binds1_here.
  - apply IH. intros s' c' y Hc'. by apply m_keeps_binding.
  - apply m_through_continuation. intros s' c' y. by apply IH.
Qed.

Lemma search_binds_group1 r s start text c :
  has_group1 r → search r s = Some (start, text, c) → binds1 c.
Proof.
  intros Hr. unfold search. generalize 0. revert start text c.
  induction s as [|a s IH]; intros start text c n; cbn [search_from].
  - destruct (match_at r false "") as [[rest c']|] eqn:Hm; [|done].
    intros [= _ _ <-]. unfold match_at in Hm.
    apply (m_binds_group1 r Hr _ _ _) in Hm; [done|].
    intros s' c'' x Hc''. destruct (_ && _); [done|]. by intros [= <-].
  - destruct (match_at r false (String a s)) as [[rest c']|] eqn:Hm.
    + intros [= _ _ <-]. unfold match_at in Hm.
      apply (m_binds_group1 r Hr _ _ _) in Hm; [done|].
      intros s' c'' x Hc''. destruct (_ && _); [done|]. by intros [= <-].
    + apply IH.
Qed.

Lemma title_pattern_has_group1 : has_group1 DtDd.title_pattern.
Proof.
  unfold DtDd.title_pattern. simpl.
  do 3 apply has_group1_right. apply has_group1_left, has_group1_here.
Qed.

End capture_facts.

(** X5: the keys of the meta result are among [title] and the configured
    pattern names; [parse_meta] raises exactly when the leftmost match of
    some pattern leaves group 1 unbound, so that there is no value to take.
    It never raises when every configured pattern has group 1 as a factor of
    its top-level sequence, outside every alternative and repetition, and in
    particular when no pattern is configured. *)
Theorem parse_meta_keys_and_errors
    (html : string) (meta_patterns : option (gmap string Re.regex)) :
  (∀ meta key,
      DtDd.parse_meta html meta_patterns = Some meta →
      key ∈ dom meta →
      key = "title" ∨ key ∈ dom (default ∅ meta_patterns)) ∧
  (DtDd.parse_meta html meta_patterns = None ↔
   ∃ key pat start text c,
     DtDd.patterns_of meta_patterns !! key = Some pat ∧
     Re.search pat html = Some (start, text, c) ∧
     Re.group c 1 = None) ∧
  ((∀ key pat, default ∅ meta_patterns !! key = Some pat →
               Reference.has_group1 pat) →
   is_Some (DtDd.parse_meta html meta_patterns)) ∧
  is_Some (DtDd.parse_meta html None).
Proof.
  assert (DtDd.parse_meta html meta_patterns = None ↔
          ∃ key pat start text c,
            DtDd.patterns_of meta_patterns !! key = Some pat ∧
            Re.search pat html = Some (start, text, c) ∧
            Re.group c 1 = None) as Hraise.
  { unfold DtDd.parse_meta. case_bool_decide as Hall; split; try done.
    - intros (key & pat & start & text & c & Hpat & Hs & Hg).
      exfalso. apply (Hall key DtDd.Raises); [|done].
      rewrite lookup_fmap, Hpat. simpl. unfold DtDd.meta_of. by rewrite Hs, Hg.
    - intros _. apply map_not_Forall in Hall;
      [|intros ? ?; apply not_dec, DtDd.meta_hit_eq_dec].
      destruct Hall as (key & h & Hkey & Hh).
      destruct h; try (exfalso; apply Hh; discriminate). clear Hh.
      rewrite lookup_fmap in Hkey.
      destruct (DtDd.patterns_of meta_patterns !! key) as [pat|] eqn:Hpat;
        [|done].
      simpl in Hkey. injection Hkey as Hkey. unfold DtDd.meta_of in Hkey.
      destruct (Re.search pat html) as [[[start text] c]|] eqn:Hs; [|done].
      destruct (Re.group c 1) eqn:Hg; [done|].
      by exists key, pat, start, text, c. }
  assert ((∀ key pat, default ∅ meta_patterns !! key = Some pat →
                      Reference.has_group1 pat) →
          is_Some (DtDd.parse_meta html meta_patterns)) as Hok.
  { intros Hgroups.
    destruct Hraise as [Hraise _].
    destruct (DtDd.parse_meta html meta_patterns); [by eexists|].
    destruct (Hraise eq_refl) as (key & pat & start & text & c & Hpat & Hs & Hg).
    assert (Reference.has_group1 pat) as Hpat1.
    { unfold DtDd.patterns_of in Hpat. apply lookup_union_Some_raw in Hpat.
      destruct Hpat as [Hpat|[_ Hpat]]; [by apply (Hgroups key)|].
      unfold DtDd.defaults in Hpat.
      apply lookup_singleton_Some in Hpat as [_ <-].
      apply title_pattern_has_group1. }
    apply (search_binds_group1 _ _ _ _ _ Hpat1) in Hs.
    unfold Reference.binds1 in Hs. rewrite Hg in Hs. by destruct Hs. }
  split; [|split; [done|split; [done|]]].
  - intros meta key Hmeta Hkey. apply elem_of_dom in Hkey as [v Hv].
    rewrite (parse_meta_lookup _ _ _ key Hmeta) in Hv.
    destruct (DtDd.patterns_of meta_patterns !! key) as [pat|] eqn:Hpat; [|done].
    unfold DtDd.patterns_of in Hpat. apply lookup_union_Some_raw in Hpat.
    destruct Hpat as [Hpat|[_ Hpat]].
    + right. apply elem_of_dom. by eexists.
    + left. unfold DtDd.defaults in Hpat.
      by apply lookup_singleton_Some in Hpat as [<- _].
  - clear Hraise Hok.
    destruct (DtDd.parse_meta html None) eqn:Hp; [by eexists|].
    exfalso. unfold DtDd.parse_meta in Hp.
    case_bool_decide as Hall; [done|].
    apply map_not_Forall in Hall;
      [|intros ? ?; apply not_dec, DtDd.meta_hit_eq_dec].
    destruct Hall as (key & h & Hkey & Hh).
    destruct h; try (exfalso; apply Hh; discriminate). clear Hh.
    rewrite lookup_fmap in Hkey.
    destruct (DtDd.patterns_of None !! key) as [pat|] eqn:Hpat; [|done].
    unfold DtDd.patterns_of, DtDd.defaults in Hpat. simpl in Hpat.
    rewrite (left_id_L ∅ (∪)) in Hpat.
    apply lookup_singleton_Some in Hpat as [_ <-].
    simpl in Hkey. injection Hkey as Hkey. unfold DtDd.meta_of in Hkey.
    destruct (Re.search _ html) as [[[start text] c]|] eqn:Hs; [|done].
    apply (search_binds_group1 _ _ _ _ _ title_pattern_has_group1) in Hs.
    destruct Hs as [g Hg]. by rewrite Hg in Hkey.
Qed.

Lemma parse_meta_keys_and_errors_witness :
  is_Some (DtDd.parse_meta DetailExample.detail_html
             (Some {[ "pay" := Re.seq [ Re.str "<dd>"; Re.Group 1 (Re.plus Re.digit) ] ]})).
Proof.
  apply (parse_meta_keys_and_errors DetailExample.detail_html
           (Some {[ "pay" := Re.seq [ Re.str "<dd>"; Re.Group 1 (Re.plus Re.digit) ] ]})).
  intros key pat Hpat. simpl in Hpat.
  apply lookup_singleton_Some in Hpat as [_ <-].
  apply Reference.has_group1_right, Reference.has_group1_left,
    Reference.has_group1_here.
Defined.

(** X6: [crawl_and_normalize] fails when [crawl_detail] fails and otherwise
    returns the normalized record of [crawl_detail].  The schema field
    [original_id] then holds the raw value under the label that the mapping
    names for it, and the empty string when the mapping names no label or
    the raw record lacks it; so the item identifier, which [crawl_detail]
    stores under the id field, is in [original_id] when the mapping names
    the id field.  When the configuration has no mapping, every schema field
    is empty and the overflow is the whole raw record, the identifier
    included. *)
Theorem crawl_and_normalize_item_id
    (fetch_html : string → option string) (cfg : HttpEngine.config)
    (item_id : string) :
  let id_field := default "original_id" (HttpEngine.id_field cfg) in
  let mapping := default ∅ (HttpEngine.mapping cfg) in
  (HttpEngine.crawl_detail fetch_html cfg item_id = None →
   HttpEngine.crawl_and_normalize fetch_html cfg item_id = None) ∧
  (∀ raw,
      HttpEngine.crawl_detail fetch_html cfg item_id = Some raw →
      raw !! id_field = Some item_id ∧
      HttpEngine.crawl_and_normalize fetch_html cfg item_id
      = Some (Schema.normalize raw mapping) ∧
      Schema.normalize raw mapping !! "original_id"
      = Some (Schema.VStr
                (match mapping !! "original_id" with
                 | Some label => default "" (raw !! label)
                 | None => ""
                 end)) ∧
      (mapping !! "original_id" = Some id_field →
       Schema.normalize raw mapping !! "original_id"
       = Some (Schema.VStr item_id)) ∧
      (HttpEngine.mapping cfg = None →
       (∀ f, f ∈ Schema.FIELDS →
             Schema.normalize raw mapping !! f = Some (Schema.VStr "")) ∧
       Schema.normalize raw mapping !! "_extra" = Some (Schema.VDict raw))).
Proof.
  intros id_field mapping. unfold HttpEngine.crawl_and_normalize. split.
  { by intros ->. }
  intros raw Hraw. rewrite Hraw. simpl.
  assert (raw !! id_field = Some item_id) as Hid.
  { unfold HttpEngine.crawl_detail in Hraw.
    destruct (HttpEngine.detail_url cfg); [|done].
    destruct (fetch_html _); [|done].
    destruct (DtDd.parse_meta _ _); [|done].
    injection Hraw as <-. apply lookup_insert_eq. }
  split; [done|]. split; [done|].
  assert ("original_id" ∈ Schema.FIELDS) as Hfield.
  { apply (bool_decide_unpack _). vm_compute. exact I. }
  split; [|split].
  - rewrite normalize_lookup_field by done.
    by destruct (mapping !! "original_id").
  - intros Hmap. rewrite normalize_lookup_field by done.
    rewrite Hmap. simpl. by rewrite Hid.
  - subst mapping. intros ->. simpl. split.
    + intros f Hf. rewrite normalize_lookup_field by done.
      by rewrite lookup_empty.
    + assert (Schema.extra_of raw ∅ = raw) as Hextra.
      { apply map_eq. intros k. apply option_eq. intros v.
        rewrite extra_of_lookup. split; [by intros [? _]|].
        intros Hk. split; [done|]. intros f. by rewrite lookup_empty. }
      rewrite normalize_lookup_extra, Hextra.
      rewrite decide_False; [done|]. intros ->.
      by rewrite lookup_empty in Hid.
Qed.

Lemma crawl_and_normalize_item_id_witness :
  ∃ record,
    HttpEngine.crawl_and_normalize DetailExample.detail_site
      DetailExample.detail_config "7" = Some record ∧
    record !! "original_id" = Some (Schema.VStr "").
Proof.
  destruct (proj2 (crawl_and_normalize_item_id DetailExample.detail_site
                     DetailExample.detail_config "7")
              {[ "title" := "Job 7"; "Pay" := "100"; "original_id" := "7" ]})
    as (_ & Hrun & Hid & _).
  - vm_compute. reflexivity.
  - eexists. split; [exact Hrun|]. exact Hid.
Defined.

(** ** More on pagination *)

Section pagination_facts.
Import HttpEngine Reference.
Variable fetch_html : string → option string.
Variable time_sleep : delay_value → bool.
Variables (pattern : Re.regex) (burl lurl : string) (start stop : Z).
Variable delay : delay_value.

Local Abbreviation fetch_event := (λ p, EvFetch p (page_url burl lurl p)).
Local Abbreviation loop :=
  (page_loop fetch_html time_sleep pattern burl lurl start stop delay).

Lemma try_page_events page st :
  events (try_page fetch_html pattern start page (page_url burl lurl page) st).1
  = events st ++ [fetch_event page].
Proof. unfold try_page. by destruct (fetch_html _). Qed.

Lemma with_delays_cons e e' rest :
  with_delays (e :: e' :: rest) = e :: EvSleep :: with_delays (e' :: rest).
Proof. reflexivity. Qed.

(** The events of a loop that returns: the fetches of a prefix of the
    pages, with a delay between every two. *)
Lemma page_loop_events pages st st' :
  (∀ pre p post, pages = pre ++ p :: post → ((p < stop)%Z ↔ post ≠ [])) →
  loop pages st = Some st' →
  ∃ done',
    (pages ≠ [] → done' ≠ []) ∧
    events st' = events st ++ with_delays (fetch_event <$> done').
Proof.
  revert st. induction pages as [|page pages IH]; intros st Hlast.
  - intros [= <-]. exists []. split; [done|]. simpl. by rewrite app_nil_r.
  - cbn [page_loop]. pose proof (try_page_events page st) as Hev.
    destruct (try_page _ _ _ _ _ _) as [st1 brk]. simpl in Hev.
    destruct brk.
    + intros [= <-]. exists [page]. split; [done|]. by rewrite Hev.
    + pose proof (Hlast [] page pages eq_refl) as Hpage.
      destruct pages as [|q pages].
      * rewrite bool_decide_eq_false_2 by (intros Hlt; by apply Hpage in Hlt).
        intros [= <-]. exists [page]. split; [done|]. by rewrite Hev.
      * rewrite bool_decide_eq_true_2 by (by apply Hpage).
        destruct (time_sleep delay); [|done]. intros Hloop.
        apply IH in Hloop as (done' & Hne & Hev').
        2:{ intros pre p post Hsplit. apply (Hlast (page :: pre)).
            by rewrite Hsplit. }
        exists (page :: done'). split; [done|].
        rewrite Hev'. simpl events. rewrite Hev.
        destruct done' as [|q' done']; [by destruct Hne|].
        rewrite !fmap_cons, with_delays_cons.
        by rewrite <- !app_assoc.
Qed.

(** A range of one page or none needs no delay. *)
Lemma page_loop_short_range st :
  (stop ≤ start)%Z → is_Some (loop (range start (stop + 1)) st).
Proof.
  intros Hshort. unfold range.
  destruct (decide (stop = start)) as [->|Hne].
  - replace (start + 1 - start)%Z with 1%Z by lia.
    change (seqZ start 1) with [start]. cbn [page_loop].
    destruct (try_page _ _ _ _ _ _) as [st1 [|]]; [by eexists|].
    rewrite bool_decide_eq_false_2 by lia. by eexists.
  - rewrite seqZ_nil by lia. by eexists.
Qed.

(** A longer range starts with the start page and has a page after it. *)
Lemma range_long a b :
  (a < b)%Z → ∃ rest, range a (b + 1) = a :: rest.
Proof.
  intros Hlt. unfold range. rewrite seqZ_cons by lia. by eexists.
Qed.

Lemma fetched_cons_fetch p u evs : fetched (EvFetch p u :: evs) = p :: fetched evs.
Proof. reflexivity. Qed.

Lemma fetched_cons_sleep evs : fetched (EvSleep :: evs) = fetched evs.
Proof. reflexivity. Qed.

Lemma fetched_with_delays pages :
  fetched (with_delays (fetch_event <$> pages)) = pages.
Proof.
  induction pages as [|p [|q pages] IH]; [done..|].
  rewrite !fmap_cons, with_delays_cons.
  rewrite fmap_cons in IH.
  by rewrite fetched_cons_fetch, fetched_cons_sleep, IH.
Qed.

End pagination_facts.

(** In a range every page but the last lies before the last. *)
Lemma range_before_last a b pre p post :
  HttpEngine.range a (b + 1) = pre ++ p :: post → (p < b)%Z ↔ post ≠ [].
Proof.
  intros Hrange. split.
  - intros Hlt ->. symmetry in Hrange. apply range_last in Hrange. lia.
  - intros Hpost. destruct post as [|x post]; [done|].
    assert (HttpEngine.range a (b + 1) !! S (List.length pre) = Some x) as Hx.
    { rewrite Hrange. rewrite lookup_app_r by lia.
      by replace (S (List.length pre) - List.length pre) with 1 by lia. }
    assert (HttpEngine.range a (b + 1) !! List.length pre = Some p) as Hp.
    { rewrite Hrange. by apply list_lookup_middle. }
    unfold HttpEngine.range in Hx, Hp. apply lookup_seqZ in Hx, Hp. lia.
Qed.

(** X7: [crawl_list_pages] raises exactly when the list URL template or
    the identifier pattern is missing, or when the range has more than one
    page and the delay between two pages raises.  A crawl that returns has
    fetched pages of the range from the start page to the end page only,
    each at most once, and no more of them than [max_pages] when that is
    given; with an empty range it fetches nothing and returns no
    identifier. *)
Theorem crawl_list_pages_page_budget
    (fetch_html : string → option string)
    (time_sleep : HttpEngine.delay_value → bool) (cfg : HttpEngine.config)
    (max_pages : option Z) :
  let start := default 1%Z (HttpEngine.start_page cfg) in
  let last := default 1%Z (HttpEngine.end_page cfg) in
  let stop := HttpEngine.last_page start last max_pages in
  let delay := default (HttpEngine.Seconds 1 1) (HttpEngine.delay cfg) in
  (HttpEngine.run_list_pages fetch_html time_sleep cfg max_pages = None ↔
   HttpEngine.list_url cfg = None ∨ HttpEngine.id_pattern cfg = None ∨
   ((start < stop)%Z ∧ time_sleep delay = false)) ∧
  (∀ st,
      HttpEngine.run_list_pages fetch_html time_sleep cfg max_pages = Some st →
      NoDup (HttpEngine.fetched (HttpEngine.events st)) ∧
      (∀ p, p ∈ HttpEngine.fetched (HttpEngine.events st) →
            (start ≤ p ≤ last)%Z) ∧
      (∀ n, max_pages = Some n → n ≠ 0%Z →
            List.length (HttpEngine.fetched (HttpEngine.events st))
            ≤ Z.to_nat n) ∧
      ((last < start)%Z →
       HttpEngine.events st = [] ∧ HttpEngine.all_ids st = [])).
Proof.
  intros start last stop delay. unfold HttpEngine.run_list_pages.
  destruct (HttpEngine.list_url cfg) as [lurl|];
    [|split; [split; [by left|done]|done]].
  destruct (HttpEngine.id_pattern cfg) as [pattern|];
    [|split; [split; [by (right; left)|done]|done]].
  fold start last stop delay.
  set (burl := default "" (HttpEngine.base_url cfg)). split.
  { split.
    - intros Hnone. right; right.
      destruct (decide (start < stop)%Z) as [Hlong|Hshort].
      + split; [done|]. destruct (time_sleep delay) eqn:Hsleep; [|done].
        destruct (page_loop_returns fetch_html time_sleep pattern burl lurl
                    start stop delay (HttpEngine.range start (stop + 1))
                    (HttpEngine.CrawlState [] ∅ []) Hsleep) as [st Hst].
        congruence.
      + destruct (page_loop_short_range fetch_html time_sleep pattern burl
                    lurl start stop delay (HttpEngine.CrawlState [] ∅ []))
          as [st Hst]; [lia|congruence].
    - intros [?|[?|[Hlong Hsleep]]]; [done..|].
      destruct (range_long start stop Hlong) as [rest ->].
      apply page_loop_raises; [done|lia|done]. }
  intros st Hrun.
  destruct (page_loop_spec _ _ _ _ _ _ _ _ _ _ [] _ Hrun)
    as (done & (_ & _ & Hdone) & Hprefix & _).
  { repeat split; simpl; set_solver. }
  simpl in Hdone. rewrite Hdone.
  assert (stop ≤ last)%Z as Hstop.
  { subst stop. unfold HttpEngine.last_page.
    destruct max_pages as [n|]; [|lia]. case_bool_decide; lia. }
  assert (NoDup (HttpEngine.range start (stop + 1))) as Hnd
    by apply NoDup_seqZ.
  destruct Hprefix as [rest Hrange].
  split; [|split; [|split]].
  - rewrite Hrange in Hnd. by apply NoDup_app in Hnd as [? _].
  - intros p Hp.
    assert (p ∈ HttpEngine.range start (stop + 1)) as Hin
      by (rewrite Hrange; apply elem_of_app; by left).
    unfold HttpEngine.range in Hin. apply elem_of_seqZ in Hin. lia.
  - intros n Hmax Hn.
    assert (List.length done ≤ List.length (HttpEngine.range start (stop + 1)))
      as Hlen by (rewrite Hrange, length_app; lia).
    unfold HttpEngine.range in Hlen. rewrite length_seqZ in Hlen.
    subst stop. unfold HttpEngine.last_page in Hlen. rewrite Hmax in Hlen.
    rewrite bool_decide_eq_false_2 in Hlen by done. lia.
  - intros Hempty.
    assert (HttpEngine.range start (stop + 1) = []) as Hnil.
    { unfold HttpEngine.range. apply seqZ_nil. lia. }
    rewrite Hnil in Hrun. by injection Hrun as <-.
Qed.

Lemma crawl_list_pages_page_budget_witness :
  (∃ st,
      HttpEngine.run_list_pages Examples.site Examples.time_sleep
        (Examples.site_config 3) (Some 1%Z) = Some st ∧
      List.length (HttpEngine.fetched (HttpEngine.events st)) ≤ 1) ∧
  HttpEngine.run_list_pages Examples.site Examples.time_sleep
    (Examples.hasty_config 3) None = None.
Proof.
  split.
  - eexists. split; [reflexivity|].
    destruct (proj2 (crawl_list_pages_page_budget Examples.site
                       Examples.time_sleep (Examples.site_config 3)
                       (Some 1%Z)) _ eq_refl)
      as (_ & _ & Hbudget & _).
    apply (Hbudget 1%Z); [reflexivity|discriminate].
  - apply (proj1 (crawl_list_pages_page_budget Examples.site
                    Examples.time_sleep (Examples.hasty_config 3) None)).
    right; right. split; reflexivity.
Defined.

(** X8: the politeness delay comes between two fetches and nowhere else:
    the events of a crawl that returns are its fetches with one delay
    between every two of them, so the crawl neither starts nor ends with a
    delay. *)
Theorem crawl_list_pages_delays_between_fetches
    (fetch_html : string → option string)
    (time_sleep : HttpEngine.delay_value → bool) (cfg : HttpEngine.config)
    (max_pages : option Z) (st : HttpEngine.crawl_state) :
  HttpEngine.run_list_pages fetch_html time_sleep cfg max_pages = Some st →
  ∃ lurl,
    HttpEngine.list_url cfg = Some lurl ∧
    HttpEngine.events st
    = Reference.with_delays
        ((λ p, HttpEngine.EvFetch p
                 (HttpEngine.page_url (default "" (HttpEngine.base_url cfg))
                    lurl p))
           <$> HttpEngine.fetched (HttpEngine.events st)).
Proof.
  unfold HttpEngine.run_list_pages.
  destruct (HttpEngine.list_url cfg) as [lurl|]; [|done].
  destruct (HttpEngine.id_pattern cfg) as [pattern|]; [|done].
  intros Hrun. exists lurl. split; [done|].
  apply page_loop_events in Hrun as (done & _ & ->).
  - simpl. by rewrite fetched_with_delays.
  - intros pre p post. apply range_before_last.
Qed.

Lemma crawl_list_pages_delays_between_fetches_witness :
  ∃ st lurl,
    HttpEngine.list_url (Examples.site_config 3) = Some lurl ∧
    HttpEngine.events st
    = Reference.with_delays
        ((λ p, HttpEngine.EvFetch p
                 (HttpEngine.page_url
                    (default "" (HttpEngine.base_url (Examples.site_config 3)))
                    lurl p))
           <$> HttpEngine.fetched (HttpEngine.events st)).
Proof.
  eexists.
  apply (crawl_list_pages_delays_between_fetches Examples.flaky_site
           Examples.time_sleep (Examples.site_config 3) None).
  reflexivity.
Defined.

(** ** Links *)

Section link_facts.
Import LinkExtractor.

Lemma startswith_app (s t : string) : Py.startswith (s ++ t) s = true.
Proof.
  induction s as [|a s IH]; [by destruct t|].
  rewrite append_cons. simpl. by rewrite Ascii.eqb_refl.
Qed.

Lemma find_is_Some {A} (f : A → bool) (l : list A) :
  is_Some (List.find f l) ↔ ∃ x, x ∈ l ∧ f x = true.
Proof.
  split.
  - intros [x Hx]. apply find_some in Hx as [Hin Hf].
    exists x. by rewrite list_elem_of_In.
  - intros (x & Hin & Hf). destruct (List.find f l) eqn:Hfind; [by eexists|].
    apply list_elem_of_In in Hin.
    pose proof (find_none _ _ Hfind x Hin) as Hno. congruence.
Qed.

Lemma existsb_elem_of {A} (f : A → bool) (l : list A) :
  existsb f l = true ↔ ∃ x, x ∈ l ∧ f x = true.
Proof.
  rewrite existsb_exists. split; intros (x & Hin & Hf); exists x.
  - by rewrite list_elem_of_In.
  - by rewrite <- list_elem_of_In.
Qed.

Lemma selector_matches_class cls e :
  selector_matches (String "." cls) e = bool_decide (cls ∈ classes e).
Proof. reflexivity. Qed.

Lemma selector_matches_landmark selector e :
  selector ∈ nav_selectors →
  selector_matches selector e = true ↔
  (selector ∈ ["nav"; "header"; "footer"] ∧ tag e = selector) ∨
  (∃ cls, selector = String "." cls ∧ cls ∈ classes e ∧
          cls ∈ ["nav"; "navigation"; "menu"; "sidebar"]).
Proof.
  intros Hsel. unfold nav_selectors in Hsel.
  repeat (apply elem_of_cons in Hsel as [->|Hsel]);
    [..|by apply elem_of_nil in Hsel].
  all: first
    [ rewrite selector_matches_class, bool_decide_eq_true; split;
      [ intros Hcls; right; eexists; split; [reflexivity|]; split; [done|];
        set_solver
      | intros [[Hin _]|(cls & [= <-] & Hcls & _)]; [|done];
        repeat (apply elem_of_cons in Hin as [Hin|Hin]; [discriminate|]);
        by apply elem_of_nil in Hin ]
    | change (selector_matches ?sel e) with (String.eqb sel (tag e));
      rewrite String.eqb_eq; split;
      [ intros <-; left; split; [set_solver|done]
      | intros [[_ Htag]|(cls & Hdot & _)]; [done|discriminate] ] ].
Qed.

End link_facts.

(** X9: a link is in navigation exactly when the anchor itself or one of its
    ancestors is a [nav], [header] or [footer] element or has one of the
    classes [nav], [navigation], [menu] and [sidebar]. *)
Theorem is_navigation_link_landmarks (a : LinkExtractor.anchor) :
  LinkExtractor._is_navigation_link a = true ↔
  ∃ e, e ∈ LinkExtractor.self a :: LinkExtractor.ancestors a ∧
       (LinkExtractor.tag e ∈ ["nav"; "header"; "footer"] ∨
        ∃ cls, cls ∈ LinkExtractor.classes e ∧
               cls ∈ ["nav"; "navigation"; "menu"; "sidebar"]).
Proof.
  unfold LinkExtractor._is_navigation_link. rewrite existsb_elem_of. split.
  - intros (selector & Hsel & Hclosest).
    apply bool_decide_eq_true in Hclosest.
    unfold LinkExtractor.closest in Hclosest.
    apply find_is_Some in Hclosest as (e & He & Hmatch).
    exists e. split; [done|].
    apply selector_matches_landmark in Hmatch; [|done].
    destruct Hmatch as [[Hin ->]|(cls & _ & Hcls & Hin)]; [by left|].
    right. by exists cls.
  - intros (e & He & [Htag|(cls & Hcls & Hin)]).
    + exists (LinkExtractor.tag e).
      assert (LinkExtractor.tag e ∈ LinkExtractor.nav_selectors) as Hsel.
      { unfold LinkExtractor.nav_selectors.
        repeat (apply elem_of_cons in Htag as [->|Htag]);
          [..|by apply elem_of_nil in Htag]; set_solver. }
      split; [done|].
      apply bool_decide_eq_true, find_is_Some. exists e. split; [done|].
      apply selector_matches_landmark; [done|]. by left.
    + exists (String "." cls).
      assert (String "." cls ∈ LinkExtractor.nav_selectors) as Hsel.
      { unfold LinkExtractor.nav_selectors.
        repeat (apply elem_of_cons in Hin as [->|Hin]);
          [..|by apply elem_of_nil in Hin]; set_solver. }
      split; [done|].
      apply bool_decide_eq_true, find_is_Some. exists e. split; [done|].
      rewrite selector_matches_class. by apply bool_decide_eq_true.
Qed.

Section link_bundle_facts.
Import LinkExtractor Reference.
Variable check_bracketed_host : string → bool.
Variable urljoin : string → string → string.
Variables current_url base_domain : string.

Local Abbreviation inv :=
  (link_inv check_bracketed_host urljoin current_url base_domain).
Local Abbreviation step :=
  (link_step check_bracketed_host urljoin current_url base_domain).

Lemma perm_snoc_left {A} (x : A) (l k : list A) :
  (l ++ [x]) ++ k ≡ₚ x :: l ++ k.
Proof. rewrite <- app_assoc. simpl. by rewrite <- Permutation_middle. Qed.

Lemma perm_snoc_right {A} (x : A) (l k : list A) :
  l ++ (k ++ [x]) ≡ₚ x :: l ++ k.
Proof. by rewrite app_assoc, <- Permutation_cons_append. Qed.

Lemma add_if_perm {A} (b : bool) (x : A) (l k : list A) :
  add_if b x l ++ add_if (negb b) x k ≡ₚ x :: l ++ k.
Proof.
  destruct b; simpl; [apply perm_snoc_left|apply perm_snoc_right].
Qed.

Lemma add_if_length {A} (b : bool) (x : A) (l k : list A) :
  List.length (add_if b x l) + List.length (add_if (negb b) x k)
  = S (List.length l + List.length k).
Proof. destruct b; simpl; rewrite length_app; simpl; lia. Qed.

(** One anchor keeps the invariant. *)
Lemma link_step_inv r a :
  inv r → inv (step r a).
Proof.
  intros (Hperm & Himg & Hint & Hext & Hhref & Hhas). unfold link_step.
  destruct (href a) as [h|]; [|done].
  destruct (_should_exclude h) eqn:Hexcl; [done|].
  set (link := LinkData _ _ _ _ _).
  unfold link_inv. cbn [internal_links external_links navigation_links
    content_links images_with_links].
  split; [|split; [|split; [|split; [|split]]]].
  - rewrite !add_if_perm. by f_equiv.
  - rewrite add_if_perm. case_bool_decide as Hi; simpl.
    + rewrite <- Permutation_cons_append. by apply submseteq_skip.
    + by apply submseteq_cons.
  - destruct (_is_internal_link _ _ _) eqn:Hcls; simpl; [|done].
    apply Forall_app. split; [done|]. by repeat constructor.
  - destruct (_is_internal_link _ _ _) eqn:Hcls; simpl; [done|].
    apply Forall_app. split; [done|]. by repeat constructor.
  - rewrite add_if_perm. by constructor.
  - case_bool_decide as Hi; simpl; [|done].
    apply Forall_app. split; [done|]. repeat constructor.
    simpl. destruct (img a); [by eexists|by destruct Hi].
Qed.

Lemma link_step_count r a :
  List.length (internal_links (step r a))
  + List.length (external_links (step r a))
  ≤ S (List.length (internal_links r) + List.length (external_links r)).
Proof.
  unfold link_step. destruct (href a); [|lia].
  destruct (_should_exclude _); [lia|].
  cbn [internal_links external_links]. rewrite add_if_length. lia.
Qed.

Lemma link_loop_inv anchors r :
  inv r →
  inv (foldl step r anchors) ∧
  List.length (internal_links (foldl step r anchors))
  + List.length (external_links (foldl step r anchors))
  ≤ List.length anchors
    + (List.length (internal_links r) + List.length (external_links r)).
Proof.
  revert r. induction anchors as [|a anchors IH]; intros r Hinv; simpl.
  - split; [done|lia].
  - destruct (IH _ (link_step_inv r a Hinv)) as [Hinv' Hlen].
    split; [done|]. pose proof (link_step_count r a). lia.
Qed.

End link_bundle_facts.

(** X11: [extract_all_links] gives up exactly when the page URL cannot be
    parsed.  Otherwise its two classifications split the same links: internal
    and external links together are the navigation and content links
    together, [total_count] counts them, and there are at most as many as
    anchors; a link is internal or external as [_is_internal_link] says of
    its URL; every link has an href that is not excluded, resolved against
    the page URL; and the links with an image are among them. *)
Theorem extract_all_links_partition
    (check_bracketed_host : string → bool)
    (urljoin : string → string → string) (p : LinkExtractor.page) :
  (LinkExtractor.extract_all_links check_bracketed_host urljoin p = None ↔
   Urllib.urlparse check_bracketed_host (LinkExtractor.url p) = None) ∧
  (∀ bundle,
      LinkExtractor.extract_all_links check_bracketed_host urljoin p
      = Some bundle →
      ∃ parsed,
        Urllib.urlparse check_bracketed_host (LinkExtractor.url p)
        = Some parsed ∧
        Reference.link_inv check_bracketed_host urljoin (LinkExtractor.url p)
          (Urllib.scheme parsed ++ "://" ++ Urllib.netloc parsed)%string bundle ∧
        LinkExtractor.total_count bundle
        = List.length (LinkExtractor.internal_links bundle)
          + List.length (LinkExtractor.external_links bundle) ∧
        LinkExtractor.total_count bundle
        = List.length (LinkExtractor.navigation_links bundle)
          + List.length (LinkExtractor.content_links bundle) ∧
        LinkExtractor.total_count bundle
        ≤ List.length (LinkExtractor.anchors p)).
Proof.
  unfold LinkExtractor.extract_all_links.
  destruct (Urllib.urlparse check_bracketed_host (LinkExtractor.url p))
    as [parsed|]; simpl;
    [|split; [done|done]].
  split; [done|]. intros bundle [= <-]. exists parsed. split; [done|].
  edestruct (link_loop_inv check_bracketed_host urljoin (LinkExtractor.url p)
               (Urllib.scheme parsed ++ "://" ++ Urllib.netloc parsed)%string
               (LinkExtractor.anchors p) (LinkExtractor.LinkBundle [] [] [] [] [] 0))
    as [Hinv Hlen].
  { repeat split; simpl; by constructor. }
  split; [exact Hinv|]. simpl. split; [done|]. split; [|simpl in Hlen; lia].
  destruct Hinv as (Hperm & _).
  apply Permutation_length in Hperm. by rewrite !length_app in Hperm.
Qed.

Lemma extract_all_links_partition_witness :
  ∃ bundle,
    LinkExtractor.extract_all_links Examples.check_bracketed_host (λ _ u, u)
      (LinkExtractor.Page "http://a.com/jobs"
         [ LinkExtractor.Anchor (Some "http://b.org/") " B " None
             (LinkExtractor.Element "a" [])
             [LinkExtractor.Element "nav" []] None;
           LinkExtractor.Anchor (Some "mailto:x@b.org") "mail" None
             (LinkExtractor.Element "a" []) [] None ]) = Some bundle ∧
    LinkExtractor.total_count bundle
    = List.length (LinkExtractor.navigation_links bundle)
      + List.length (LinkExtractor.content_links bundle) ∧
    LinkExtractor.total_count bundle ≤ 2.
Proof.
  eexists. split; [reflexivity|].
  destruct (proj2 (extract_all_links_partition
                     Examples.check_bracketed_host (λ _ u, u)
                     (LinkExtractor.Page "http://a.com/jobs"
                        [ LinkExtractor.Anchor (Some "http://b.org/") " B " None
                            (LinkExtractor.Element "a" [])
                            [LinkExtractor.Element "nav" []] None;
                          LinkExtractor.Anchor (Some "mailto:x@b.org") "mail" None
                            (LinkExtractor.Element "a" []) [] None ]))
              _ eq_refl)
    as (parsed & _ & _ & _ & Hnav & Hcount).
  split; [exact Hnav|exact Hcount].
Defined.

(** ** Excluded targets *)

Section search_facts.
Import Re.

Lemma take_drop_string n (s : string) : (Py.take n s ++ Py.drop n s)%string = s.
Proof.
  revert s. induction n as [|n IH]; intros [|a s]; try done.
  simpl. rewrite append_cons. by rewrite IH.
Qed.

Lemma string_app_assoc (s t u : string) :
  ((s ++ t) ++ u)%string = (s ++ t ++ u)%string.
Proof.
  induction s as [|a s IH]; [done|]. rewrite !append_cons. by rewrite IH.
Qed.

(** [re.search] finds a match wherever one starts. *)
Lemma search_is_Some r s :
  is_Some (search r s) ↔
  ∃ pre rest, s = (pre ++ rest)%string ∧ is_Some (match_at r false rest).
Proof.
  split.
  - intros [[[start text] c] Hs]. unfold search in Hs.
    apply search_from_leftmost in Hs as (_ & Hhere & _).
    exists (Py.take (start - 0) s), (Py.drop (start - 0) s).
    by rewrite take_drop_string.
  - intros (pre & rest & -> & Hrest). unfold search. generalize 0.
    induction pre as [|a pre IH]; intros n.
    + change ("" ++ rest)%string with rest.
      destruct Hrest as [[rest' c'] Hrest].
      destruct rest; cbn [search_from]; rewrite Hrest; by eexists.
    + rewrite append_cons. cbn [search_from].
      destruct (match_at r false (String a _)) as [[? ?]|]; [by eexists|].
      apply IH.
Qed.

(** A literal under [re.IGNORECASE] matches the texts that are equal to it
    up to case. *)
Lemma m_istr p s c k :
  m (istr p) s c k =
  if decide (Py.lower (Py.take (String.length p) s) = Py.lower p)
  then k (Py.drop (String.length p) s) c else None.
Proof.
  revert s. induction p as [|a p IH]; intros s.
  - by destruct s.
  - cbn [istr m ilit]. destruct s as [|b s]; [reflexivity|].
    cbn [String.length Py.take Py.drop Py.lower].
    destruct (Ascii.eqb_spec (Py.lower_char a) (Py.lower_char b)) as [Hab|Hab].
    + rewrite IH. case_decide as Hp.
      * rewrite decide_True; [done|]. by rewrite Hab, Hp.
      * rewrite decide_False; [done|]. by intros [= _ ?].
    + rewrite decide_False; [done|]. intros [= ? _]. by apply Hab.
Qed.

Lemma match_at_istr p s :
  is_Some (match_at (istr p) false s) ↔
  Py.lower (Py.take (String.length p) s) = Py.lower p.
Proof.
  unfold match_at. rewrite m_istr. case_decide; simpl; split;
    try done; try (by eexists); by intros [? ?].
Qed.

Lemma lower_length s : String.length (Py.lower s) = String.length s.
Proof. induction s as [|a s IH]; simpl; [done|]. by rewrite IH. Qed.

Lemma take_app_length (s t : string) :
  Py.take (String.length s) (s ++ t) = s.
Proof.
  induction s as [|a s IH]; [by destruct t|].
  rewrite append_cons. simpl. by rewrite IH.
Qed.

Lemma take_length_le n (s : string) : String.length (Py.take n s) ≤ n.
Proof.
  revert s. induction n as [|n IH]; intros [|a s]; simpl; try lia.
  specialize (IH s). lia.
Qed.

(** A pattern that is a literal under [re.IGNORECASE] is found exactly in
    the texts that contain the literal up to case. *)
Lemma search_istr p s :
  is_Some (search (istr p) s) ↔
  ∃ pre mid post, s = (pre ++ mid ++ post)%string ∧ Py.lower mid = Py.lower p.
Proof.
  rewrite search_is_Some. split.
  - intros (pre & rest & -> & Hrest). apply match_at_istr in Hrest.
    exists pre, (Py.take (String.length p) rest),
      (Py.drop (String.length p) rest).
    by rewrite take_drop_string.
  - intros (pre & mid & post & -> & Hmid).
    exists pre, (mid ++ post)%string. split; [done|].
    apply match_at_istr.
    assert (String.length p = String.length mid) as ->.
    { by rewrite <- (lower_length p), <- Hmid, lower_length. }
    by rewrite take_app_length.
Qed.

(** [#$] is found exactly in the texts that end with [#], or with [#] and a
    newline. *)
Lemma search_hash_end s :
  is_Some (search (Cat (lit "#") Eol) s) ↔
  ∃ pre, s = (pre ++ "#")%string ∨ s = (pre ++ String "#" (String "010" ""))%string.
Proof.
  assert (∀ rest, is_Some (match_at (Cat (lit "#") Eol) false rest) ↔
                  rest = "#" ∨ rest = String "#" (String "010" "")) as Hm.
  { intros rest. unfold match_at, lit. cbn [m].
    destruct rest as [|a rest]; [split; [by intros [? ?]|by intros [?|?]]|].
    destruct (Ascii.eqb_spec "#" a) as [<-|Hne].
    - destruct rest as [|b [|? ?]].
      + split; [by left|]. intros _. simpl. by eexists.
      + destruct (Ascii.eqb_spec b "010") as [->|Hb].
        * split; [by right|]. intros _. simpl. by eexists.
        * split; [by intros [? ?]|]. intros [?|[= ?]]; done.
      + split; [by intros [? ?]|]. intros [?|?]; done.
    - split; [by intros [? ?]|]. intros [[= ?]|[= ?]]; done. }
  rewrite search_is_Some. split.
  - intros (pre & rest & -> & Hrest). apply Hm in Hrest as [->| ->];
      exists pre; (by left) || (by right).
  - intros [pre [->| ->]]; eexists pre, _; (split; [done|]); apply Hm;
      (by left) || (by right).
Qed.

End search_facts.

Section exclusion_facts.
Import Re.

Lemma lower_char_colon c : Py.lower_char c = ":"%char → c = ":"%char.
Proof.
  destruct c as [[] [] [] [] [] [] [] []]; vm_compute; intros H;
    first [reflexivity|discriminate H].
Qed.

Lemma lower_contains_colon mid :
  Py.contains_char ":" (Py.lower mid) = true → Py.contains_char ":" mid = true.
Proof.
  induction mid as [|a mid IH]; [done|]. cbn [Py.lower Py.contains_char].
  rewrite !orb_true_iff. intros [Ha|Hmid]; [left|right; by apply IH].
  apply Ascii.eqb_eq in Ha. apply lower_char_colon in Ha as ->.
  apply Ascii.eqb_refl.
Qed.

End exclusion_facts.

(** X12: the link extractor excludes an href exactly when it is blank, or
    contains [javascript:], [mailto:] or [tel:] somewhere, in any case of
    letters, or ends with [#] (a newline may follow).  So it excludes a
    fragment-only link and every other link that ends with an empty
    fragment, and it keeps every non-blank href without colon and hash. *)
Theorem link_should_exclude_rule (href : string) :
  (LinkExtractor._should_exclude href = true ↔
   Py.strip href = "" ∨
   (∃ pre mid post,
       href = (pre ++ mid ++ post)%string ∧
       Py.lower mid ∈ ["javascript:"; "mailto:"; "tel:"]) ∨
   (∃ pre, href = (pre ++ "#")%string ∨
           href = (pre ++ String "#" (String "010" ""))%string)) ∧
  (Py.strip href ≠ "" →
   Py.contains_char ":" href = false → Py.contains_char "#" href = false →
   LinkExtractor._should_exclude href = false).
Proof.
  assert (LinkExtractor._should_exclude href = true ↔
          Py.strip href = "" ∨
          (∃ pre mid post,
              href = (pre ++ mid ++ post)%string ∧
              Py.lower mid ∈ ["javascript:"; "mailto:"; "tel:"]) ∨
          (∃ pre, href = (pre ++ "#")%string ∨
                  href = (pre ++ String "#" (String "010" ""))%string))
    as Hrule.
  { unfold LinkExtractor._should_exclude.
    destruct (String.eqb_spec href "") as [->|Hne]; cbn [orb].
    { split; [by left|done]. }
    destruct (String.eqb_spec (Py.strip href) "") as [Hblank|Hfull]; cbn [orb].
    { split; [by left|done]. }
    unfold LinkExtractor.exclude_patterns. cbn [existsb].
    rewrite !orb_true_iff, !bool_decide_eq_true.
    rewrite !search_istr, search_hash_end. split.
    - intros [H|[H|[H|[H|H]]]]; [..|done]; right;
        [left; destruct H as (pre & mid & post & -> & Hmid);
         exists pre, mid, post; split; [done|]; rewrite Hmid; set_solver..
        |by right].
    - intros [H|[(pre & mid & post & -> & Hmid)|H]]; [done| |].
      + repeat (apply elem_of_cons in Hmid as [Hmid|Hmid]);
          [..|by apply elem_of_nil in Hmid].
        * left. by exists pre, mid, post.
        * right. left. by exists pre, mid, post.
        * right. right. left. by exists pre, mid, post.
      + do 3 right. by left. }
  split; [done|]. intros Hfull Hcolon Hhash.
  destruct (LinkExtractor._should_exclude href); [|done].
  exfalso.
  destruct (proj1 Hrule eq_refl)
    as [H|[(pre & mid & post & -> & Hmid)|[pre [->| ->]]]].
  - done.
  - rewrite !contains_char_app in Hcolon.
    apply orb_false_iff in Hcolon as [_ Hcolon].
    apply orb_false_iff in Hcolon as [Hcolon _].
    assert (Py.contains_char ":" (Py.lower mid) = true) as Hlow.
    { repeat (apply elem_of_cons in Hmid as [->|Hmid]);
        [..|by apply elem_of_nil in Hmid]; reflexivity. }
    apply lower_contains_colon in Hlow. congruence.
  - rewrite contains_char_app in Hhash.
    by apply orb_false_iff in Hhash as [_ ?].
  - rewrite contains_char_app in Hhash.
    by apply orb_false_iff in Hhash as [_ ?].
Qed.

Lemma link_should_exclude_rule_witness :
  LinkExtractor._should_exclude "/jobs/12?page=2" = false.
Proof.
  apply (link_should_exclude_rule "/jobs/12?page=2");
    [discriminate|reflexivity|reflexivity].
Defined.

(** ** Internal links *)

Section urlparse_facts.
Import Urllib Reference.
Variable check_bracketed_host : string → bool.

Local Abbreviation ctl :=
  (λ c : ascii, Ascii.eqb c "009" || Ascii.eqb c "013" || Ascii.eqb c "010").
Local Abbreviation delim :=
  (λ c : ascii, Ascii.eqb c "/" || Ascii.eqb c "?" || Ascii.eqb c "#").
Local Abbreviation good :=
  (λ c : ascii, is_scheme_char c && Ascii.eqb (Py.lower_char c) c).
Local Abbreviation plain :=
  (λ c : ascii, negb (delim c) && negb (ctl c)).

Lemma scheme_char_lower c :
  is_scheme_char c = true →
  good (Py.lower_char c) = true ∧
  (is_ascii_alpha c = true → is_ascii_alpha (Py.lower_char c) = true).
Proof.
  destruct c as [[] [] [] [] [] [] [] []]; vm_compute; intros; try done.
Qed.

Lemma good_char c :
  good c = true →
  Py.lower_char c = c ∧ is_scheme_char c = true ∧ ctl c = false ∧
  Ascii.eqb c ":" = false ∧ (nat_of_ascii c <=? 32) = false.
Proof.
  destruct c as [[] [] [] [] [] [] [] []]; vm_compute; intros; try done.
Qed.

Lemma netloc_char_plain c :
  netloc_char c = true →
  plain c = true ∧ Ascii.eqb c "[" = false ∧ Ascii.eqb c "]" = false.
Proof.
  destruct c as [[] [] [] [] [] [] [] []]; vm_compute; intros; try done.
Qed.

Lemma forallb_string_app f (s t : string) :
  forallb_string f (s ++ t) = forallb_string f s && forallb_string f t.
Proof.
  induction s as [|a s IH]; [done|]. rewrite append_cons. simpl.
  by rewrite IH, andb_assoc.
Qed.

Lemma forallb_string_impl (f g : ascii → bool) s :
  (∀ a, f a = true → g a = true) →
  forallb_string f s = true → forallb_string g s = true.
Proof.
  intros Hfg. induction s as [|a s IH]; [done|]. simpl.
  rewrite !andb_true_iff. intros [Ha Hs]. split; [by apply Hfg|by apply IH].
Qed.

Lemma forallb_string_drop f n s :
  forallb_string f s = true → forallb_string f (Py.drop n s) = true.
Proof.
  revert s. induction n as [|n IH]; intros [|a s]; try done.
  simpl. intros [_ Hs]%andb_true_iff. by apply IH.
Qed.

Lemma forallb_string_take f n s :
  forallb_string f s = true → forallb_string f (Py.take n s) = true.
Proof.
  revert s. induction n as [|n IH]; intros [|a s]; try done.
  simpl. intros [Ha Hs]%andb_true_iff. by rewrite Ha, IH.
Qed.

Lemma remove_chars_app f (s t : string) :
  remove_chars f (s ++ t) = (remove_chars f s ++ remove_chars f t)%string.
Proof.
  induction s as [|a s IH]; [done|]. rewrite append_cons. simpl.
  destruct (f a); [done|]. by rewrite append_cons, IH.
Qed.

Lemma remove_chars_id f s :
  forallb_string (λ c, negb (f c)) s = true → remove_chars f s = s.
Proof.
  induction s as [|a s IH]; [done|]. simpl.
  intros [Ha Hs]%andb_true_iff. apply negb_true_iff in Ha.
  by rewrite Ha, IH.
Qed.

Lemma remove_chars_gone f s :
  forallb_string (λ c, negb (f c)) (remove_chars f s) = true.
Proof.
  induction s as [|a s IH]; [done|]. simpl.
  destruct (f a) eqn:Ha; [done|]. simpl. by rewrite Ha, IH.
Qed.

Lemma find_char_app x (s t : string) :
  forallb_string (λ c, negb (Ascii.eqb c x)) s = true →
  find_char x (s ++ String x t) = Some (String.length s).
Proof.
  induction s as [|a s IH].
  - intros _. change (find_char x (String x t) = Some 0).
    cbn [find_char]. by rewrite Ascii.eqb_refl.
  - simpl. intros [Ha Hs]%andb_true_iff. apply negb_true_iff in Ha.
    rewrite ?append_cons. cbn [find_char]. by rewrite Ha, IH.
Qed.

Lemma lower_id s :
  forallb_string (λ c, Ascii.eqb (Py.lower_char c) c) s = true →
  Py.lower s = s.
Proof.
  induction s as [|a s IH]; [done|]. simpl.
  intros [Ha Hs]%andb_true_iff. apply Ascii.eqb_eq in Ha.
  by rewrite Ha, IH.
Qed.

Lemma splitnetloc_app (n rest : string) :
  forallb_string (λ c, negb (delim c)) n = true →
  rest = "" ∨ Py.startswith rest "/" = true →
  splitnetloc (n ++ rest) = (n, rest).
Proof.
  intros Hn Hrest. induction n as [|a n IH].
  - change ("" ++ rest)%string with rest.
    destruct Hrest as [->|Hrest]; [reflexivity|].
    destruct rest as [|b rest]; [done|]. cbn [Py.startswith] in Hrest.
    destruct (Ascii.eqb_spec "/" b) as [<-|]; [reflexivity|done].
  - simpl in Hn. apply andb_true_iff in Hn as [Ha Hn].
    apply negb_true_iff in Ha. rewrite append_cons. cbn [splitnetloc].
    rewrite Ha. by rewrite IH.
Qed.

(** The network location that [splitnetloc] cuts off has no character that
    ends it, and only characters of the text. *)
Lemma splitnetloc_fst f s :
  forallb_string f s = true →
  forallb_string (λ c, negb (delim c) && f c) (splitnetloc s).1 = true.
Proof.
  induction s as [|a s IH]; [done|]. simpl.
  intros [Ha Hs]%andb_true_iff.
  destruct (delim a) eqn:Hd; [done|].
  destruct (splitnetloc s) as [n rest]. simpl in *.
  by rewrite Hd, Ha, IH.
Qed.

Lemma contains_char_false c s :
  forallb_string (λ a, negb (Ascii.eqb a c)) s = true →
  Py.contains_char c s = false.
Proof.
  induction s as [|a s IH]; [done|]. simpl.
  intros [Ha Hs]%andb_true_iff. apply negb_true_iff in Ha.
  by rewrite Ha, IH.
Qed.

Lemma contains_char_forallb c s :
  Py.contains_char c s = false →
  forallb_string (λ a, negb (Ascii.eqb a c)) s = true.
Proof.
  induction s as [|a s IH]; [done|]. simpl.
  intros [Ha Hs]%orb_false_iff. by rewrite Ha, IH.
Qed.

Lemma lower_scheme_good t :
  forallb_string is_scheme_char t = true →
  forallb_string good (Py.lower t) = true.
Proof.
  induction t as [|a t IH]; [done|]. cbn [forallb_string Py.lower].
  intros [Ha Ht]%andb_true_iff.
  destruct (scheme_char_lower a Ha) as [Hgood _].
  apply andb_true_iff. split; [exact Hgood|by apply IH].
Qed.

(** What [urlparse] returns: a scheme that is empty or made of lower-case
    scheme characters after a letter, and a network location without the
    characters that end it and without those removed from the URL. *)
Lemma urlparse_inv url parsed :
  urlparse check_bracketed_host url = Some parsed →
  (scheme parsed = ""
   ∨ ∃ a s, scheme parsed = String a s ∧ is_ascii_alpha a = true
            ∧ forallb_string good (scheme parsed) = true) ∧
  forallb_string plain (netloc parsed) = true ∧
  xorb (Py.contains_char "[" (netloc parsed))
       (Py.contains_char "]" (netloc parsed)) = false.
Proof.
  unfold urlparse. cbv zeta.
  set (u := remove_chars _ _).
  assert (forallb_string (λ c, negb (ctl c)) u = true) as Hu
    by apply remove_chars_gone.
  clearbody u.
  set (su := match find_char ":" u with Some (S i) => _ | _ => _ end).
  assert ((su.1 = ""
           ∨ ∃ a s, su.1 = String a s ∧ is_ascii_alpha a = true
                    ∧ forallb_string good su.1 = true)
          ∧ forallb_string (λ c, negb (ctl c)) su.2 = true) as Hsu.
  { subst su. destruct (find_char ":" u) as [[|i]|] eqn:Hfind;
      [by split; [left|]| |by split; [left|]].
    destruct (_ && _) eqn:Hok; [|by split; [left|]].
    apply andb_true_iff in Hok as [Halpha Hscheme].
    split; [right|by apply forallb_string_drop].
    destruct u as [|a u']; [done|].
    cbn [Py.take forallb_string] in Halpha.
    rewrite andb_true_r in Halpha.
    cbn [fst Py.take Py.lower]. eexists _, _. split; [reflexivity|].
    cbn [Py.take forallb_string] in Hscheme.
    pose proof Hscheme as [Ha _]%andb_true_iff.
    destruct (scheme_char_lower a Ha) as [_ Hlow].
    split; [by apply Hlow|].
    change (String (Py.lower_char a) (Py.lower (Py.take i u')))
      with (Py.lower (String a (Py.take i u'))).
    by apply lower_scheme_good. }
  destruct su as [sch u0]. cbn [fst snd] in Hsu. destruct Hsu as [Hsch Hu0].
  set (nu := if Py.startswith u0 "//" then _ else _).
  assert (forallb_string plain nu.1 = true) as Hnu.
  { subst nu. destruct (Py.startswith u0 "//"); [|done].
    apply splitnetloc_fst, forallb_string_drop, Hu0. }
  destruct nu as [net u1]. cbn [fst] in Hnu.
  destruct (xorb _ _) eqn:Hx; [done|].
  destruct (_ && _ && _); [done|].
  destruct (default _ _) as [u2 frag].
  destruct (default _ _) as [u3 q].
  match goal with
  | |- context [if bool_decide _ && _ then ?a else ?b] =>
      destruct (if bool_decide (sch ∈ uses_params) && Py.contains_char ";" u3
                then a else b) as [u4 par]
  end.
  intros [= <-]. cbn [scheme netloc]. done.
Qed.

Lemma drop_app_length_cons (s t : string) c :
  Py.drop (S (String.length s)) (s ++ String c t) = t.
Proof.
  induction s as [|a s IH]; [done|]. rewrite append_cons. apply IH.
Qed.

Lemma drop_scheme a (s t : string) c :
  Py.drop (S (S (String.length s))) (String a (s ++ String c t)) = t.
Proof. apply drop_app_length_cons. Qed.

(** A URL that continues [scheme://netloc] with characters of a network
    location is parsed with the same scheme and the longer network
    location. *)
Lemma urlparse_extended a s n ext rest :
  is_ascii_alpha a = true →
  forallb_string good (String a s) = true →
  forallb_string plain n = true →
  Py.contains_char "[" n = false →
  Py.contains_char "]" n = false →
  forallb_string netloc_char ext = true →
  rest = "" ∨ Py.startswith rest "/" = true →
  ∃ parsed,
    urlparse check_bracketed_host
      (String a s ++ "://" ++ n ++ ext ++ rest) = Some parsed ∧
    scheme parsed = String a s ∧ netloc parsed = (n ++ ext)%string.
Proof.
  intros Halpha Hgood Hn Hopen Hclose Hext Hrest.
  set (rest' := remove_chars ctl rest).
  assert (rest' = "" ∨ Py.startswith rest' "/" = true) as Hrest'.
  { subst rest'. destruct Hrest as [->|Hrest]; [by left|right].
    destruct rest as [|b rest]; [done|]. cbn [Py.startswith] in Hrest.
    destruct (Ascii.eqb_spec "/" b) as [<-|]; [|done].
    cbn. by destruct (remove_chars _ rest). }
  assert (forallb_string (λ c, negb (ctl c)) (String a s) = true) as Hs_ctl.
  { revert Hgood. apply forallb_string_impl. intros c Hc.
    apply good_char in Hc as (_ & _ & -> & _). done. }
  assert (forallb_string (λ c, negb (ctl c)) n = true) as Hn_ctl.
  { revert Hn. apply forallb_string_impl. by intros c [_ ?]%andb_true_iff. }
  assert (forallb_string plain ext = true) as Hext_plain.
  { revert Hext. apply forallb_string_impl. intros c Hc.
    by apply netloc_char_plain in Hc as [? _]. }
  assert (forallb_string (λ c, negb (ctl c)) ext = true) as Hext_ctl.
  { revert Hext_plain. apply forallb_string_impl.
    by intros c [_ ?]%andb_true_iff. }
  assert (remove_chars ctl
            (lstrip_chars (λ c, nat_of_ascii c <=? 32)
               (String a s ++ "://" ++ n ++ ext ++ rest))
          = (String a s ++ String ":" ("//" ++ (n ++ ext) ++ rest'))%string)
    as Hu.
  { rewrite append_cons. cbn [lstrip_chars].
    pose proof Hgood as [Ha _]%andb_true_iff.
    apply good_char in Ha as (_ & _ & _ & _ & ->).
    rewrite <- append_cons, !remove_chars_app.
    rewrite (remove_chars_id _ (String a s)) by done.
    rewrite (remove_chars_id _ n), (remove_chars_id _ ext) by done.
    by rewrite string_app_assoc. }
  unfold urlparse. cbv zeta. rewrite Hu. clear Hu.
  rewrite find_char_app.
  2:{ revert Hgood. apply forallb_string_impl. intros c Hc.
      apply good_char in Hc as (_ & _ & _ & -> & _). done. }
  cbn [String.length]. rewrite append_cons. cbn [Py.take forallb_string].
  rewrite Halpha, take_app_length.
  assert (forallb_string is_scheme_char (String a s) = true) as Hscheme.
  { revert Hgood. apply forallb_string_impl. by intros c [? _]%andb_true_iff. }
  cbn [forallb_string] in Hscheme. rewrite Hscheme. cbn [andb].
  rewrite !drop_scheme.
  rewrite (startswith_app "//"), (drop_app_length "//").
  rewrite splitnetloc_app; [|by rewrite forallb_string_app;
    apply andb_true_iff; split;
    [revert Hn|revert Hext_plain]; apply forallb_string_impl;
    intros c [? _]%andb_true_iff|done].
  assert (∀ c, (∀ x, netloc_char x = true → Ascii.eqb x c = false) →
               Py.contains_char c n = false →
               Py.contains_char c (n ++ ext) = false) as Hnone.
  { intros c Hc Hcn. rewrite contains_char_app, Hcn. cbn [orb].
    apply contains_char_false. revert Hext. apply forallb_string_impl.
    intros x Hx. by rewrite (Hc x Hx). }
  rewrite !(Hnone "["%char), !(Hnone "]"%char);
    try done; try (intros x Hx; by apply netloc_char_plain in Hx as (_ & ? & ?)).
  cbn [xorb andb].
  destruct (default _ _) as [u2 frag].
  destruct (default _ _) as [u3 q].
  match goal with
  | |- context [if bool_decide ?P && ?c then ?x else ?y] =>
      destruct (if bool_decide P && c then x else y) as [u4 par]
  end.
  eexists. split; [reflexivity|]. cbn [scheme netloc]. split; [|done].
  apply lower_id. revert Hgood. apply forallb_string_impl.
  intros c Hc. apply good_char in Hc as (-> & _). apply Ascii.eqb_refl.
Qed.

End urlparse_facts.

(** X10: a URL that continues the page's [scheme://netloc] text is
    internal, whatever network location it names.  For a page with a scheme
    and a host that is no bracketed literal, the page's [scheme://netloc]
    followed by further characters of a network location and then by
    nothing or a path is parsed with that longer network location, which is
    not empty and not the page's, and [_is_internal_link] answers true. *)
Theorem is_internal_link_prefix_rule
    (check_bracketed_host : string → bool) (page_url : string)
    (parsed : Urllib.parse_result) (ext rest : string) :
  Urllib.urlparse check_bracketed_host page_url = Some parsed →
  Urllib.scheme parsed ≠ "" →
  Py.contains_char "[" (Urllib.netloc parsed) = false →
  ext ≠ "" →
  Urllib.forallb_string Reference.netloc_char ext = true →
  rest = "" ∨ Py.startswith rest "/" = true →
  let base_domain :=
    (Urllib.scheme parsed ++ "://" ++ Urllib.netloc parsed)%string in
  let url := (base_domain ++ ext ++ rest)%string in
  ∃ linked,
    Urllib.urlparse check_bracketed_host url = Some linked ∧
    Urllib.scheme linked = Urllib.scheme parsed ∧
    Urllib.netloc linked = (Urllib.netloc parsed ++ ext)%string ∧
    Urllib.netloc linked ≠ Urllib.netloc parsed ∧
    Urllib.netloc linked ≠ "" ∧
    LinkExtractor._is_internal_link check_bracketed_host url base_domain
    = true.
Proof.
  intros Hparse Hscheme Hopen Hext Hchars Hrest base_domain url.
  apply urlparse_inv in Hparse as (Hsch & Hnet & Hxor).
  destruct Hsch as [?|(a & s & Hs & Halpha & Hgood)]; [done|].
  rewrite Hopen in Hxor. cbn [xorb] in Hxor.
  assert (url = (Urllib.scheme parsed ++ "://" ++ Urllib.netloc parsed
                 ++ ext ++ rest)%string) as Hurl.
  { subst url base_domain. by rewrite !string_app_assoc. }
  rewrite Hs in Hgood, Hurl.
  destruct (urlparse_extended check_bracketed_host a s (Urllib.netloc parsed)
              ext rest Halpha Hgood Hnet Hopen Hxor Hchars Hrest)
    as (linked & Hlinked & Hls & Hln).
  rewrite <- Hurl in Hlinked.
  assert (Urllib.netloc linked ≠ Urllib.netloc parsed) as Hother.
  { rewrite Hln. intros Heq.
    apply (f_equal String.length) in Heq. rewrite string_length_app in Heq.
    destruct ext; [done|]. simpl in Heq. lia. }
  assert (Urllib.netloc linked ≠ "") as Hfull.
  { rewrite Hln. intros Heq.
    apply (f_equal String.length) in Heq. rewrite string_length_app in Heq.
    destruct ext; [done|]. simpl in Heq. lia. }
  exists linked. split; [done|]. split; [by rewrite Hls, Hs|].
  split; [done|]. split; [done|]. split; [done|].
  unfold LinkExtractor._is_internal_link. rewrite Hlinked.
  subst url. rewrite startswith_app. apply orb_true_r.
Qed.

Lemma is_internal_link_prefix_rule_witness :
  LinkExtractor._is_internal_link Examples.check_bracketed_host
    "http://a.com.evil.org/x" "http://a.com" = true.
Proof.
  destruct (is_internal_link_prefix_rule Examples.check_bracketed_host
              "http://a.com/jobs"
              (Urllib.ParseResult "http" "a.com" "/jobs" "" "" "")
              ".evil.org" "/x")
    as (linked & _ & _ & _ & _ & _ & Hinternal).
  - reflexivity.
  - discriminate.
  - reflexivity.
  - discriminate.
  - reflexivity.
  - by right.
  - exact Hinternal.
Defined.

(** ** More on images *)

Section image_bucket_facts.
Import ImageExtractor.
Variable check_bracketed_host : string → bool.

Local Abbreviation bucket_of := (bucket_of check_bracketed_host).

Lemma categorize_lookup_from images (categories : gmap string nat) b :
  foldl (λ categories img, bump (bucket_of img) categories) categories images
    !! b
  = if decide (List.length (filter (λ img, bucket_of img = b) images) = 0)
    then categories !! b
    else Some (default 0 (categories !! b)
               + List.length (filter (λ img, bucket_of img = b) images)).
Proof.
  revert categories. induction images as [|img images IH]; intros categories;
    [done|].
  cbn [foldl]. rewrite IH, filter_cons. unfold bump.
  destruct (decide (bucket_of img = b)) as [->|Hne].
  - rewrite lookup_insert_eq. cbn [default List.length].
    destruct (decide (S _ = 0)) as [Habs|_]; [lia|].
    case_decide as Hzero; [rewrite Hzero|]; f_equal; unfold id; lia.
  - by rewrite lookup_insert_ne.
Qed.

Lemma bucket_of_known img :
  bucket_of img
  ∈ ["jpg"; "jpeg"; "png"; "gif"; "webp"; "svg"; "bmp"; "unknown"].
Proof.
  unfold ImageExtractor.bucket_of.
  destruct (Urllib.urlparse _ _) as [parsed|]; [|set_solver].
  destruct (List.find _ _) as [ext|] eqn:Hfind; [|set_solver].
  apply find_some in Hfind as [Hin _]. apply list_elem_of_In in Hin.
  unfold image_extensions in Hin.
  repeat (apply elem_of_cons in Hin as [->|Hin]);
    [..|by apply elem_of_nil in Hin]; vm_compute; set_solver.
Qed.

Lemma omap_length_le {A B} (f : A → option B) (l : list A) :
  List.length (omap f l) ≤ List.length l.
Proof.
  induction l as [|x l IH]; [done|]. cbn. destruct (f x); cbn; lia.
Qed.

End image_bucket_facts.

(** X13: a bucket of the histogram holds the number of inline images that
    fall into it and exists only when that number is not zero; the buckets
    are among the seven known extensions, without dot, and [unknown]. *)
Theorem image_histogram_buckets
    (check_bracketed_host : string → bool)
    (urljoin : string → string → string) (p : ImageExtractor.page) :
  let bundle :=
    ImageExtractor.extract_all_images check_bracketed_host urljoin p in
  (∀ b n,
      ImageExtractor.by_type bundle !! b = Some n ↔
      0 < n ∧
      n = List.length
            (filter (λ d, ImageExtractor.bucket_of check_bracketed_host d = b)
                    (ImageExtractor.images bundle))) ∧
  (∀ b, b ∈ dom (ImageExtractor.by_type bundle) →
        b ∈ ["jpg"; "jpeg"; "png"; "gif"; "webp"; "svg"; "bmp"; "unknown"]).
Proof.
  intros bundle.
  assert (∀ b n,
      ImageExtractor.by_type bundle !! b = Some n ↔
      0 < n ∧
      n = List.length
            (filter (λ d, ImageExtractor.bucket_of check_bracketed_host d = b)
                    (ImageExtractor.images bundle))) as Hlookup.
  { intros b n. subst bundle. unfold ImageExtractor.extract_all_images.
    cbn [ImageExtractor.by_type ImageExtractor.images].
    unfold ImageExtractor._categorize_images.
    rewrite categorize_lookup_from, lookup_empty. cbn [default].
    case_decide as Hzero; split.
    - done.
    - intros [Hpos ->]. lia.
    - intros [= <-]. split; [lia|done].
    - by intros [_ ->]. }
  split; [done|].
  intros b Hb. apply elem_of_dom in Hb as [n Hn].
  apply Hlookup in Hn as [Hpos Hn].
  destruct (filter _ _) as [|d rest] eqn:Hfilter; [simpl in Hn; lia|].
  assert (d ∈ filter
                (λ d, ImageExtractor.bucket_of check_bracketed_host d = b)
                (ImageExtractor.images bundle)) as Hd
    by (rewrite Hfilter; left).
  apply list_elem_of_filter in Hd as [<- _]. apply bucket_of_known.
Qed.

Lemma image_histogram_buckets_witness :
  "png" ∈ ["jpg"; "jpeg"; "png"; "gif"; "webp"; "svg"; "bmp"; "unknown"].
Proof.
  apply (proj2 (image_histogram_buckets Examples.check_bracketed_host
                  (λ _ u, u) PageExample.image_page)).
  apply elem_of_dom. exists 1. reflexivity.
Defined.

(** X14: every inline entry of the bundle comes from an [img] element whose
    [src] is set and not excluded, and carries that [src] and its resolution
    against the page URL; every background entry comes likewise from an
    answer of the page script; there are no background entries when the
    script fails, and never more entries than elements or answers. *)
Theorem extract_all_images_entries
    (check_bracketed_host : string → bool)
    (urljoin : string → string → string) (p : ImageExtractor.page) :
  let bundle :=
    ImageExtractor.extract_all_images check_bracketed_host urljoin p in
  (∀ d, d ∈ ImageExtractor.images bundle →
        ∃ e s, e ∈ ImageExtractor.img_elements p ∧
               ImageExtractor.src e = Some s ∧
               ImageExtractor._should_exclude s = false ∧
               ImageExtractor.original_src d = Some s ∧
               ImageExtractor.image_url d = urljoin (ImageExtractor.url p) s) ∧
  List.length (ImageExtractor.images bundle)
  ≤ List.length (ImageExtractor.img_elements p) ∧
  (∀ d, d ∈ ImageExtractor.background_images bundle →
        ∃ found f, ImageExtractor.bg_images p = Some found ∧ f ∈ found ∧
                   ImageExtractor._should_exclude (ImageExtractor.bg_raw_url f)
                   = false ∧
                   ImageExtractor.image_url d
                   = urljoin (ImageExtractor.url p) (ImageExtractor.bg_raw_url f)) ∧
  (ImageExtractor.bg_images p = None →
   ImageExtractor.background_images bundle = []) ∧
  (∀ found, ImageExtractor.bg_images p = Some found →
            List.length (ImageExtractor.background_images bundle)
            ≤ List.length found).
Proof.
  intros bundle. subst bundle. unfold ImageExtractor.extract_all_images.
  cbn [ImageExtractor.images ImageExtractor.background_images].
  split; [|split; [|split; [|split]]].
  - intros d Hd. apply list_elem_of_omap in Hd as (e & He & Hdata).
    unfold ImageExtractor._extract_img_data in Hdata.
    destruct (ImageExtractor.src e) as [s|] eqn:Hsrc; [|done].
    unfold ImageExtractor.truthy in Hdata at 1.
    destruct (String.eqb s ""); [done|].
    destruct (ImageExtractor._should_exclude s) eqn:Hex; [done|].
    injection Hdata as <-. by exists e, s.
  - apply omap_length_le.
  - intros d Hd. unfold ImageExtractor._extract_background_images in Hd.
    destruct (ImageExtractor.bg_images p) as [found|]; [|by apply elem_of_nil in Hd].
    apply list_elem_of_omap in Hd as (f & Hf & Hdata).
    destruct (ImageExtractor._should_exclude _) eqn:Hex; [done|].
    injection Hdata as <-. by exists found, f.
  - unfold ImageExtractor._extract_background_images. by intros ->.
  - intros found Hfound. unfold ImageExtractor._extract_background_images.
    rewrite Hfound. apply omap_length_le.
Qed.

Lemma extract_all_images_entries_witness :
  ∃ e s, e ∈ ImageExtractor.img_elements PageExample.image_page ∧
         ImageExtractor.src e = Some s ∧
         ImageExtractor._should_exclude s = false ∧
         ImageExtractor.original_src PageExample.first_image = Some s ∧
         ImageExtractor.image_url PageExample.first_image
         = (λ _ u, u) (ImageExtractor.url PageExample.image_page) s.
Proof.
  apply (proj1 (extract_all_images_entries Examples.check_bracketed_host
                  (λ _ u, u) PageExample.image_page)).
  left.
Defined.

Section image_exclusion_facts.
Import Re.

(** A literal under [re.IGNORECASE] followed by [$] is found exactly in the
    texts that end with the literal up to case, or with it and a newline. *)
Lemma search_istr_end p s :
  is_Some (search (Cat (istr p) Eol) s) ↔
  ∃ pre mid,
    Py.lower mid = Py.lower p ∧
    (s = (pre ++ mid)%string ∨ s = (pre ++ mid ++ String "010" "")%string).
Proof.
  assert (∀ rest, is_Some (match_at (Cat (istr p) Eol) false rest) ↔
                  Py.lower (Py.take (String.length p) rest) = Py.lower p ∧
                  (Py.drop (String.length p) rest = "" ∨
                   Py.drop (String.length p) rest = String "010" "")) as Hm.
  { intros rest. unfold match_at. cbn [m]. rewrite m_istr.
    case_decide as Hp; [|split; [by intros [? ?]|by intros [? _]]].
    destruct (Py.drop (String.length p) rest) as [|a [|b t]] eqn:Hdrop; cbn [m].
    - split; [by auto|]. intros _. simpl. by eexists.
    - destruct (Ascii.eqb_spec a "010") as [->|Ha].
      + split; [by auto|]. intros _. simpl. by eexists.
      + split; [by intros [? ?]|]. intros [_ [?|[= ?]]]; done.
    - split; [by intros [? ?]|]. intros [_ [?|?]]; done. }
  rewrite search_is_Some. split.
  - intros (pre & rest & -> & Hrest). apply Hm in Hrest as [Hmid Hend].
    exists pre, (Py.take (String.length p) rest). split; [done|].
    pose proof (take_drop_string (String.length p) rest) as Hsplit.
    destruct Hend as [Hd|Hd]; rewrite Hd in Hsplit; [left|right].
    + rewrite string_app_empty in Hsplit. by rewrite Hsplit.
    + by rewrite Hsplit.
  - intros (pre & mid & Hmid & Hs).
    assert (String.length p = String.length mid) as Hlen.
    { by rewrite <- (lower_length p), <- Hmid, lower_length. }
    destruct Hs as [-> | ->].
    + exists pre, mid. split; [done|]. apply Hm. rewrite Hlen.
      rewrite <- (string_app_empty mid) at 2 4.
      rewrite take_app_length, drop_app_length. auto.
    + exists pre, (mid ++ String "010" "")%string. split; [done|]. apply Hm.
      rewrite Hlen, take_app_length, drop_app_length. auto.
Qed.

End image_exclusion_facts.

(** X15: the image extractor excludes a source exactly when it is blank, or
    contains [data:image], [pixel.gif] or [1x1.] somewhere, or ends with
    [.ico] (a newline may follow), all in any case of letters. *)
Theorem image_should_exclude_rule (src : string) :
  ImageExtractor._should_exclude src = true ↔
  Py.strip src = "" ∨
  (∃ pre mid post,
      src = (pre ++ mid ++ post)%string ∧
      Py.lower mid ∈ ["data:image"; "pixel.gif"; "1x1."]) ∨
  (∃ pre mid,
      Py.lower mid = ".ico" ∧
      (src = (pre ++ mid)%string ∨ src = (pre ++ mid ++ String "010" "")%string)).
Proof.
  unfold ImageExtractor._should_exclude.
  destruct (String.eqb_spec src "") as [->|Hne]; cbn [orb].
  { split; [by left|done]. }
  destruct (String.eqb_spec (Py.strip src) "") as [Hblank|Hfull]; cbn [orb].
  { split; [by left|done]. }
  unfold ImageExtractor.exclude_patterns. cbn [existsb].
  rewrite !orb_true_iff, !bool_decide_eq_true.
  rewrite !search_istr, search_istr_end. split.
  - intros [H|[H|[H|[H|H]]]]; [| | | |done]; right.
    + left. destruct H as (pre & mid & post & -> & Hmid).
      exists pre, mid, post. split; [done|]. rewrite Hmid. set_solver.
    + by right.
    + left. destruct H as (pre & mid & post & -> & Hmid).
      exists pre, mid, post. split; [done|]. rewrite Hmid. set_solver.
    + left. destruct H as (pre & mid & post & -> & Hmid).
      exists pre, mid, post. split; [done|]. rewrite Hmid. set_solver.
  - intros [H|[(pre & mid & post & -> & Hmid)|H]]; [done| |].
    + repeat (apply elem_of_cons in Hmid as [Hmid|Hmid]);
        [..|by apply elem_of_nil in Hmid].
      * left. by exists pre, mid, post.
      * do 2 right. left. by exists pre, mid, post.
      * do 3 right. left. by exists pre, mid, post.
    + right. by left.
Qed.

(** ** File names *)

Section filename_facts.
Import Reference.

Lemma all_chars_app f (s t : string) :
  all_chars f (s ++ t) = all_chars f s && all_chars f t.
Proof.
  induction s as [|a s IH]; [done|]. rewrite append_cons. simpl.
  by rewrite IH, andb_assoc.
Qed.

Lemma all_chars_take f n s : all_chars f s = true → all_chars f (Py.take n s) = true.
Proof.
  revert s. induction n as [|n IH]; intros [|a s]; try done.
  simpl. rewrite !andb_true_iff. intros [Ha Hs]. split; [done|by apply IH].
Qed.

Lemma all_chars_impl (f g : ascii → bool) s :
  (∀ a, f a = true → g a = true) → all_chars f s = true → all_chars g s = true.
Proof.
  intros Hfg. induction s as [|a s IH]; [done|]. simpl.
  rewrite !andb_true_iff. intros [Ha Hs]. split; [by apply Hfg|by apply IH].
Qed.

(** Replacing one character by another: afterwards the character is gone,
    and what held of the other characters and of the new one still holds. *)
Lemma replace_char_all (f : ascii → bool) c u s :
  f u = true →
  all_chars (λ a, Ascii.eqb c a || f a) s = true →
  all_chars f (Py.replace s (String c "") (String u "")) = true.
Proof.
  intros Hu. unfold Py.replace. induction s as [|a s IH]; [done|].
  cbn [all_chars Py.replace_from Py.startswith String.length Nat.sub].
  rewrite andb_true_iff. intros [Ha Hs].
  destruct (Ascii.eqb_spec c a) as [<-|Hne].
  - destruct s; simpl; rewrite Hu; simpl; by apply IH.
  - simpl in Ha. simpl. rewrite Ha. by apply IH.
Qed.

End filename_facts.

(** X16: the file-name part made from a URL is [unknown] for the empty URL;
    it has at most 50 characters, and none of them is a slash, a question
    mark, an ampersand, an equals sign, a hash or a colon. *)
Theorem sanitize_url_for_filename_safe (url : string) :
  JSONStore._sanitize_url_for_filename "" = "unknown" ∧
  String.length (JSONStore._sanitize_url_for_filename url) ≤ 50 ∧
  Reference.all_chars Reference.filename_safe
    (JSONStore._sanitize_url_for_filename url) = true.
Proof.
  split; [reflexivity|]. unfold JSONStore._sanitize_url_for_filename.
  destruct (String.eqb url ""); [split; [simpl; lia|reflexivity]|].
  set (start := Py.replace (Py.replace url "http://" "") "https://" "").
  set (clean := Py.replace _ ":" "_").
  assert (Reference.all_chars Reference.filename_safe clean = true) as Hsafe.
  { subst clean.
    apply replace_char_all; [reflexivity|].
    apply (replace_char_all
             (λ a, Ascii.eqb ":" a || Reference.filename_safe a));
      [reflexivity|].
    apply (replace_char_all
             (λ a, Ascii.eqb "#" a
                   || (Ascii.eqb ":" a || Reference.filename_safe a)));
      [reflexivity|].
    apply (replace_char_all
             (λ a, Ascii.eqb "=" a
                   || (Ascii.eqb "#" a
                       || (Ascii.eqb ":" a || Reference.filename_safe a))));
      [reflexivity|].
    apply (replace_char_all
             (λ a, Ascii.eqb "&" a
                   || (Ascii.eqb "=" a
                       || (Ascii.eqb "#" a
                           || (Ascii.eqb ":" a || Reference.filename_safe a)))));
      [reflexivity|].
    apply (replace_char_all
             (λ a, Ascii.eqb "?" a
                   || (Ascii.eqb "&" a
                       || (Ascii.eqb "=" a
                           || (Ascii.eqb "#" a
                               || (Ascii.eqb ":" a
                                   || Reference.filename_safe a))))));
      [reflexivity|].
    apply (all_chars_impl (λ _, true)).
    - intros a _. unfold Reference.filename_safe.
      destruct (Ascii.eqb "/" a), (Ascii.eqb "?" a), (Ascii.eqb "&" a),
        (Ascii.eqb "=" a), (Ascii.eqb "#" a), (Ascii.eqb ":" a); reflexivity.
    - clear. induction start as [|a s IH]; [done|]. by simpl. }
  destruct (50 <? String.length clean) eqn:Hlen.
  - split; [apply take_length_le|by apply all_chars_take].
  - apply Nat.ltb_ge in Hlen. done.
Qed.

Section suffix_facts.

Lemma endswith_app (s p : string) : Py.endswith (s ++ p) p = true.
Proof.
  unfold Py.endswith. rewrite string_length_app.
  rewrite (proj2 (Nat.leb_le _ _)) by lia.
  replace (String.length s + String.length p - String.length p)
    with (String.length s) by lia.
  rewrite drop_app_length. apply String.eqb_refl.
Qed.

End suffix_facts.

(** X17: a result is saved under a name that ends with [.json]: a given name
    that has the suffix is used as it is, one without gets it appended, and
    without a given name (or with an empty one) the name is generated.  A
    generated name, for results and for screenshots, contains no slash as
    long as the time stamp and the screenshot suffix contain none. *)
Theorem result_file_names
    (filename : option string) (timestamp : string) (data_url : option string) :
  Py.endswith (JSONStore.single_result_filename filename timestamp data_url)
              ".json" = true ∧
  (∀ f, filename = Some f → f ≠ "" → Py.endswith f ".json" = true →
        JSONStore.single_result_filename filename timestamp data_url = f) ∧
  (∀ f, filename = Some f → f ≠ "" → Py.endswith f ".json" = false →
        JSONStore.single_result_filename filename timestamp data_url
        = (f ++ ".json")%string) ∧
  (Reference.all_chars (λ a, negb (Ascii.eqb "/" a)) timestamp = true →
   Reference.all_chars (λ a, negb (Ascii.eqb "/" a))
     (JSONStore.single_result_filename None timestamp data_url) = true ∧
   ∀ url suffix,
     Reference.all_chars (λ a, negb (Ascii.eqb "/" a)) suffix = true →
     Reference.all_chars (λ a, negb (Ascii.eqb "/" a))
       (JSONStore.screenshot_filename timestamp url suffix) = true).
Proof.
  assert (∀ name suffix,
            Py.endswith (JSONStore.with_suffix name suffix) suffix = true)
    as Hsuffix.
  { intros name suffix. unfold JSONStore.with_suffix.
    destruct (Py.endswith name suffix) eqn:Hend; [done|apply endswith_app]. }
  assert (∀ url, Reference.all_chars (λ a, negb (Ascii.eqb "/" a))
                   (JSONStore._sanitize_url_for_filename url) = true)
    as Hsan.
  { intros url.
    apply (all_chars_impl Reference.filename_safe);
      [|apply sanitize_url_for_filename_safe].
    intros a. unfold Reference.filename_safe.
    by destruct (Ascii.eqb "/" a). }
  split; [apply Hsuffix|]. split; [|split].
  - intros f -> Hf Hend. unfold JSONStore.single_result_filename.
    destruct (String.eqb_spec f ""); [done|].
    unfold JSONStore.with_suffix. by rewrite Hend.
  - intros f -> Hf Hend. unfold JSONStore.single_result_filename.
    destruct (String.eqb_spec f ""); [done|].
    unfold JSONStore.with_suffix. by rewrite Hend.
  - intros Hts. split.
    + unfold JSONStore.single_result_filename, JSONStore.with_suffix.
      match goal with |- context [Py.endswith ?g ".json"] =>
        assert (Py.endswith g ".json" = true) as ->
      end.
      { rewrite <- !string_app_assoc. apply endswith_app. }
      rewrite !all_chars_app, Hts, Hsan. reflexivity.
    + intros url suffix Hsuf. unfold JSONStore.screenshot_filename.
      destruct (String.eqb suffix "");
        rewrite !all_chars_app, Hts, Hsan, ?Hsuf; reflexivity.
Qed.

Lemma result_file_names_witness :
  JSONStore.single_result_filename (Some "jobs") "20260101_000000" None
  = "jobs.json".
Proof.
  destruct (result_file_names (Some "jobs") "20260101_000000" None)
    as (_ & _ & Happend & _).
  apply (Happend "jobs"); [reflexivity|discriminate|reflexivity].
Defined.

(** ** Text *)

Section clean_text_facts.
Import Re Reference TextExtractor.

(** Where [\s+] matches, and what it leaves. *)
Lemma match_at_spaces s :
  match_at spaces_pattern false s =
  match s with
  | String a s' =>
      if Py.isspace a then Some (Urllib.lstrip_chars Py.isspace s', []) else None
  | EmptyString => None
  end.
Proof.
  unfold match_at, spaces_pattern, plus, space. cbn [m].
  destruct s as [|a s']; [done|]. destruct (Py.isspace a); [|done].
  apply (star_loop_greedy_class Py.isspace (λ s' c', Some (s', c'))
           (String.length s') s' []); [lia|by eexists].
Qed.

Lemma squeeze_after_space s :
  squeeze_spaces true s
  = squeeze_spaces false (Urllib.lstrip_chars Py.isspace s).
Proof.
  induction s as [|a s IH]; simpl; [done|].
  destruct (Py.isspace a) eqn:Ha; [done|]. simpl. by rewrite Ha.
Qed.

(** [re.sub] with [\s+] and a blank squeezes every run of white space. *)
Lemma sub_spaces s :
  sub spaces_pattern " " s = squeeze_spaces false s.
Proof.
  unfold sub.
  assert (∀ n s, String.length s ≤ n →
            fold_right
              (λ p acc, match p with
                        | Skipped a => String a acc
                        | Matched _ _ => (" " ++ acc)%string
                        end) "" (scan spaces_pattern 0 s)
            = squeeze_spaces false s) as Hall;
    [|by apply (Hall (String.length s) s)].
  clear s. induction n as [|n IH]; intros s Hlen.
  - destruct s; [|simpl in Hlen; lia].
    cbn [scan]. by rewrite match_at_spaces.
  - destruct s as [|a s']; [cbn [scan]; by rewrite match_at_spaces|].
    cbn [scan]. rewrite match_at_spaces.
    destruct (Py.isspace a) eqn:Ha.
    + pose proof (lstrip_chars_length Py.isspace s') as Hle.
      rewrite (proj2 (Nat.ltb_lt _ _)) by (simpl; lia).
      cbn [fold_right]. rewrite scan_skip by (simpl; lia).
      replace (String.length (String a s')
               - String.length (Urllib.lstrip_chars Py.isspace s') - 1)
        with (String.length s'
              - String.length (Urllib.lstrip_chars Py.isspace s'))
        by (simpl; lia).
      rewrite drop_lstrip_chars, IH by (simpl in Hlen; lia).
      cbn [squeeze_spaces]. rewrite Ha. by rewrite squeeze_after_space.
    + cbn [fold_right]. rewrite IH by (simpl in Hlen; lia).
      cbn [squeeze_spaces]. by rewrite Ha.
Qed.

Lemma single_spaced_cons a s :
  single_spaced (String a s)
  = (negb (Py.isspace a) || Ascii.eqb a " ")
    && match s with
       | String b _ => negb (Py.isspace a && Py.isspace b)
       | EmptyString => true
       end
    && single_spaced s.
Proof. reflexivity. Qed.

Lemma single_spaced_tail a s :
  single_spaced (String a s) = true → single_spaced s = true.
Proof. rewrite single_spaced_cons. by intros [_ ?]%andb_true_iff. Qed.

Lemma squeeze_single_spaced after s :
  single_spaced (squeeze_spaces after s) = true ∧
  (after = true →
   match squeeze_spaces after s with
   | String a _ => Py.isspace a = false
   | EmptyString => True
   end).
Proof.
  revert after. induction s as [|a s IH]; intros after; [done|].
  cbn [squeeze_spaces]. destruct (Py.isspace a) eqn:Ha.
  - destruct after; [apply IH|].
    destruct (IH true) as [Hs Hhead]. split; [|done].
    rewrite single_spaced_cons, Hs.
    destruct (squeeze_spaces true s) as [|b r]; [done|].
    by rewrite (Hhead eq_refl).
  - destruct (IH false) as [Hs _]. split; [|done].
    rewrite single_spaced_cons, Hs, Ha.
    by destruct (squeeze_spaces false s).
Qed.

Lemma lstrip_single_spaced s :
  single_spaced s = true → single_spaced (Py.lstrip s) = true.
Proof.
  induction s as [|a s IH]; [done|]. intros Hs.
  cbn [Py.lstrip]. destruct (Py.isspace a); [|done].
  by apply IH, (single_spaced_tail a).
Qed.

Lemma rstrip_single_spaced s :
  single_spaced s = true → single_spaced (Py.rstrip s) = true.
Proof.
  induction s as [|a s IH]; [done|]. intros Hs.
  pose proof (IH (single_spaced_tail _ _ Hs)) as Htail.
  rewrite rstrip_cons. destruct (Py.rstrip s) as [|b r] eqn:Hr.
  - destruct (Py.isspace a) eqn:Ha; [done|].
    rewrite single_spaced_cons, Ha. done.
  - destruct s as [|b' s']; [done|].
    assert (b = b') as <-.
    { rewrite rstrip_cons in Hr. destruct (Py.rstrip s'); [|by injection Hr].
      destruct (Py.isspace b'); [done|by injection Hr]. }
    rewrite single_spaced_cons in Hs |- *.
    apply andb_true_iff in Hs as [Hab _]. by rewrite Hab, Htail.
Qed.

(** Squeezing leaves a single-spaced text as it is. *)
Lemma squeeze_single_spaced_id s :
  single_spaced s = true → squeeze_spaces false s = s.
Proof.
  induction s as [|a s IH]; [done|]. intros Hs.
  pose proof (IH (single_spaced_tail _ _ Hs)) as Htail.
  rewrite single_spaced_cons in Hs.
  apply andb_true_iff in Hs as [Hs _]. apply andb_true_iff in Hs as [Ha Hnext].
  cbn [squeeze_spaces]. destruct (Py.isspace a) eqn:Hsp.
  - simpl in Ha. apply Ascii.eqb_eq in Ha as ->. f_equal.
    rewrite squeeze_after_space.
    destruct s as [|b s']; [done|]. simpl in Hnext.
    apply negb_true_iff in Hnext. cbn [Urllib.lstrip_chars]. by rewrite Hnext.
  - by rewrite Htail.
Qed.

Lemma clean_text_squeeze t :
  _clean_text t = Py.strip (squeeze_spaces false t).
Proof.
  unfold _clean_text. destruct (String.eqb_spec t "") as [->|_]; [done|].
  by rewrite sub_spaces.
Qed.

Lemma clean_text_is_single_spaced t : single_spaced (_clean_text t) = true.
Proof.
  rewrite clean_text_squeeze. unfold Py.strip.
  apply rstrip_single_spaced, lstrip_single_spaced, squeeze_single_spaced.
Qed.

Lemma clean_text_is_stripped t : Py.strip (_clean_text t) = _clean_text t.
Proof. rewrite clean_text_squeeze. apply strip_idempotent. Qed.

End clean_text_facts.

(** X18: [_clean_text] squeezes every run of white space into one blank and
    strips the ends; in its result white space occurs only as single blanks
    inside the text, and cleaning a cleaned text changes nothing. *)
Theorem clean_text_single_spaced (text : string) :
  TextExtractor._clean_text text
  = Py.strip (Reference.squeeze_spaces false text) ∧
  Reference.single_spaced (TextExtractor._clean_text text) = true ∧
  Py.strip (TextExtractor._clean_text text) = TextExtractor._clean_text text ∧
  TextExtractor._clean_text (TextExtractor._clean_text text)
  = TextExtractor._clean_text text.
Proof.
  split; [apply clean_text_squeeze|].
  split; [apply clean_text_is_single_spaced|].
  split; [apply clean_text_is_stripped|].
  rewrite (clean_text_squeeze (TextExtractor._clean_text text)).
  rewrite squeeze_single_spaced_id by apply clean_text_is_single_spaced.
  apply clean_text_is_stripped.
Qed.

(** X19: [_extract_paragraphs] returns, in the order of the [p] elements
    and with their repetitions, the stripped text of every element whose
    stripped text has more than 20 characters, and of no other; so every
    paragraph returned is stripped and longer than 20 characters. *)
Theorem extract_paragraphs_long_and_stripped (texts : list string) :
  TextExtractor._extract_paragraphs texts
  = Py.strip <$> filter (λ text, 20 < String.length (Py.strip text)) texts ∧
  (∀ paragraph,
      paragraph ∈ TextExtractor._extract_paragraphs texts →
      Py.strip paragraph = paragraph ∧ 20 < String.length paragraph).
Proof.
  assert (TextExtractor._extract_paragraphs texts
          = Py.strip
              <$> filter (λ text, 20 < String.length (Py.strip text)) texts)
    as Heq.
  { unfold TextExtractor._extract_paragraphs. f_equal.
    induction texts as [|text texts IH]; [done|].
    cbn [List.filter]. rewrite filter_cons, <- IH.
    destruct (String.eqb_spec text "") as [->|_].
    { cbn [negb andb]. by rewrite decide_False by (simpl; lia). }
    destruct (String.eqb_spec (Py.strip text) "") as [Hempty|_].
    { cbn [negb andb]. rewrite Hempty.
      by rewrite decide_False by (simpl; lia). }
    cbn [negb andb]. destruct (Nat.ltb_spec 20 (String.length (Py.strip text))).
    - by rewrite decide_True.
    - by rewrite decide_False by lia. }
  split; [done|]. rewrite Heq. intros paragraph Hp.
  apply list_elem_of_fmap in Hp as (text & -> & Hin).
  apply list_elem_of_filter in Hin as [Hlen _].
  split; [apply strip_idempotent|done].
Qed.

Lemma extract_paragraphs_long_and_stripped_witness :
  Py.strip "A paragraph of some length." = "A paragraph of some length." ∧
  20 < String.length "A paragraph of some length.".
Proof.
  apply (proj2 (extract_paragraphs_long_and_stripped
                  [" A paragraph of some length. "; "short";
                   " A paragraph of some length. "])).
  left.
Defined.

(** ** Main content *)

Section main_content_facts.
Import TextExtractor Reference.

Lemma first_content_Some p selectors content :
  first_content p selectors = Some content →
  ∃ selector text,
    selector ∈ selectors ∧ candidate_of p selector text ∧
    content = _clean_text text.
Proof.
  induction selectors as [|selector rest IH]; [done|]. cbn [first_content].
  destruct (query_selector p selector) as [text|] eqn:Hq.
  - destruct (negb (text =? "")%string
              && (100 <? String.length (Py.strip text))) eqn:Hlong.
    + intros [= <-]. exists selector, text.
      apply andb_true_iff in Hlong as [_ Hlong%Nat.ltb_lt].
      split; [left|]. by split.
    + intros (s & t & Hs & Ht)%IH. exists s, t. split; [by right|done].
  - intros (s & t & Hs & Ht)%IH. exists s, t. split; [by right|done].
Qed.

Lemma first_content_None p selectors :
  first_content p selectors = None ↔
  ∀ selector text, selector ∈ selectors → ¬ candidate_of p selector text.
Proof.
  unfold candidate_of.
  induction selectors as [|selector rest IH]; cbn [first_content].
  - split; [|done]. intros _ ? ? Hin. by apply elem_of_nil in Hin.
  - destruct (query_selector p selector) as [text|] eqn:Hq.
    + destruct (negb (text =? "")%string
                && (100 <? String.length (Py.strip text))) eqn:Hlong.
      * split; [done|]. intros Hnone. exfalso.
        apply (Hnone selector text); [left|].
        by apply andb_true_iff in Hlong as [_ Hlong%Nat.ltb_lt].
      * rewrite IH. split.
        -- intros Hrest s t [->|Hin]%elem_of_cons; [|by apply Hrest].
           rewrite Hq. intros [[= <-] Hlen].
           apply andb_false_iff in Hlong as [Hempty|Hshort].
           ++ apply negb_false_iff, String.eqb_eq in Hempty as ->.
              simpl in Hlen. lia.
           ++ apply Nat.ltb_ge in Hshort. lia.
        -- intros Hall s t Hin. apply Hall. by right.
    + rewrite IH. split.
      * intros Hrest s t [->|Hin]%elem_of_cons; [|by apply Hrest].
        rewrite Hq. by intros [? _].
      * intros Hall s t Hin. apply Hall. by right.
Qed.

Lemma first_content_first p pre selector post text :
  (∀ s t, s ∈ pre → ¬ Reference.candidate_of p s t) →
  candidate_of p selector text →
  first_content p (pre ++ selector :: post) = Some (_clean_text text).
Proof.
  intros Hpre [Hq Hlen]. induction pre as [|s pre IH]; cbn [app first_content].
  - rewrite Hq. rewrite (proj2 (Nat.ltb_lt _ _) Hlen).
    destruct (String.eqb_spec text "") as [->|_]; [simpl in Hlen; lia|done].
  - assert (first_content p [s] = None) as Hs.
    { apply first_content_None. intros s' t ->%list_elem_of_singleton.
      apply Hpre. left. }
    cbn [first_content] in Hs.
    destruct (query_selector p s) as [t|].
    + destruct (negb (t =? "")%string && (100 <? String.length (Py.strip t)));
        [done|]. apply IH. intros s' t' Hin. apply Hpre. by right.
    + apply IH. intros s' t' Hin. apply Hpre. by right.
Qed.

End main_content_facts.

(** X20: [_extract_main_content] returns the cleaned text of the first
    candidate element, in the order [main], [article], [.content], [.post],
    [#content], whose stripped text has more than 100 characters; when there
    is none, the cleaned text of the body, and nothing when the body has no
    text.  What it returns is single-spaced and stripped. *)
Theorem extract_main_content_first_candidate (p : TextExtractor.content_page) :
  (∀ pre selector post text,
      TextExtractor.content_selectors = pre ++ selector :: post →
      (∀ s t, s ∈ pre → ¬ Reference.candidate_of p s t) →
      Reference.candidate_of p selector text →
      TextExtractor._extract_main_content p
      = Some (TextExtractor._clean_text text)) ∧
  ((∀ s t, s ∈ TextExtractor.content_selectors →
           ¬ Reference.candidate_of p s t) →
   TextExtractor._extract_main_content p
   = if String.eqb (TextExtractor.body_text p) "" then None
     else Some (TextExtractor._clean_text (TextExtractor.body_text p))) ∧
  (∀ content,
      TextExtractor._extract_main_content p = Some content →
      Reference.single_spaced content = true ∧ Py.strip content = content).
Proof.
  unfold TextExtractor._extract_main_content. split; [|split].
  - intros pre selector post text -> Hpre Hcand.
    by rewrite (first_content_first p pre selector post text).
  - intros Hnone. apply first_content_None in Hnone. by rewrite Hnone.
  - intros content.
    destruct (TextExtractor.first_content p TextExtractor.content_selectors)
      as [c|] eqn:Hfirst.
    + intros [= <-].
      apply first_content_Some in Hfirst as (s & t & _ & _ & ->).
      split; [apply clean_text_is_single_spaced|apply clean_text_is_stripped].
    + destruct (String.eqb _ ""); [done|]. intros [= <-].
      split; [apply clean_text_is_single_spaced|apply clean_text_is_stripped].
Qed.

Lemma extract_main_content_first_candidate_witness :
  TextExtractor._extract_main_content TextExample.article_page
  = Some (TextExtractor._clean_text TextExample.article_text).
Proof.
  apply (proj1 (extract_main_content_first_candidate TextExample.article_page)
           ["main"] "article" [".content"; ".post"; "#content"]).
  - reflexivity.
  - intros s t ->%list_elem_of_singleton [Hq Hlen].
    vm_compute in Hq. injection Hq as <-. vm_compute in Hlen. lia.
  - split; [reflexivity|]. vm_compute. lia.
Defined.

(** ** The detail phase of [run] *)

Section run_facts.
Import HttpEngineRun.
Variable fetch_html : string → option string.
Variable time_sleep : HttpEngine.delay_value → bool.
Variable utcnow : nat → string.
Variable cfg : HttpEngine.config.
Variable site_name : string.

Local Abbreviation crawl := (HttpEngine.crawl_and_normalize fetch_html cfg).
Local Abbreviation sleeps :=
  (time_sleep (default (HttpEngine.Seconds 1 1) (HttpEngine.delay cfg))).
Local Abbreviation loop :=
  (detail_loop fetch_html time_sleep utcnow cfg site_name).

Lemma try_item_spec item_id results :
  try_item fetch_html utcnow cfg site_name item_id results
  = results
    ++ imap (λ i record,
               stamp (utcnow (List.length results + i)) site_name record)
         (omap crawl [item_id]).
Proof.
  unfold try_item. cbn [omap list_omap].
  destruct (HttpEngine.crawl_and_normalize fetch_html cfg item_id);
    cbn; [by rewrite Nat.add_0_r|by rewrite app_nil_r].
Qed.

(** The records of a detail loop that returns. *)
Lemma detail_loop_spec total i ids results records :
  loop total i ids results = Some records →
  records
  = results
    ++ imap (λ i record,
               stamp (utcnow (List.length results + i)) site_name record)
         (omap crawl ids).
Proof.
  revert i results. induction ids as [|item_id ids IH]; intros i results.
  - intros [= <-]. simpl. by rewrite app_nil_r.
  - cbn [detail_loop]. intros Hloop.
    assert (loop total (S i) ids
              (try_item fetch_html utcnow cfg site_name item_id results)
            = Some records) as Hnext.
    { case_bool_decide; [destruct sleeps; [|done]|]; done. }
    apply IH in Hnext. rewrite Hnext, try_item_spec. clear Hnext Hloop.
    cbn [omap list_omap].
    destruct (HttpEngine.crawl_and_normalize fetch_html cfg item_id)
      as [record|]; cbn [imap app].
    + rewrite <- app_assoc, Nat.add_0_r. cbn [app]. do 2 f_equal.
      apply imap_ext. intros k r _. cbn. rewrite length_app. cbn.
      do 2 f_equal. lia.
    + by rewrite app_nil_r.
Qed.

(** The detail loop raises exactly when its delay does and is due, which it
    is after every item but the last. *)
Lemma detail_loop_None total i ids results :
  loop total i ids results = None ↔ sleeps = false ∧ ids ≠ [] ∧ i < total.
Proof.
  revert i results. induction ids as [|item_id ids IH]; intros i results.
  - split; [done|]. by intros (_ & ? & _).
  - cbn [detail_loop]. case_bool_decide as Hi.
    + destruct sleeps eqn:Hsleep.
      * rewrite IH. split; intros (? & _); done.
      * split; [done|]. done.
    + rewrite IH. split; [intros (_ & _ & ?); lia|intros (_ & _ & ?); lia].
Qed.

Lemma limit_items_prefix ids max_items :
  limit_items ids max_items `prefix_of` ids.
Proof.
  unfold limit_items. destruct max_items as [n|]; [|done].
  repeat case_bool_decide; try done; apply prefix_take.
Qed.

Lemma limit_items_positive ids n :
  (0 < n)%Z → limit_items ids (Some n) = take (Z.to_nat n) ids.
Proof.
  intros Hn. unfold limit_items.
  rewrite bool_decide_eq_false_2, bool_decide_eq_true_2 by lia. done.
Qed.

Lemma stamp_lookup_field crawled_at record f :
  f ∈ Schema.FIELDS → stamp crawled_at site_name record !! f = record !! f.
Proof.
  intros Hf. unfold stamp.
  rewrite !lookup_insert_ne; [done| |]; intros <-; revert Hf;
    apply (bool_decide_unpack _); vm_compute; exact I.
Qed.

End run_facts.

(** X21: the list and detail phases of [run], under the configuration with
    the delay argument put in.  They raise exactly when the list phase
    raises, or when at least two identifiers are kept and the delay between
    two items raises.  Otherwise the records are the normalized records of
    the identifiers kept by [max_items] (a prefix of the collected ones)
    whose detail crawl succeeds, in order: an item whose crawl raises is
    left out.  Each record is stamped with [_source] and [_crawled_at] and
    keeps every field of the schema. *)
Theorem run_skips_failed_items
    (fetch_html : string → option string)
    (time_sleep : HttpEngine.delay_value → bool) (utcnow : nat → string)
    (cfg : HttpEngine.config) (site_name : string)
    (max_pages max_items : option Z)
    (delay : option HttpEngine.delay_value) :
  let cfg' := from_option (HttpEngineRun.with_delay cfg) cfg delay in
  let sleeps :=
    time_sleep (default (HttpEngine.Seconds 1 1) (HttpEngine.delay cfg')) in
  let collected :=
    HttpEngine.crawl_list_pages fetch_html time_sleep cfg' max_pages in
  (HttpEngineRun.run fetch_html time_sleep utcnow cfg site_name
     max_pages max_items delay = None ↔
   collected = None ∨
   ∃ ids, collected = Some ids ∧ sleeps = false ∧
          2 ≤ List.length (HttpEngineRun.limit_items ids max_items)) ∧
  ∀ records,
    HttpEngineRun.run fetch_html time_sleep utcnow cfg site_name
      max_pages max_items delay = Some records →
    ∃ ids kept,
      collected = Some ids ∧
      kept `prefix_of` ids ∧
      (∀ n, max_items = Some n → (0 < n)%Z → kept = take (Z.to_nat n) ids) ∧
      records
      = imap (λ i record, HttpEngineRun.stamp (utcnow i) site_name record)
          (omap (HttpEngine.crawl_and_normalize fetch_html cfg') kept) ∧
      List.length records ≤ List.length kept ∧
      ∀ i record,
        records !! i = Some record →
        record !! "_source" = Some (Schema.VStr site_name) ∧
        record !! "_crawled_at" = Some (Schema.VStr (utcnow i)) ∧
        ∀ f, f ∈ Schema.FIELDS → ∃ v, record !! f = Some (Schema.VStr v).
Proof.
  intros cfg' sleeps collected. unfold HttpEngineRun.run.
  fold cfg' collected. split.
  - destruct collected as [ids|]; cbn; [|split; [by left|done]].
    rewrite detail_loop_None. fold sleeps. split.
    + intros (Hsleep & Hids & Hlen). right. exists ids.
      split; [done|]. split; [done|].
      destruct (HttpEngineRun.limit_items ids max_items); [done|].
      simpl in *. lia.
    + intros [?|(ids' & [= <-] & Hsleep & Hlen)]; [done|].
      split; [done|]. split; [|lia].
      intros Hnil. rewrite Hnil in Hlen. simpl in Hlen. lia.
  - intros records Hrun.
    destruct collected as [ids|]; [|done]. cbn in Hrun.
    apply detail_loop_spec in Hrun. cbn [app List.length Nat.add] in Hrun.
    exists ids, (HttpEngineRun.limit_items ids max_items).
    split; [done|]. split; [apply limit_items_prefix|].
    split; [intros n -> Hn; by apply limit_items_positive|].
    split; [done|]. rewrite Hrun.
    split; [rewrite length_imap; apply omap_length_le|].
    intros i record Hi. rewrite list_lookup_imap in Hi.
    destruct (omap _ _ !! i) as [normalized|] eqn:Hn; [|done].
    cbn in Hi. injection Hi as <-.
    split; [apply lookup_insert_eq|]. split.
    + unfold HttpEngineRun.stamp.
      rewrite lookup_insert_ne by done. apply lookup_insert_eq.
    + intros f Hf. rewrite stamp_lookup_field by done.
      apply list_elem_of_lookup_2, list_elem_of_omap in Hn
        as (item_id & _ & Hcrawl).
      unfold HttpEngine.crawl_and_normalize in Hcrawl.
      destruct (HttpEngine.crawl_detail fetch_html cfg' item_id)
        as [raw|]; [|done].
      cbn in Hcrawl. injection Hcrawl as <-.
      rewrite normalize_lookup_field by done. by eexists.
Qed.

Lemma run_skips_failed_items_witness :
  ∃ records,
    HttpEngineRun.run RunExample.run_site Examples.time_sleep RunExample.clock
      RunExample.run_config "site" None None None = Some records ∧
    List.length records ≤ 2.
Proof.
  destruct (HttpEngineRun.run RunExample.run_site Examples.time_sleep
              RunExample.clock RunExample.run_config "site" None None None)
    as [records|] eqn:Hrun; [|by vm_compute in Hrun].
  exists records. split; [done|].
  destruct (proj2 (run_skips_failed_items RunExample.run_site
                     Examples.time_sleep RunExample.clock
                     RunExample.run_config "site" None None None)
              records Hrun)
    as (ids & kept & Hids & Hkept & _ & _ & Hlen & _).
  vm_compute in Hids. injection Hids as <-.
  apply prefix_length in Hkept. cbn in Hkept. lia.
Defined.

(** ** Batches *)

Section batch_facts.
Import CrawlerBatch.
Variable fetch_single_url :
  nat → Schema.value → gmap string Schema.value → gmap string Schema.value.
Variable settings : gmap string Schema.value.
Variable delay : Z.

Local Abbreviation loop := (batch_loop fetch_single_url settings delay).

Lemma with_waits_cons d e e' rest :
  with_waits d (e :: e' :: rest) = e :: EvWait d :: with_waits d (e' :: rest).
Proof. reflexivity. Qed.

Lemma job_events_cons job jobs url :
  job !! "url" = Some url →
  omap (job_event settings) (job :: jobs)
  = EvJob url (job_config settings job) :: omap (job_event settings) jobs.
Proof.
  intros Hurl. cbn [omap list_omap]. unfold job_event at 1.
  by rewrite Hurl.
Qed.

Lemma batch_loop_None total i jobs results events :
  loop total i jobs results events = None ↔
  ∃ job, job ∈ jobs ∧ job !! "url" = None.
Proof.
  revert i results events.
  induction jobs as [|job jobs IH]; intros i results events.
  - split; [done|]. intros (job & Hin & _). by apply elem_of_nil in Hin.
  - cbn [batch_loop]. destruct (job !! "url") as [url|] eqn:Hurl.
    + rewrite IH. split.
      * intros (j & Hin & Hj). exists j. split; [by right|done].
      * intros (j & [->|Hin]%elem_of_cons & Hj); [congruence|by exists j].
    + split; [|done]. intros _. exists job. split; [left|done].
Qed.

(** A loop that returns: one result for every job, and the trace of the
    jobs, with a pause after every job but the last when the delay is
    positive. *)
Lemma batch_loop_spec total jobs :
  ∀ i results events results' events',
    loop total i jobs results events = Some (results', events') →
    i + List.length jobs = S total →
    ∃ rs,
      results' = results ++ rs ∧
      List.length rs = List.length jobs ∧
      (∀ k job,
          jobs !! k = Some job →
          ∃ url,
            job !! "url" = Some url ∧
            rs !! k
            = Some (<["job_name" := job_name (i + k) job]>
                      (fetch_single_url (i + k) url
                         (job_config settings job)))) ∧
      events'
      = events
        ++ (if bool_decide (0 < delay)%Z
            then with_waits delay (omap (job_event settings) jobs)
            else omap (job_event settings) jobs).
Proof.
  induction jobs as [|job jobs IH]; intros i results events results' events'.
  - intros [= <- <-] _. exists []. rewrite app_nil_r.
    split; [done|]. split; [done|]. split; [done|].
    cbn [omap list_omap with_waits]. case_bool_decide; by rewrite app_nil_r.
  - cbn [batch_loop]. destruct (job !! "url") as [url|] eqn:Hurl; [|done].
    intros Hloop Htotal. cbn [List.length] in Htotal.
    apply IH in Hloop as (rs & -> & Hlen & Hrs & ->); [|lia].
    eexists (_ :: rs). rewrite <- app_assoc. split; [done|].
    split; [cbn; by rewrite Hlen|]. split.
    + intros [|k] j Hj.
      * injection Hj as <-. exists url. by rewrite Nat.add_0_r.
      * destruct (Hrs k j Hj) as (u & Hu & Hk). exists u.
        split; [done|]. replace (i + S k) with (S i + k) by lia. exact Hk.
    + rewrite (job_events_cons job jobs url Hurl).
      destruct jobs as [|job' jobs].
      * rewrite (bool_decide_eq_false_2 (i < total)) by (cbn in Htotal; lia).
        rewrite andb_false_r. cbn. case_bool_decide; by rewrite app_nil_r.
      * rewrite (bool_decide_eq_true_2 (i < total)) by (cbn in Htotal; lia).
        rewrite andb_true_r.
        destruct (Hrs 0 job' eq_refl) as (u & Hu & _).
        rewrite (job_events_cons job' jobs u Hu). case_bool_decide.
        -- rewrite with_waits_cons. by rewrite <- !app_assoc.
        -- by rewrite <- !app_assoc.
Qed.

End batch_facts.

(** X22: [fetch_batch] raises exactly when some job has no [url]; otherwise
    it returns one result per job, in the order of the jobs, each named
    after the job or [job_<i>] with [i] counted from 1, and fetched with the
    job's own keys taking precedence over the settings.  Its trace is the
    jobs in order, with exactly one pause between every two of them when the
    delay is positive and with no pause otherwise. *)
Theorem fetch_batch_one_result_per_job
    (fetch_single_url :
       nat → Schema.value → gmap string Schema.value → gmap string Schema.value)
    (settings : gmap string Schema.value) (delay : Z)
    (jobs : list (gmap string Schema.value)) :
  (CrawlerBatch.fetch_batch fetch_single_url settings delay jobs = None ↔
   ∃ job, job ∈ jobs ∧ job !! "url" = None) ∧
  (∀ job k v,
      job !! k = Some v → CrawlerBatch.job_config settings job !! k = Some v) ∧
  ∀ results events,
    CrawlerBatch.fetch_batch fetch_single_url settings delay jobs
    = Some (results, events) →
    List.length results = List.length jobs ∧
    (∀ i job,
        jobs !! i = Some job →
        ∃ url,
          job !! "url" = Some url ∧
          results !! i
          = Some (<["job_name" := CrawlerBatch.job_name (S i) job]>
                    (fetch_single_url (S i) url
                       (CrawlerBatch.job_config settings job)))) ∧
    List.length (omap (CrawlerBatch.job_event settings) jobs)
    = List.length jobs ∧
    events
    = (if bool_decide (0 < delay)%Z
       then CrawlerBatch.with_waits delay
              (omap (CrawlerBatch.job_event settings) jobs)
       else omap (CrawlerBatch.job_event settings) jobs).
Proof.
  split; [apply batch_loop_None|]. split.
  - intros job k v Hk. unfold CrawlerBatch.job_config.
    by apply lookup_union_Some_l.
  - intros results events Hbatch.
    apply batch_loop_spec in Hbatch as (rs & -> & Hlen & Hrs & ->);
      [|cbn; lia].
    cbn [app]. split; [done|]. split; [exact Hrs|]. split; [|done].
    clear Hlen. revert rs Hrs. generalize 1.
    induction jobs as [|job jobs IH]; intros i rs Hrs; [done|].
    destruct (Hrs 0 job eq_refl) as (url & Hurl & _).
    rewrite (job_events_cons settings job jobs url Hurl). cbn. f_equal.
    apply (IH (S i) (drop 1 rs)). intros k j Hj.
    destruct (Hrs (S k) j Hj) as (u & Hu & Hk). exists u. split; [done|].
    rewrite lookup_drop. replace (S i + k) with (i + S k) by lia. exact Hk.
Qed.

Lemma fetch_batch_one_result_per_job_witness :
  ∃ results events,
    CrawlerBatch.fetch_batch BatchExample.browser ∅ 2000 BatchExample.jobs
    = Some (results, events) ∧
    List.length results = 2 ∧
    events
    = [ CrawlerBatch.EvJob (Schema.VStr "http://site.test/a")
          {[ "url" := Schema.VStr "http://site.test/a";
             "name" := Schema.VStr "first" ]};
        CrawlerBatch.EvWait 2000;
        CrawlerBatch.EvJob (Schema.VStr "http://site.test/b")
          {[ "url" := Schema.VStr "http://site.test/b" ]} ].
Proof.
  destruct (CrawlerBatch.fetch_batch BatchExample.browser ∅ 2000
              BatchExample.jobs) as [[results events]|] eqn:Hbatch;
    [|by vm_compute in Hbatch].
  exists results, events. split; [done|].
  destruct (proj2 (proj2 (fetch_batch_one_result_per_job BatchExample.browser
                            ∅ 2000 BatchExample.jobs)) results events Hbatch)
    as (Hlen & _ & _ & Hevents).
  split; [exact Hlen|]. rewrite Hevents. vm_compute. reflexivity.
Defined.
